(** * wordcab-transcribe: utilities and request models

    A shallow embedding of [wordcab_transcribe/utils.py],
    [wordcab_transcribe/models.py] and
    [wordcab_transcribe/router/v1/endpoints.py], with the properties their
    specification states about them and further properties of the code.

    Conventions of the embedding.
    - A Python [str] is a [string]; each [ascii] stands for one code point
      below 256.  Code points above 255 are outside the model.
    - A Python [float] is an IEEE 754 double, [pyfloat]: a finite one is
      given by the rational number it stands for, and there are the two
      infinities and NaN.  Division, multiplication, [divmod] and [%] are
      CPython's, each result rounded to the nearest double, ties to even,
      and infinite on overflow; the two zeros are one number.  ([Fin]
      holds every rational: the operations round their results, and a
      statement about all of [pyfloat] is also one about all doubles.)
    - The segment anchor, the values of a segment and the series of the gap
      filler carry rational numbers [Q]: of these only the mean of the
      anchor is computed, and it is the exact one.
    - Effectful functions are state passing over a [World] (file system,
      spawned processes, log) and return [Raise e] or [Return v].  Reading
      the body of a response and writing to an open file do not fail
      there. *)

From Stdlib Require Import ZArith QArith Qround Qabs Qpower Qreduction Lqa String Ascii List Lia Bool.
From Stdlib Require Import DecimalString DecimalN DecimalPos.
From stdpp Require Import gmap strings.

(* ===================================================================== *)
(** * Part I: definitions *)
(* ===================================================================== *)

(** ** Python string primitives *)

(** [str.isspace] on one character, also the class [\s] of [re] on [str]
    patterns: U+0009..U+000D, U+001C..U+0020, U+0085 and U+00A0 below 256. *)
Definition is_space (c : ascii) : bool :=
  let n := nat_of_ascii c in
  ((9 <=? n)%nat && (n <=? 13)%nat) || ((28 <=? n)%nat && (n <=? 32)%nat)
  || (n =? 133)%nat || (n =? 160)%nat.

(** The scan of [str.replace old new] for a non-empty [old]: [skip] counts
    the characters of a match that are still to be passed over. *)
Fixpoint replace_from (old new : string) (skip : nat) (s : string) : string :=
  match s with
  | EmptyString => EmptyString
  | String c s' =>
      match skip with
      | S k => replace_from old new k s'
      | O =>
          if String.prefix old s
          then new +:+ replace_from old new (String.length old - 1) s'
          else String c (replace_from old new 0 s')
      end
  end.

(** What [str.replace] does with an empty [old]: [new] before every
    character and at the end. *)
Fixpoint replace_empty (new : string) (s : string) : string :=
  match s with
  | EmptyString => new
  | String c s' => new +:+ String c (replace_empty new s')
  end.

(** [s.replace(old, new)]: every occurrence, leftmost first, not overlapping. *)
Definition str_replace (old new s : string) : string :=
  match old with
  | EmptyString => replace_empty new s
  | String _ _ => replace_from old new 0 s
  end.

(** [s.lstrip()]. *)
Fixpoint str_lstrip (s : string) : string :=
  match s with
  | EmptyString => EmptyString
  | String c s' => if is_space c then str_lstrip s' else s
  end.

(** [s.rstrip()]: a character stays unless it is white and nothing stays
    after it. *)
Fixpoint str_rstrip (s : string) : string :=
  match s with
  | EmptyString => EmptyString
  | String c s' =>
      match str_rstrip s' with
      | EmptyString => if is_space c then EmptyString else String c EmptyString
      | r => String c r
      end
  end.

(** [s.strip()]. *)
Definition str_strip (s : string) : string := str_rstrip (str_lstrip s).

(** [re.sub(r"\s+", repl, s)]: every maximal run of white space becomes
    [repl]; [in_run] says that the previous character was white. *)
Fixpoint re_sub_spaces (repl : string) (in_run : bool) (s : string) : string :=
  match s with
  | EmptyString => EmptyString
  | String c s' =>
      if is_space c
      then (if in_run then re_sub_spaces repl true s'
            else repl +:+ re_sub_spaces repl true s')
      else String c (re_sub_spaces repl false s')
  end.

(** [re.sub("/s+", repl, s)]: the pattern is a slash followed by one or more
    letters s, matched greedily; [in_run] says that a match is open and its
    further letters s are being passed over. *)
Fixpoint re_sub_slash_s (repl : string) (in_run : bool) (s : string) : string :=
  match s with
  | EmptyString => EmptyString
  | String c s' =>
      if in_run && Ascii.eqb c "s"
      then re_sub_slash_s repl true s'
      else if Ascii.eqb c "/" && String.prefix "s" s'
      then repl +:+ re_sub_slash_s repl true s'
      else String c (re_sub_slash_s repl false s')
  end.

(** ** Text formatter ([utils.py]) *)

(** [is_empty_string]. *)
Definition is_empty_string (text : string) : bool :=
  let text := str_replace "." "" text in
  let text := re_sub_spaces "" false text in
  match str_strip text with
  | EmptyString => true
  | String _ _ => false
  end.

(** [format_punct]. *)
Definition format_punct (text : string) : string :=
  let text := str_replace "..." "" text in
  let text := str_replace " ?" "?" text in
  let text := str_replace " !" "!" text in
  let text := str_replace " ." "." text in
  let text := str_replace " ," "," text in
  let text := str_replace " :" ":" text in
  let text := str_replace " ;" ";" text in
  let text := re_sub_slash_s " " false text in
  str_strip text.

(** The specification's [cleanPunctuation], following its words: the last
    step collapses every run of white space to one space. *)
Definition cleanPunctuation_spec (text : string) : string :=
  let text := str_replace "..." "" text in
  let text := str_replace " ?" "?" text in
  let text := str_replace " !" "!" text in
  let text := str_replace " ." "." text in
  let text := str_replace " ," "," text in
  let text := str_replace " :" ":" text in
  let text := str_replace " ;" ";" text in
  let text := re_sub_spaces " " false text in
  str_strip text.

(** ** Exceptions and results *)

(** The exceptions the modelled code raises, each with its message. *)
Inductive exn : Type :=
  | ValueError (msg : string)
  | AttributeError (msg : string)
  | FileNotFoundError (msg : string)
  | FileExistsError (msg : string)
  | NotADirectoryError (msg : string)
  | IsADirectoryError (msg : string)
  | Exception (msg : string)
  | ValidationError (errors : list (string * string))
  | OverflowError (msg : string).

(** A call returns a value or raises. *)
Inductive result (A : Type) : Type :=
  | Return (v : A)
  | Raise (e : exn).
Arguments Return {A} v.
Arguments Raise {A} e.

(** The call raised. *)
Definition raises {A} (r : result A) : Prop :=
  match r with Raise _ => True | Return _ => False end.

(** ** Numbers and their formatting *)

(** *** Floats

    A Python [float] is an IEEE 754 double.  A finite one is given by the
    rational number it stands for (the two zeros are one number here);
    the operations compute on the rationals and round the result to the
    nearest double, ties to even. *)
Inductive pyfloat : Type :=
  | Fin (x : Q)
  | Inf (negative : bool)
  | NaN.

(** [z] rounded to the nearest integer, a tie to the even one. *)
Definition round_half_even (z : Q) : Z :=
  let f := Qfloor z in
  match Qcompare (z - inject_Z f) (1 # 2) with
  | Lt => f
  | Gt => (f + 1)%Z
  | Eq => if Z.even f then f else (f + 1)%Z
  end.

(** The exponent of the unit in the last place of the doubles around [x]:
    53 bits below the leading bit of [x], and -1074 for the subnormal
    numbers. *)
Definition ulp_exp (x : Q) : Z :=
  Z.max (Z.log2 (Qfloor (Qabs x * 2 ^ 1075)) - 1127) (-1074).

(** [x] rounded to the nearest double, the exponent unbounded above. *)
Definition fl (x : Q) : Q :=
  let e := ulp_exp x in
  let m := round_half_even (Qabs x / 2 ^ e) in
  Qred ((if Qlt_le_dec x 0 then - inject_Z m else inject_Z m) * 2 ^ e).

(** The largest double. *)
Definition max_double : Q := inject_Z ((2 ^ 53 - 1) * 2 ^ 971).

(** [x < 0]. *)
Definition Qneg (x : Q) : bool :=
  match Qcompare x 0 with Lt => true | _ => false end.

(** The double of a real result: rounded, and infinite on overflow. *)
Definition float_of_Q (x : Q) : pyfloat :=
  let r := fl x in
  if Qle_bool (Qabs r) max_double then Fin r else Inf (Qneg r).

(** [a / b] and [a * b] for a finite [b] that is not zero. *)
Definition float_truediv (a : pyfloat) (b : Q) : pyfloat :=
  match a with
  | Fin x => float_of_Q (x / b)
  | Inf s => Inf (xorb s (Qneg b))
  | NaN => NaN
  end.

Definition float_mul (a : pyfloat) (b : Q) : pyfloat :=
  match a with
  | Fin x => float_of_Q (x * b)
  | Inf s => Inf (xorb s (Qneg b))
  | NaN => NaN
  end.

(** [a + b] and [a - b]. *)
Definition float_add (a b : pyfloat) : pyfloat :=
  match a, b with
  | Fin x, Fin y => float_of_Q (x + y)
  | NaN, _ | _, NaN => NaN
  | Inf s, Inf s' => if Bool.eqb s s' then Inf s else NaN
  | Inf s, Fin _ | Fin _, Inf s => Inf s
  end.

Definition float_sub (a b : pyfloat) : pyfloat :=
  match a, b with
  | Fin x, Fin y => float_of_Q (x - y)
  | NaN, _ | _, NaN => NaN
  | Inf s, Inf s' => if Bool.eqb s s' then NaN else Inf s
  | Inf s, Fin _ => Inf s
  | Fin _, Inf s => Inf (negb s)
  end.

(** Truncation toward zero. *)
Definition Qtrunc (x : Q) : Z := Z.quot (Qnum x) (Zpos (Qden x)).

(** C's [fmod(a, b)] for a finite [b] that is not zero: exact on finite
    numbers, NaN on the others. *)
Definition fmod (a : pyfloat) (b : Q) : pyfloat :=
  match a with
  | Fin x => Fin (x - inject_Z (Qtrunc (x / b)) * b)
  | _ => NaN
  end.

(** C's [floor(a)]. *)
Definition c_floor (a : pyfloat) : pyfloat :=
  match a with
  | Fin x => Fin (inject_Z (Qfloor x))
  | _ => a
  end.

(** C's tests on a double: [if (a)], [a < 0] and [a > c]. *)
Definition float_bool (a : pyfloat) : bool :=
  match a with
  | Fin x => negb (Qeq_bool x 0)
  | _ => true
  end.

Definition float_lt0 (a : pyfloat) : bool :=
  match a with
  | Fin x => Qneg x
  | Inf s => s
  | NaN => false
  end.

Definition float_gt (a : pyfloat) (c : Q) : bool :=
  match a with
  | Fin x => Qneg (c - x)
  | Inf s => negb s
  | NaN => false
  end.

(** [divmod(vx, wx)] on floats, for a finite [wx] that is not zero, as
    CPython's [float_divmod] computes it: the remainder of [fmod], given the
    sign of [wx], then the quotient, floored. *)
Definition float_divmod (vx : pyfloat) (wx : Q) : pyfloat * pyfloat :=
  let mod_ := fmod vx wx in
  let div := float_truediv (float_sub vx mod_) wx in
  let '(mod_, div) :=
    if float_bool mod_
    then (if negb (Bool.eqb (Qneg wx) (float_lt0 mod_))
          then (float_add mod_ (Fin wx), float_sub div (Fin 1))
          else (mod_, div))
    else (Fin 0, div) in
  let floordiv :=
    if float_bool div
    then (let floordiv := c_floor div in
          if float_gt (float_sub div floordiv) (1 # 2)
          then float_add floordiv (Fin 1) else floordiv)
    else Fin 0 in
  (floordiv, mod_).

(** [vx % wx], as CPython's [float_rem] computes it. *)
Definition float_mod (vx : pyfloat) (wx : Q) : pyfloat :=
  let mod_ := fmod vx wx in
  if float_bool mod_
  then (if negb (Bool.eqb (Qneg wx) (float_lt0 mod_)) then float_add mod_ (Fin wx) else mod_)
  else Fin 0.

(** [math.floor(x)]. *)
Definition math_floor (x : pyfloat) : result Z :=
  match x with
  | Fin q => Return (Qfloor q)
  | Inf _ => Raise (OverflowError "cannot convert float infinity to integer")
  | NaN => Raise (ValueError "cannot convert float NaN to integer")
  end.

(** [int(x)] on a float: truncation toward zero. *)
Definition int_of_float (x : pyfloat) : result Z :=
  match x with
  | Fin q => Return (Qtrunc q)
  | Inf _ => Raise (OverflowError "cannot convert float infinity to integer")
  | NaN => Raise (ValueError "cannot convert float NaN to integer")
  end.

(** *** Integers as text *)

(** [n] zeros. *)
Fixpoint zeros (n : nat) : string :=
  match n with
  | O => EmptyString
  | S k => String "0" (zeros k)
  end.

(** The decimal digits of a natural number, as [str] prints them. *)
Definition digits_of_N (n : N) : string := NilEmpty.string_of_uint (N.to_uint n).

(** [str(n)] on an int. *)
Definition str_of_int (n : Z) : string :=
  if (n <? 0)%Z then "-" +:+ digits_of_N (Z.abs_N n) else digits_of_N (Z.abs_N n).

(** The format specification [0w] on an int ([f"{n:02}"] is [w = 2]): the
    sign first, then zeros up to the width [w], then the digits. *)
Definition format_int_zero_pad (w : nat) (n : Z) : string :=
  let digits := digits_of_N (Z.abs_N n) in
  if (n <? 0)%Z
  then "-" +:+ zeros (w - 1 - String.length digits) +:+ digits
  else zeros (w - String.length digits) +:+ digits.

(** ** Timestamp converter ([utils.py]) *)

(** What [convert_timestamp] returns: [Union[str, float]]. *)
Inductive timestamp_value : Type :=
  | TsFloat (x : pyfloat)
  | TsStr (s : string).

(** [_convert_ms_to_hms]. *)
Definition _convert_ms_to_hms (timestamp : pyfloat) : result string :=
  let '(hours, remainder) := float_divmod (float_truediv timestamp 1000) 3600 in
  let '(minutes, seconds) := float_divmod remainder 60 in
  match math_floor (float_mul (float_mod seconds 1) 1000) with
  | Raise e => Raise e
  | Return milliseconds =>
      match int_of_float hours with
      | Raise e => Raise e
      | Return int_hours =>
          match int_of_float minutes with
          | Raise e => Raise e
          | Return int_minutes =>
              match int_of_float seconds with
              | Raise e => Raise e
              | Return int_seconds =>
                  Return (format_int_zero_pad 2 int_hours +:+ ":"
                          +:+ format_int_zero_pad 2 int_minutes +:+ ":"
                          +:+ format_int_zero_pad 2 int_seconds +:+ "."
                          +:+ format_int_zero_pad 3 milliseconds)
              end
          end
      end
  end.

(** [_convert_ms_to_s]. *)
Definition _convert_ms_to_s (timestamp : pyfloat) : pyfloat := float_truediv timestamp 1000.

(** [convert_timestamp]. *)
Definition convert_timestamp (timestamp : pyfloat) (target : string) : result timestamp_value :=
  if String.eqb target "ms" then Return (TsFloat timestamp)
  else if String.eqb target "hms"
  then match _convert_ms_to_hms timestamp with
       | Return s => Return (TsStr s)
       | Raise e => Raise e
       end
  else if String.eqb target "s" then Return (TsFloat (_convert_ms_to_s timestamp))
  else Raise (ValueError
    ("Invalid conversion target: " +:+ target +:+ ". Valid targets are: ms, hms, s.")).

(** The clock string of the fields. *)
Definition clock (h m s ms : Z) : string :=
  format_int_zero_pad 2 h +:+ ":" +:+ format_int_zero_pad 2 m +:+ ":"
  +:+ format_int_zero_pad 2 s +:+ "." +:+ format_int_zero_pad 3 ms.

(** A finite double of magnitude at most [2 ^ K]. *)
Definition small (K : Z) (a : pyfloat) : Prop :=
  match a with
  | Fin q => (Qabs q <= 2 ^ K)%Q
  | _ => False
  end.

(** What [convert_timestamp] raises on a target it does not know. *)
Definition invalid_target (target : string) : exn :=
  ValueError ("Invalid conversion target: " +:+ target +:+ ". Valid targets are: ms, hms, s.").

(** What [math.floor] raises on NaN. *)
Definition nan_to_integer : exn := ValueError "cannot convert float NaN to integer".

(** [get_segment_timestamp_anchor], on rational numbers: the mean is the
    exact one. *)
Definition get_segment_timestamp_anchor (start end_ : Q) (option : string) : Q :=
  if String.eqb option "end" then end_
  else if String.eqb option "mid" then ((start + end_) / 2)%Q
  else start.

(** *** Reading a timestamp back *)

(** [s] cut at the first [sep]: what stands before it and what after. *)
Fixpoint split_at (sep : ascii) (s : string) : option (string * string) :=
  match s with
  | EmptyString => None
  | String c s' =>
      if Ascii.eqb c sep then Some (EmptyString, s')
      else match split_at sep s' with
           | Some (a, b) => Some (String c a, b)
           | None => None
           end
  end.

(** A non-empty string of decimal digits as a number. *)
Definition parse_decimal (s : string) : option Z :=
  match s with
  | EmptyString => None
  | String _ _ =>
      match NilEmpty.uint_of_string s with
      | Some d => Some (Z.of_N (N.of_uint d))
      | None => None
      end
  end.

(** The milliseconds a string [H:M:S.m] stands for. *)
Definition hms_to_ms (s : string) : option Z :=
  match split_at ":" s with
  | Some (hh, rest) =>
      match split_at ":" rest with
      | Some (mm, rest') =>
          match split_at "." rest' with
          | Some (ss, mmm) =>
              match parse_decimal hh, parse_decimal mm, parse_decimal ss, parse_decimal mmm with
              | Some h, Some m, Some s, Some ms =>
                  Some (((h * 60 + m) * 60 + s) * 1000 + ms)%Z
              | _, _, _, _ => None
              end
          | None => None
          end
      | None => None
      end
  | None => None
  end.

(** ** Request models ([models.py]) *)

(** [value in l] on strings. *)
Definition str_in (value : string) (l : list string) : bool :=
  existsb (String.eqb value) l.

(** How pydantic builds a field of a model from a keyword argument, for the
    fields of these models: an argument that is not given takes the default
    and no validator runs on it; a given value of the declared type goes
    through the field's validator, whose [ValueError] is reported under the
    field's name.  (What pydantic does with a value of another type, or with
    an explicit [None], is the library's and is not modelled.) *)

(** The errors of a field, as [ValidationError] lists them. *)
Definition field_errors {A} (name : string) (r : result A) : list (string * string) :=
  match r with
  | Return _ => []
  | Raise (ValueError msg) => [(name, msg)]
  | Raise _ => [(name, "")]
  end.

(** The value a validated field takes. *)
Definition field_value {A} (default : A) (r : result A) : A :=
  match r with Return v => v | Raise _ => default end.

(** The field built from its argument. *)
Definition validated {A} (validator : A -> result A) (default : A) (arg : option A) : result A :=
  match arg with
  | None => Return default
  | Some value => validator value
  end.

Module DataRequest.

(** [class DataRequest(BaseModel)]. *)
Record t : Type := {
  alignment : bool;
  source_lang : string;
  timestamps : string;
}.

(** [validate_timestamps_values], the validator of [timestamps]. *)
Definition validate_timestamps_values (value : string) : result string :=
  if negb (str_in value ["hms"; "ms"; "s"])
  then Raise (ValueError "timestamps must be one of 'hms', 'ms', 's'.")
  else Return value.

(** [DataRequest(alignment=..., source_lang=..., timestamps=...)]. *)
Definition make (alignment_ : option bool) (source_lang_ timestamps_ : option string) : result t :=
  let ts := validated validate_timestamps_values "s" timestamps_ in
  match field_errors "timestamps" ts with
  | [] => Return {| alignment := default false alignment_;
                    source_lang := default "en" source_lang_;
                    timestamps := field_value "s" ts |}
  | errors => Raise (ValidationError errors)
  end.

End DataRequest.

Module CortexPayload.

(** [class CortexPayload(BaseModel)]. *)
Record t : Type := {
  url_type : string;
  url : option string;
  api_key : option string;
  alignment : bool;
  source_lang : string;
  timestamps : string;
  job_name : option string;
  ping : bool;
}.

(** [validate_timestamps_values], the validator of [timestamps]. *)
Definition validate_timestamps_values (value : string) : result string :=
  if negb (str_in value ["hms"; "ms"; "s"])
  then Raise (ValueError "timestamps must be one of 'hms', 'ms', 's'.")
  else Return value.

(** [validate_url_type], the validator of [url_type]. *)
Definition validate_url_type (value : string) : result string :=
  if negb (str_in value ["audio_url"; "youtube"])
  then Raise (ValueError "Url must be one of 'audio_url', 'youtube'.")
  else Return value.

(** [CortexPayload(url_type=..., ..., ping=...)]: the fields are
    validated in the order of their declaration and every error is
    reported. *)
Definition make (url_type_ url_ api_key_ : option string) (alignment_ : option bool)
    (source_lang_ timestamps_ job_name_ : option string) (ping_ : option bool) : result t :=
  let ut := validated validate_url_type "audio_url" url_type_ in
  let ts := validated validate_timestamps_values "s" timestamps_ in
  match field_errors "url_type" ut ++ field_errors "timestamps" ts with
  | [] => Return {| url_type := field_value "audio_url" ut;
                    url := url_;
                    api_key := api_key_;
                    alignment := default false alignment_;
                    source_lang := default "en" source_lang_;
                    timestamps := field_value "s" ts;
                    job_name := job_name_;
                    ping := default false ping_ |}
  | errors => Raise (ValidationError errors)
  end.

End CortexPayload.

(** ** Paths ([pathlib.PurePosixPath]) *)

(** A parsed path: its root (empty, one slash or two) and its components. *)
Record PurePath : Type := { root : string; parts : list string }.

Global Instance PurePath_eq_dec : EqDecision PurePath.
Proof. solve_decision. Defined.

Global Instance PurePath_countable : Countable PurePath.
Proof.
  refine (inj_countable' (fun p => (root p, parts p))
                         (fun x => {| root := x.1; parts := x.2 |}) _).
  now intros [].
Defined.

(** [s.split(sep)] for a one-character separator. *)
Fixpoint str_split (sep : ascii) (s : string) : list string :=
  match s with
  | EmptyString => [EmptyString]
  | String c s' =>
      if Ascii.eqb c sep then EmptyString :: str_split sep s'
      else match str_split sep s' with
           | h :: t => String c h :: t
           | [] => [String c EmptyString]
           end
  end.

(** [sep.join(l)]. *)
Fixpoint str_join (sep : string) (l : list string) : string :=
  match l with
  | [] => EmptyString
  | [x] => x
  | x :: l' => x +:+ sep +:+ str_join sep l'
  end.

(** [s.lstrip("/")]. *)
Fixpoint lstrip_slashes (s : string) : string :=
  match s with
  | String "/" s' => lstrip_slashes s'
  | _ => s
  end.

(** [Path(s)]: the root is two slashes when [s] starts with exactly two,
    one slash when it starts with one, three or more; empty components and
    single dots are dropped. *)
Definition parse_path (s : string) : PurePath :=
  let stripped := lstrip_slashes s in
  let n := (String.length s - String.length stripped)%nat in
  {| root := if (n =? 0)%nat then "" else if (n =? 2)%nat then "//" else "/";
     parts := List.filter (fun x => negb (String.eqb x "") && negb (String.eqb x "."))
                     (str_split "/" stripped) |}.

(** [str(p)]. *)
Definition path_str (p : PurePath) : string :=
  match root p +:+ str_join "/" (parts p) with
  | EmptyString => "."
  | s => s
  end.

(** [p / q]. *)
Definition joinpath (p q : PurePath) : PurePath :=
  match root q with
  | EmptyString => {| root := root p; parts := parts p ++ parts q |}
  | _ => q
  end.

(** [p.parent]. *)
Definition path_parent (p : PurePath) : PurePath :=
  {| root := root p; parts := removelast (parts p) |}.

(** [p.name]. *)
Definition path_name (p : PurePath) : string := List.last (parts p) "".

(** [s.rfind(c)] for one character, [None] for -1. *)
Fixpoint str_rfind (c : ascii) (s : string) : option nat :=
  match s with
  | EmptyString => None
  | String a s' =>
      match str_rfind c s' with
      | Some i => Some (S i)
      | None => if Ascii.eqb a c then Some 0%nat else None
      end
  end.

(** Where the suffix of a file name starts: at its last period, unless that
    is the first or the last character. *)
Definition suffix_start (name : string) : option nat :=
  match str_rfind "." name with
  | Some i => if (0 <? i)%nat && (i <? String.length name - 1)%nat then Some i else None
  | None => None
  end.

(** [p.suffix]. *)
Definition path_suffix (p : PurePath) : string :=
  let name := path_name p in
  match suffix_start name with
  | Some i => substring i (String.length name - i) name
  | None => ""
  end.

(** [p.stem]. *)
Definition path_stem (p : PurePath) : string :=
  let name := path_name p in
  match suffix_start name with
  | Some i => substring 0 i name
  | None => name
  end.

(** [c in s]. *)
Fixpoint str_contains (c : ascii) (s : string) : bool :=
  match s with
  | EmptyString => false
  | String a s' => Ascii.eqb a c || str_contains c s'
  end.

(** [p.with_suffix(suffix)].  (The messages print the suffix and the path
    between single quotes, as [repr] does for a string without quotes.) *)
Definition with_suffix (p : PurePath) (suffix : string) : result PurePath :=
  if str_contains "/" suffix then Raise (ValueError ("Invalid suffix '" +:+ suffix +:+ "'"))
  else if (negb (String.eqb suffix "") && negb (String.prefix "." suffix))
          || String.eqb suffix "."
  then Raise (ValueError ("Invalid suffix '" +:+ suffix +:+ "'"))
  else
    let name := path_name p in
    if String.eqb name ""
    then Raise (ValueError ("PosixPath('" +:+ path_str p +:+ "') has an empty name"))
    else
      let old_suffix := path_suffix p in
      let name' :=
        if String.eqb old_suffix "" then name +:+ suffix
        else substring 0 (String.length name - String.length old_suffix) name +:+ suffix in
      Return {| root := root p; parts := removelast (parts p) ++ [name'] |}.

(** ** The world: file system, processes, log *)

(** What the effectful functions read and change. *)
Record World : Type := {
  dirs : gset PurePath;            (* the directories that exist *)
  files : gmap PurePath string;    (* the regular files and their contents *)
  spawned : list (list string);    (* the commands launched so far, oldest first *)
  logged : list string;            (* the messages logged so far, oldest first *)
}.

(** An effectful computation: from a world to a result and the world after. *)
Definition M (A : Type) : Type := World -> result A * World.

(** [return v], [raise e], sequencing, and a pure step that may raise. *)
Definition ret {A} (v : A) : M A := fun w => (Return v, w).
Definition raise {A} (e : exn) : M A := fun w => (Raise e, w).
Definition bind {A B} (c : M A) (k : A -> M B) : M B :=
  fun w => match c w with
           | (Return v, w') => k v w'
           | (Raise e, w') => (Raise e, w')
           end.
Definition lift {A} (r : result A) : M A := fun w => (r, w).

(** [x ← c; k] runs [c], then [k] on its value; [c ;; k] drops the value. *)
Global Instance M_ret : MRet M := @ret.
Global Instance M_bind : MBind M := fun A B k c => bind c k.

(** [p.is_dir()] and [p.is_file()]. *)
Definition is_dir (p : PurePath) (w : World) : bool := bool_decide (p ∈ dirs w).
Definition is_file (p : PurePath) (w : World) : bool := bool_decide (is_Some (files w !! p)).

(** [p.exists()]. *)
Definition path_exists (p : PurePath) : M bool :=
  fun w => (Return (is_dir p w || is_file p w), w).

(** [logger.info(msg)]. *)
Definition logger_info (msg : string) : M unit :=
  fun w => (Return tt, {| dirs := dirs w; files := files w; spawned := spawned w;
                          logged := logged w ++ [msg] |}).

(** The system call [mkdir(p)]: it fails when [p] exists, when its parent
    is a regular file and when its parent is missing. *)
Definition os_mkdir (p : PurePath) : M unit :=
  fun w =>
    if is_dir p w || is_file p w then (Raise (FileExistsError (path_str p)), w)
    else if is_dir (path_parent p) w
    then (Return tt, {| dirs := {[p]} ∪ dirs w; files := files w; spawned := spawned w;
                        logged := logged w |})
    else if is_file (path_parent p) w then (Raise (NotADirectoryError (path_str p)), w)
    else (Raise (FileNotFoundError (path_str p)), w).

(** [p.mkdir(parents=False, exist_ok=True)]. *)
Definition path_mkdir_exist_ok (p : PurePath) : M unit :=
  fun w =>
    match os_mkdir p w with
    | (Raise (FileNotFoundError msg), w') => (Raise (FileNotFoundError msg), w')
    | (Raise e, w') => if is_dir p w' then (Return tt, w') else (Raise e, w')
    | (Return tt, w') => (Return tt, w')
    end.

(** [p.mkdir(parents=True, exist_ok=True)] for the path of the first [n]
    components of [ps] under root [r]: on a missing parent the parent is made
    first, the same way, and then the directory itself. *)
Fixpoint mkdir_parents (r : string) (ps : list string) (n : nat) : M unit :=
  let p := {| root := r; parts := take n ps |} in
  fun w =>
    match os_mkdir p w with
    | (Raise (FileNotFoundError msg), w') =>
        match n with
        | O => (Raise (FileNotFoundError msg), w')
        | S k => (mkdir_parents r ps k ;; path_mkdir_exist_ok p) w'
        end
    | (Raise e, w') => if is_dir p w' then (Return tt, w') else (Raise e, w')
    | (Return tt, w') => (Return tt, w')
    end.

(** [p.mkdir(parents=True, exist_ok=True)]. *)
Definition path_mkdir_parents (p : PurePath) : M unit :=
  mkdir_parents (root p) (parts p) (length (parts p)).

(** [open(p, "w")]: the file is created or emptied; the handle is its path. *)
Definition open_w (p : PurePath) : M PurePath :=
  fun w =>
    if is_dir p w then (Raise (IsADirectoryError (path_str p)), w)
    else if is_dir (path_parent p) w
    then (Return p, {| dirs := dirs w; files := <[p := ""]> (files w); spawned := spawned w;
                       logged := logged w |})
    else if is_file (path_parent p) w then (Raise (NotADirectoryError (path_str p)), w)
    else (Raise (FileNotFoundError (path_str p)), w).

(** [fp.write(data)] on a handle open for writing. *)
Definition write (fp : PurePath) (data : string) : M unit :=
  fun w => (Return tt, {| dirs := dirs w;
                          files := <[fp := default "" (files w !! fp) +:+ data]> (files w);
                          spawned := spawned w; logged := logged w |}).

(** One of the directories above [p] on its path is a regular file. *)
Definition under_a_file (p : PurePath) (w : World) : bool :=
  existsb (fun n => is_file {| root := root p; parts := take n (parts p) |} w)
          (seq 0 (length (parts p))).

(** [open(p).read()]: it fails on a directory, on a path that runs through
    a regular file and on a path where nothing stands. *)
Definition read_text (p : PurePath) : M string :=
  fun w =>
    match files w !! p with
    | Some text => (Return text, w)
    | None => if is_dir p w then (Raise (IsADirectoryError (path_str p)), w)
              else if under_a_file p w then (Raise (NotADirectoryError (path_str p)), w)
              else (Raise (FileNotFoundError (path_str p)), w)
    end.

(** ** JSON ([json.dump] with its defaults) *)

(** The values of the manifest. *)
Inductive json : Type :=
  | JNull
  | JInt (n : Z)
  | JStr (s : string).

(** The lower-case hexadecimal digit of [n < 16]. *)
Definition hex_digit (n : nat) : ascii :=
  if (n <? 10)%nat then ascii_of_nat (48 + n) else ascii_of_nat (87 + n).

(** One character inside a JSON string, with [ensure_ascii]. *)
Definition json_escape_char (c : ascii) : string :=
  let n := nat_of_ascii c in
  if (n =? 34)%nat then String "092" (String "034" "")
  else if (n =? 92)%nat then String "092" (String "092" "")
  else if (n =? 10)%nat then String "092" "n"
  else if (n =? 13)%nat then String "092" "r"
  else if (n =? 9)%nat then String "092" "t"
  else if (n =? 8)%nat then String "092" "b"
  else if (n =? 12)%nat then String "092" "f"
  else if (32 <=? n)%nat && (n <=? 126)%nat then String c ""
  else String "092" ("u00" +:+ String (hex_digit (n / 16)) (String (hex_digit (n mod 16)) "")).

(** The inside of a JSON string. *)
Fixpoint json_escape (s : string) : string :=
  match s with
  | EmptyString => EmptyString
  | String c s' => json_escape_char c +:+ json_escape s'
  end.

(** A JSON string, between its double quotes. *)
Definition json_quote (s : string) : string :=
  String "034" (json_escape s) +:+ String "034" "".

(** [json.dumps] of a value. *)
Definition json_dumps_value (v : json) : string :=
  match v with
  | JNull => "null"
  | JInt n => str_of_int n
  | JStr s => json_quote s
  end.

(** [json.dumps] of a dict, its items in insertion order. *)
Definition json_dumps (d : list (string * json)) : string :=
  "{" +:+ str_join ", " (map (fun kv => json_quote kv.1 +:+ ": " +:+ json_dumps_value kv.2) d)
  +:+ "}".

(** ** Bytes *)

(** One byte inside the literal [repr(b)] of a bytes object, which stands
    between single quotes, or between double quotes when the bytes hold a
    single quote and no double quote. *)
Definition bytes_repr_char (quote : ascii) (c : ascii) : string :=
  let n := nat_of_ascii c in
  if Ascii.eqb c quote || (n =? 92)%nat then String "092" (String c "")
  else if (n =? 9)%nat then String "092" "t"
  else if (n =? 10)%nat then String "092" "n"
  else if (n =? 13)%nat then String "092" "r"
  else if (n <? 32)%nat || (127 <=? n)%nat
  then String "092" (String "x" (String (hex_digit (n / 16)) (String (hex_digit (n mod 16)) "")))
  else String c "".

(** The inside of the literal. *)
Fixpoint bytes_repr_body (quote : ascii) (b : string) : string :=
  match b with
  | EmptyString => EmptyString
  | String c b' => bytes_repr_char quote c +:+ bytes_repr_body quote b'
  end.

(** [repr(b)], as an f-string prints a bytes object. *)
Definition bytes_repr (b : string) : string :=
  let quote : ascii :=
    if str_contains "'" b && negb (str_contains "034" b) then "034"%char else "'"%char in
  String "b" (String quote (bytes_repr_body quote b)) +:+ String quote "".

(** ** The environment of the effectful functions *)

(** A configuration is a map from the dotted paths of its nodes to their
    values, and the value of a node is a scalar or, for a node that is
    itself a mapping, [CfgMap]: the children of the mapping under [diarizer]
    are the nodes [diarizer.out_dir] and the like. *)
Inductive cfg_value : Type :=
  | CfgInt (n : Z)
  | CfgStr (s : string)
  | CfgRaw (text : string)
  | CfgMap.

(** What [session.get] answers: the status, the value of the [Content-Type]
    header when there is one, and what the successive [content.read(1024)]
    return. *)
Record response : Type := {
  status : Z;
  content_type : option string;
  reads : list string;
}.

(** What the functions take from outside the repository. *)
Record Env : Type := {
  (** [Path(__file__).parent.parent]. *)
  package_root : PurePath;
  (** [OmegaConf.load] on the text of a profile: the configuration, its
      values by their dotted keys. *)
  OmegaConf_load : string -> result (gmap string cfg_value);
  (** The server: the response to a GET of a URL with headers. *)
  http_get : string -> list (string * string) -> response;
  (** [mimetypes.guess_extension]. *)
  guess_extension : string -> option string;
  (** The operating system running a command to its end: [Raise] when it
      cannot be launched, else the exit code, the standard output and the
      standard error; the file system after. *)
  exec : list string -> World -> result (Z * string * string) * World;
}.

(** ** Process runner ([utils.py]) *)

(** [run_subprocess]: the command is launched and awaited; the child changes
    nothing of the world but the file system. *)
Definition run_subprocess (env : Env) (command : list string) : M (Z * string * string) :=
  fun w =>
    let '(r, w') := exec env command w in
    (r, {| dirs := dirs w'; files := files w'; spawned := spawned w ++ [command];
           logged := logged w |}).

(** ** Audio normalizer ([utils.py]) *)

(** The [ffmpeg] command line of [convert_file_to_wav]. *)
Definition ffmpeg_cmd (filepath new_filepath : PurePath) : list string :=
  ["ffmpeg"; "-i"; path_str filepath; "-vn"; "-acodec"; "pcm_s16le"; "-ar"; "16000";
   "-ac"; "1"; "-y"; path_str new_filepath].

(** [convert_file_to_wav]. *)
Definition convert_file_to_wav (env : Env) (filepath : string) : M string :=
  let filepath := parse_path filepath in
  found ← path_exists filepath;
  if negb found
  then raise (FileNotFoundError ("File " +:+ path_str filepath +:+ " does not exist."))
  else
    new_filepath ← lift (with_suffix filepath ".wav");
    let cmd := ffmpeg_cmd filepath new_filepath in
    result ← run_subprocess env cmd;
    if negb (result.1.1 =? 0)%Z
    then raise (Exception ("Error converting file " +:+ path_str filepath
                           +:+ " to wav format: " +:+ bytes_repr result.2))
    else ret (path_str new_filepath).

(** ** Audio acquirer ([utils.py]) *)

(** The loop that copies the body: it ends at the first empty chunk.  (The
    chunks are those the server has sent: a read that fails half way and a
    write that fails are not modelled.) *)
Fixpoint write_chunks (f : PurePath) (chunks : list string) : M unit :=
  match chunks with
  | [] => ret tt
  | chunk :: rest =>
      match chunk with
      | EmptyString => ret tt
      | String _ _ => write f chunk ;; write_chunks f rest
      end
  end.

(** [download_audio_file]. *)
Definition download_audio_file (env : Env) (url filename : string)
    (url_headers : option (list (string * string))) : M string :=
  let url_headers := default [] url_headers in
  logger_info ("Downloading audio file from " +:+ url +:+ " to " +:+ filename +:+ "...") ;;
  let response := http_get env url url_headers in
  if (status response =? 200)%Z
  then
    extension ←
      match content_type response with
      | Some type => ret (guess_extension env type)
      | None => raise (AttributeError "'NoneType' object has no attribute 'lower'")
      end;
    let filename := filename +:+ default "None" extension in
    logger_info ("New file name: " +:+ filename) ;;
    f ← open_w (parse_path filename);
    write_chunks f (reads response) ;;
    ret filename
  else
    raise (Exception ("Failed to download file. Status: " +:+ str_of_int (status response))).

(** ** Diarization config builder ([utils.py]) *)

(** The [meta] record of the manifest, its items in the order of the source. *)
Definition manifest_meta : list (string * json) :=
  [("audio_filepath", JStr "/app/temp_outputs/mono_file.wav");
   ("offset", JInt 0);
   ("duration", JNull);
   ("label", JStr "infer");
   ("text", JStr "-");
   ("rttm_filepath", JNull);
   ("uem_filepath", JNull)].

(** [cfg.diarizer.<key> = value], [dotted_key] being [diarizer.<key>]: when
    the configuration has no mapping under [diarizer] the assignment raises
    an [AttributeError] (the message is the library's; the key stands for it
    here). *)
Definition cfg_set_diarizer (cfg : gmap string cfg_value) (dotted_key : string)
    (value : cfg_value) : result (gmap string cfg_value) :=
  match cfg !! "diarizer" with
  | Some CfgMap => Return (<[dotted_key := value]> cfg)
  | _ => Raise (AttributeError "diarizer")
  end.

(** [load_nemo_config]. *)
Definition load_nemo_config (env : Env) (domain_type storage_path output_path : string)
    : M (gmap string cfg_value) :=
  let cfg_path :=
    joinpath (joinpath (joinpath (package_root env) (parse_path "config")) (parse_path "nemo"))
             (parse_path ("diar_infer_" +:+ domain_type +:+ ".yaml")) in
  text ← read_text cfg_path;
  cfg ← lift (OmegaConf_load env text);
  let storage_path := joinpath (package_root env) (parse_path storage_path) in
  found ← path_exists storage_path;
  (if negb found then path_mkdir_parents storage_path else ret tt) ;;
  let meta := manifest_meta in
  let manifest_path := joinpath storage_path (parse_path "infer_manifest.json") in
  fp ← open_w manifest_path;
  write fp (json_dumps meta) ;;
  write fp (String "010" "") ;;
  let output_path := joinpath (package_root env) (parse_path output_path) in
  found ← path_exists output_path;
  (if negb found then path_mkdir_parents output_path else ret tt) ;;
  let cfg := <["num_workers" := CfgInt 0]> cfg in
  cfg ← lift (cfg_set_diarizer cfg "diarizer.manifest_filepath"
                (CfgStr (path_str manifest_path)));
  cfg ← lift (cfg_set_diarizer cfg "diarizer.out_dir" (CfgStr (path_str output_path)));
  ret cfg.

(** The manifest record of the specification, following its words: the fixed
    scalar fields and the audio path supplied for the request. *)
Definition manifest_record_spec (audio_filepath : string) : string :=
  json_dumps
    [("audio_filepath", JStr audio_filepath);
     ("offset", JInt 0);
     ("duration", JNull);
     ("label", JStr "infer");
     ("text", JStr "-");
     ("rttm_filepath", JNull);
     ("uem_filepath", JNull)].

(** The double quote. *)
Definition dq : string := String "034" "".

(** ** Definitions used in the statements *)

(** Every character of [s] satisfies [p]. *)
Fixpoint all_chars (p : ascii -> bool) (s : string) : bool :=
  match s with
  | EmptyString => true
  | String c s' => p c && all_chars p s'
  end.

(** A decimal digit. *)
Definition is_digit (c : ascii) : bool :=
  let n := nat_of_ascii c in (48 <=? n)%nat && (n <=? 57)%nat.

(** [d] with [k] zeros before it. *)
Fixpoint lead_zeros (k : nat) (d : Decimal.uint) : Decimal.uint :=
  match k with O => d | S k' => Decimal.D0 (lead_zeros k' d) end.

(** A step that only makes directories: the regular files, the processes and
    the log stay, and each new directory was neither file nor directory. *)
Definition only_mkdirs (w w' : World) : Prop :=
  files w' = files w /\ spawned w' = spawned w /\ logged w' = logged w
  /\ dirs w ⊆ dirs w'
  /\ forall q, q ∈ dirs w' -> q ∈ dirs w \/ files w !! q = None.

(** [s.endswith(suffix)]. *)
Fixpoint str_endswith (suffix s : string) : bool :=
  String.eqb s suffix ||
  match s with
  | EmptyString => false
  | String _ s' => str_endswith suffix s'
  end.

(** The line [load_nemo_config] writes, with its newline. *)
Definition manifest_content : string := json_dumps manifest_meta +:+ String "010" "".

(** The paths [load_nemo_config] works on. *)
Definition cfg_path_of (env : Env) (domain_type : string) : PurePath :=
  joinpath (joinpath (joinpath (package_root env) (parse_path "config")) (parse_path "nemo"))
           (parse_path ("diar_infer_" +:+ domain_type +:+ ".yaml")).
Definition storage_dir_of (env : Env) (storage_path : string) : PurePath :=
  joinpath (package_root env) (parse_path storage_path).
Definition manifest_path_of (env : Env) (storage_path : string) : PurePath :=
  joinpath (storage_dir_of env storage_path) (parse_path "infer_manifest.json").
Definition output_dir_of (env : Env) (output_path : string) : PurePath :=
  joinpath (package_root env) (parse_path output_path).

(** The world once the file [p] holds [content]. *)
Definition with_file (p : PurePath) (content : string) (w : World) : World :=
  {| dirs := dirs w; files := <[p := content]> (files w); spawned := spawned w;
     logged := logged w |}.

(** The world once the directory [p] is made. *)
Definition with_dir (p : PurePath) (w : World) : World :=
  {| dirs := {[p]} ∪ dirs w; files := files w; spawned := spawned w; logged := logged w |}.

(** [if not p.exists(): p.mkdir(parents=True, exist_ok=True)]. *)
Definition ensure_dir (p : PurePath) : M unit :=
  found ← path_exists p;
  if negb found then path_mkdir_parents p else ret tt.

(** ** A concrete environment and world, for the examples *)

(** A server that answers 404, a transcoder that exits with code 1, and a
    parser that knows the profile with an empty [diarizer] mapping and takes
    every other text for a configuration without one. *)
Definition env0 : Env := {|
  package_root := parse_path "/srv/app";
  OmegaConf_load := fun text =>
    Return (if String.eqb text "diarizer: {}"
            then {[ "diarizer" := CfgMap ]}
            else {[ "profile" := CfgRaw text ]});
  http_get := fun url headers =>
    {| status := 404; content_type := Some "audio/mpeg"; reads := ["ID3"] |};
  guess_extension := fun type => Some ".mp3";
  exec := fun command w => (Return (1%Z, "", "boom"), w);
|}.

(** The same with a transcoder that writes its output file, the last word
    of the command, and exits with code 0. *)
Definition env1 : Env := {|
  package_root := package_root env0;
  OmegaConf_load := OmegaConf_load env0;
  http_get := http_get env0;
  guess_extension := guess_extension env0;
  exec := fun command w =>
    (Return (0%Z, "", ""), with_file (parse_path (List.last command "")) "RIFF" w);
|}.

(** A world with the general profile and one uploaded file; the storage and
    output directories are not made yet. *)
Definition w0 : World := {|
  dirs := {[ parse_path "/"; parse_path "/srv"; parse_path "/srv/app";
             parse_path "/srv/app/config"; parse_path "/srv/app/config/nemo";
             parse_path "/tmp" ]};
  files := {[ parse_path "/srv/app/config/nemo/diar_infer_general.yaml" := "diarizer: {}";
              parse_path "/tmp/a.mp3" := "ID3" ]};
  spawned := [];
  logged := [];
|}.

(** The same world with one more profile, which has no [diarizer] mapping. *)
Definition w0_plain : World := {|
  dirs := dirs w0;
  files := <[parse_path "/srv/app/config/nemo/diar_infer_plain.yaml" := "name: plain"]>
             (files w0);
  spawned := [];
  logged := [];
|}.

(** What [load_nemo_config] returns in [w0] for the general profile. *)
Definition cfg1 : gmap string cfg_value :=
  <["diarizer.out_dir" := CfgStr "/srv/app/out"]>
  (<["diarizer.manifest_filepath" := CfgStr "/srv/app/store/infer_manifest.json"]>
   (<["num_workers" := CfgInt 0]> {[ "diarizer" := CfgMap ]})).

(** The world after that call: both directories made, the manifest written. *)
Definition w1 : World :=
  with_dir (parse_path "/srv/app/out")
    (with_file (parse_path "/srv/app/store/infer_manifest.json") manifest_content
       (with_dir (parse_path "/srv/app/store") w0)).

(** The world after the transcoder of [env1] has run on the uploaded file. *)
Definition w0_wav : World := {|
  dirs := dirs w0;
  files := <[parse_path "/tmp/a.wav" := "RIFF"]> (files w0);
  spawned := [ffmpeg_cmd (parse_path "/tmp/a.mp3") (parse_path "/tmp/a.wav")];
  logged := [];
|}.

(** ** Segment formatter ([utils.py]) *)

(** The values a segment holds under its keys: a number, a text, [None]. *)
Inductive seg_value : Type :=
  | SegFloat (x : Q)
  | SegStr (s : string)
  | SegNone.

(** A segment, and a formatted segment: a [dict] with string keys.  (The
    order in which a [dict] lists its keys is not kept.) *)
Abbreviation segment := (gmap string seg_value) (only parsing).

(** What [format_segments] raises: [KeyError] on a missing key, and
    [AttributeError] on a text that is no [str] and so has no [strip]. *)
Inductive seg_exn : Type :=
  | KeyError (key : string)
  | StripAttributeError (text : seg_value).

(** [d[key]]. *)
Definition seg_getitem (d : segment) (key : string) : seg_exn + seg_value :=
  match d !! key with
  | Some v => inr v
  | None => inl (KeyError key)
  end.

(** [text.strip()]. *)
Definition seg_strip (text : seg_value) : seg_exn + seg_value :=
  match text with
  | SegStr s => inr (SegStr (str_strip s))
  | _ => inl (StripAttributeError text)
  end.

(** The body of the loop of [format_segments]: the new [segment_dict]. *)
Definition format_segment (seg : segment) : seg_exn + segment :=
  let segment_dict : segment := ∅ in
  match seg_getitem seg "start" with
  | inl e => inl e
  | inr start =>
      let segment_dict := <["start" := start]> segment_dict in
      match seg_getitem seg "end" with
      | inl e => inl e
      | inr end_ =>
          let segment_dict := <["end" := end_]> segment_dict in
          match seg_getitem seg "text" with
          | inl e => inl e
          | inr text =>
              match seg_strip text with
              | inl e => inl e
              | inr word => inr (<["word" := word]> segment_dict)
              end
          end
      end
  end.

(** The loop of [format_segments] over the segments that are left. *)
Fixpoint format_segments_loop (formatted_segments : list segment) (segments : list segment)
    : seg_exn + list segment :=
  match segments with
  | [] => inr formatted_segments
  | seg :: rest =>
      match format_segment seg with
      | inl e => inl e
      | inr segment_dict => format_segments_loop (formatted_segments ++ [segment_dict]) rest
      end
  end.

(** [format_segments]. *)
Definition format_segments (segments : list segment) : seg_exn + list segment :=
  format_segments_loop [] segments.

(** A segment, with a key more than it needs, and what it is formatted to. *)
Definition seg_hello : segment :=
  <["text" := SegStr " Hello "]> (<["end" := SegFloat 1]> (<["start" := SegFloat 0]>
    (<["id" := SegFloat 7]> ∅))).
Definition seg_hello_formatted : segment :=
  <["word" := SegStr "Hello"]> (<["end" := SegFloat 1]> (<["start" := SegFloat 0]> ∅)).

(** ** File remover ([utils.py]) *)

(** [p.unlink()]: a regular file is removed; on a directory the system call
    fails (with [EISDIR] on Linux). *)
Definition path_unlink (p : PurePath) : M unit :=
  fun w =>
    match files w !! p with
    | Some _ => (Return tt, {| dirs := dirs w; files := delete p (files w);
                               spawned := spawned w; logged := logged w |})
    | None => if is_dir p w then (Raise (IsADirectoryError (path_str p)), w)
              else (Raise (FileNotFoundError (path_str p)), w)
    end.

(** [delete_file]. *)
Definition delete_file (filepath : string) : M unit :=
  let filepath := parse_path filepath in
  found ← path_exists filepath;
  if (found : bool) then path_unlink filepath else ret tt.

(** ** Gap filler ([utils.py]) *)

(** A [pd.Series] of numbers: [None] stands for a missing value (NaN). *)
Abbreviation series := (list (option Q)) (only parsing).

(** [x.notnull().sum()]. *)
Definition notnull_sum (x : series) : nat :=
  length (List.filter (fun v => match v with Some _ => true | None => false end) x).

(** [x.ffill()]: a missing value takes the last value before it; [last] is
    that value, when there is one. *)
Fixpoint ffill_from (last : option Q) (x : series) : series :=
  match x with
  | [] => []
  | Some v :: x' => Some v :: ffill_from (Some v) x'
  | None :: x' => last :: ffill_from last x'
  end.
Definition ffill (x : series) : series := ffill_from None x.

(** [x.bfill()]: a missing value takes the next value after it. *)
Fixpoint bfill (x : series) : series :=
  match x with
  | [] => []
  | Some v :: x' => Some v :: bfill x'
  | None :: x' => hd None (bfill x') :: bfill x'
  end.

(** [interpolate_nans]; [interpolate] is [pd.Series.interpolate] with its
    [method], which is the library's. *)
Definition interpolate_nans (interpolate : string -> series -> series)
    (x : series) (method : option string) : series :=
  let method := default "nearest" method in
  if (1 <? notnull_sum x)%nat
  then bfill (ffill (interpolate method x))
  else bfill (ffill x).

(** ** More definitions used in the statements *)

(** What the copying loop of [download_audio_file] writes: the chunks read
    before the first empty one, end to end. *)
Fixpoint body_before_eof (chunks : list string) : string :=
  match chunks with
  | [] => EmptyString
  | EmptyString :: _ => EmptyString
  | chunk :: rest => chunk +:+ body_before_eof rest
  end.

(** A step that leaves the processes and the log, removes no directory and
    changes no file but the one at [p]. *)
Definition changes_only (p : PurePath) (w w' : World) : Prop :=
  spawned w' = spawned w /\ logged w' = logged w /\ dirs w ⊆ dirs w'
  /\ forall q, q <> p -> files w' !! q = files w !! q.

(** ** More examples *)

(** A server that answers 200 with a body read in two chunks. *)
Definition env2 : Env := {|
  package_root := package_root env0;
  OmegaConf_load := OmegaConf_load env0;
  http_get := fun url headers =>
    {| status := 200; content_type := Some "audio/mpeg"; reads := ["ID3"; "data"; ""] |};
  guess_extension := fun type => if String.eqb type "audio/mpeg" then Some ".mp3" else None;
  exec := exec env0;
|}.

(** The world after the download of [https://example.org/a] to [/tmp/b]
    from that server. *)
Definition w0_mp3 : World := {|
  dirs := dirs w0;
  files := <[parse_path "/tmp/b.mp3" := "ID3data"]> (files w0);
  spawned := [];
  logged := ["Downloading audio file from https://example.org/a to /tmp/b...";
             "New file name: /tmp/b.mp3"];
|}.

(** ** Router registration ([router/v1/endpoints.py]) *)

Module Endpoints.

(** The objects the module handles: the routers it imports, strings,
    booleans and tuples. *)
#[warnings="-register-all"]
Inductive obj : Type :=
  | Router (name : string)
  | Str (s : string)
  | Bool (b : bool)
  | Tuple (items : list obj).

(** The exceptions of the module's statements. *)
Inductive error : Type :=
  | TypeError
  | ValueError
  | AttributeError.

(** One call of [include_api]: the router, the prefix and the list of
    tags. *)
Record inclusion : Type := {
  inc_router : obj;
  inc_prefix : obj;
  inc_tags : list obj;
}.

(** The call [t(args)] of a tuple [t]: a tuple is not callable. *)
Definition call_tuple (items args : list obj) : error + obj := inl TypeError.

(** The tuple display that is bound to [routers]: its elements are evaluated
    from left to right.  No comma stands between the third triple and the
    fourth, so the third element is the call of the third triple on the
    members of the fourth. *)
Definition routers_display
    (audio_file_endpoint audio_url_endpoint live_endpoint youtube_endpoint : obj)
    : error + obj :=
  let first := Tuple [audio_file_endpoint; Str "/audio"; Str "async"] in
  let second := Tuple [audio_url_endpoint; Str "/audio-url"; Str "async"] in
  match call_tuple [youtube_endpoint; Str "/youtube"; Str "async"]
                   [live_endpoint; Str "/live"; Str "live"] with
  | inl e => inl e
  | inr third => inr (Tuple [first; second; third])
  end.

(** [iter(o)]: the members of a tuple, the characters of a string. *)
Definition iterate (o : obj) : error + list obj :=
  match o with
  | Tuple items => inr items
  | Str s => inr (map (fun c => Str (String c "")) (list_ascii_of_string s))
  | _ => inl TypeError
  end.

(** [router, prefix, tags = router_items]. *)
Definition unpack3 (router_items : obj) : error + obj * obj * obj :=
  match iterate router_items with
  | inl e => inl e
  | inr [router; prefix; tags] => inr (router, prefix, tags)
  | inr _ => inl ValueError
  end.

(** [getattr(settings, name)]: the name has to be a string. *)
Definition getattr (settings : gmap string obj) (name : obj) : error + obj :=
  match name with
  | Str s =>
      match settings !! s with
      | Some v => inr v
      | None => inl AttributeError
      end
  | _ => inl TypeError
  end.

(** The [for] loop over the items that are left; [included] are the calls
    of [include_api] made so far. *)
Fixpoint include_routers (settings : gmap string obj) (items : list obj)
    (included : list inclusion) : (error + unit) * list inclusion :=
  match items with
  | [] => (inr tt, included)
  | router_items :: rest =>
      match unpack3 router_items with
      | inl e => (inl e, included)
      | inr (router, prefix, tags) =>
          match getattr settings router with
          | inl e => (inl e, included)
          | inr (Bool true) =>
              include_routers settings rest
                (included ++ [{| inc_router := router; inc_prefix := prefix;
                                 inc_tags := [tags] |}])
          | inr _ => include_routers settings rest included
          end
      end
  end.

(** The statements of the module, after its imports. *)
Definition module_body (settings : gmap string obj)
    (audio_file_endpoint audio_url_endpoint live_endpoint youtube_endpoint : obj)
    : (error + unit) * list inclusion :=
  match routers_display audio_file_endpoint audio_url_endpoint live_endpoint
                        youtube_endpoint with
  | inl e => (inl e, [])
  | inr routers =>
      match iterate routers with
      | inl e => (inl e, [])
      | inr items => include_routers settings items []
      end
  end.

End Endpoints.

(* ===================================================================== *)
(** * Part II: properties *)
(* ===================================================================== *)

(** ** Strings *)

Example str_primitives_try :
  str_replace "aa" "b" "aaaaa" = "bba"
  /\ str_replace "..." "" "a....b" = "a.b"
  /\ str_replace "" "-" "abc" = "-a-b-c-"
  /\ str_strip "  a b  " = "a b"
  /\ re_sub_spaces " " false "a   b  c" = "a b c"
  /\ re_sub_slash_s " " false "a/sss/s/x/ b  c" = "a  /x/ b  c".
Proof. vm_compute. repeat split; reflexivity. Qed.

Lemma str_lstrip_empty_iff s : str_lstrip s = "" <-> all_chars is_space s = true.
Proof.
  induction s as [|c s IH]; simpl.
  - tauto.
  - destruct (is_space c); simpl.
    + exact IH.
    + split; discriminate.
Qed.

Lemma str_rstrip_empty_iff s : str_rstrip s = "" <-> all_chars is_space s = true.
Proof.
  induction s as [|c s IH]; simpl.
  - tauto.
  - destruct (str_rstrip s) as [|d r] eqn:E.
    + destruct (is_space c); simpl.
      * split; [intros _; apply IH; reflexivity | reflexivity].
      * split; discriminate.
    + split; [discriminate|].
      intros [_ H]%andb_true_iff. apply IH in H. discriminate.
Qed.

Lemma all_chars_lstrip p s : all_chars p s = true -> all_chars p (str_lstrip s) = true.
Proof.
  induction s as [|c s IH]; simpl; [reflexivity|].
  intros [Hc Hs]%andb_true_iff.
  destruct (is_space c); [auto|]. simpl. now rewrite Hc, Hs.
Qed.

Lemma str_strip_empty_iff s : str_strip s = "" <-> all_chars is_space s = true.
Proof.
  unfold str_strip. rewrite str_rstrip_empty_iff. split.
  - intros H. induction s as [|c s IH]; simpl in *; [reflexivity|].
    destruct (is_space c) eqn:Ec; simpl in *; [auto|].
    rewrite Ec in H. discriminate.
  - apply all_chars_lstrip.
Qed.

(** A string without white space is empty exactly when its strip is. *)
Lemma str_strip_no_space_empty s :
  all_chars (fun c => negb (is_space c)) s = true -> (str_strip s = "" <-> s = "").
Proof.
  intros H. rewrite str_strip_empty_iff.
  destruct s as [|c s]; simpl in *; [tauto|].
  apply andb_true_iff in H as [Hc _].
  destruct (is_space c); [discriminate|]. simpl. split; discriminate.
Qed.

Lemma re_sub_spaces_empty_no_space b s :
  all_chars (fun c => negb (is_space c)) (re_sub_spaces "" b s) = true.
Proof.
  revert b. induction s as [|c s IH]; intros b; simpl; [reflexivity|].
  destruct (is_space c) eqn:Ec.
  - destruct b; simpl; apply IH.
  - simpl. rewrite Ec. simpl. apply IH.
Qed.

(** Removing every run of white space keeps exactly the other characters. *)
Lemma re_sub_spaces_empty_nil b s :
  re_sub_spaces "" b s = "" <-> all_chars is_space s = true.
Proof.
  revert b. induction s as [|c s IH]; intros b; simpl; [tauto|].
  destruct (is_space c); simpl.
  - destruct b; simpl; apply IH.
  - split; discriminate.
Qed.

Lemma prefix_cons a s1 b s2 :
  String.prefix (String a s1) (String b s2)
  = if Ascii.eqb a b then String.prefix s1 s2 else false.
Proof.
  cbn [String.prefix].
  destruct (ascii_dec a b) as [->|Hne].
  - now rewrite Ascii.eqb_refl.
  - destruct (Ascii.eqb_spec a b); [contradiction|reflexivity].
Qed.

(** [replace(".", "")] on a string whose first character is a period or not. *)
Lemma str_replace_period_cons c s :
  str_replace "." "" (String c s)
  = if Ascii.eqb c "." then str_replace "." "" s else String c (str_replace "." "" s).
Proof.
  unfold str_replace. cbn [replace_from]. rewrite prefix_cons.
  rewrite (Ascii.eqb_sym "." c).
  destruct (Ascii.eqb c "."); [|reflexivity].
  now destruct s.
Qed.

(** ** Text formatter *)

(** Nothing is left exactly when the text holds periods and white space only. *)
Lemma is_empty_string_chars text :
  is_empty_string text = true
  <-> all_chars (fun c => Ascii.eqb c "." || is_space c) text = true.
Proof.
  unfold is_empty_string.
  pose proof (re_sub_spaces_empty_no_space false (str_replace "." "" text)) as Hns.
  apply str_strip_no_space_empty in Hns.
  destruct (str_strip _) eqn:E.
  - assert (Hnil : re_sub_spaces "" false (str_replace "." "" text) = "") by now apply Hns.
    apply re_sub_spaces_empty_nil in Hnil. clear Hns E.
    split; [intros _|reflexivity].
    induction text as [|c s' IH]; [reflexivity|].
    rewrite str_replace_period_cons in Hnil. simpl.
    destruct (Ascii.eqb c "."); simpl; [auto|].
    simpl in Hnil. apply andb_true_iff in Hnil as [-> Hs]. auto.
  - split; [discriminate|]. intros H. exfalso.
    assert (Hnil : re_sub_spaces "" false (str_replace "." "" text) = "").
    { apply re_sub_spaces_empty_nil. clear Hns E.
      induction text as [|c s' IH]; [reflexivity|].
      rewrite str_replace_period_cons. simpl in H.
      apply andb_true_iff in H as [Hc Hs].
      destruct (Ascii.eqb c "."); simpl in *; [auto|].
      rewrite Hc. simpl. auto. }
    apply Hns in Hnil. discriminate.
Qed.

(** C7. [is_empty_string] answers true exactly when nothing remains of the
    text once all periods and then all runs of white space are removed; it is
    true on three periods followed by three spaces and false on [Hi.]. *)
Theorem is_empty_string_iff_nothing_remains :
  (forall text,
     is_empty_string text = true
     <-> re_sub_spaces "" false (str_replace "." "" text) = "")
  /\ is_empty_string "...   " = true
  /\ is_empty_string "Hi." = false.
Proof.
  split; [|split; reflexivity].
  intros text. unfold is_empty_string.
  pose proof (re_sub_spaces_empty_no_space false (str_replace "." "" text)) as Hns.
  apply str_strip_no_space_empty in Hns.
  destruct (str_strip _) eqn:E.
  - split; [intros _; now apply Hns | reflexivity].
  - split; [discriminate|]. intros H. apply Hns in H. discriminate.
Qed.

(** C1. On [Hello ... world !] the code keeps the two spaces the removed
    ellipsis leaves behind: its last substitution looks for a slash followed
    by letters s, not for white space, so no run of spaces is collapsed.  The
    specification's function returns [Hello world!] there. *)
Theorem format_punct_keeps_space_runs :
  format_punct "Hello ... world !" = "Hello  world!"
  /\ format_punct "Hello ... world !" <> "Hello world!"
  /\ cleanPunctuation_spec "Hello ... world !" = "Hello world!".
Proof.
  split; [reflexivity|]. split; [|reflexivity].
  vm_compute. discriminate.
Qed.

(** ** Numbers and their formatting *)

Lemma append_cons c a b : String c a +:+ b = String c (a +:+ b).
Proof. reflexivity. Qed.

Lemma append_char c a : String c "" +:+ a = String c a.
Proof. reflexivity. Qed.

Lemma append_nil_l a : "" +:+ a = a.
Proof. reflexivity. Qed.

Lemma length_append a b : String.length (a +:+ b) = (String.length a + String.length b)%nat.
Proof. induction a as [|c a IH]; [reflexivity|]. rewrite append_cons. simpl. now rewrite IH. Qed.

Lemma zeros_length n : String.length (zeros n) = n.
Proof. induction n; simpl; congruence. Qed.

Lemma all_chars_append p a b :
  all_chars p (a +:+ b) = all_chars p a && all_chars p b.
Proof.
  induction a as [|c a IH]; [reflexivity|].
  rewrite append_cons. simpl. now rewrite IH, andb_assoc.
Qed.

Lemma all_chars_impl (p q : ascii -> bool) s :
  (forall c, p c = true -> q c = true) -> all_chars p s = true -> all_chars q s = true.
Proof.
  intros Hpq. induction s as [|c s IH]; simpl; [reflexivity|].
  intros [Hc Hs]%andb_true_iff. rewrite (Hpq _ Hc). simpl. auto.
Qed.

Lemma string_of_uint_digits d : all_chars is_digit (NilEmpty.string_of_uint d) = true.
Proof. induction d; simpl; auto. Qed.

Lemma zeros_digits n : all_chars is_digit (zeros n) = true.
Proof. induction n; simpl; auto. Qed.

Lemma digits_of_N_nonempty n : digits_of_N n <> "".
Proof.
  unfold digits_of_N. destruct n as [|p]; simpl; [discriminate|].
  pose proof (Unsigned.to_uint_nonnil p) as H.
  destruct (Pos.to_uint p); simpl; congruence.
Qed.

Lemma zeros_string_of_uint k d :
  zeros k +:+ NilEmpty.string_of_uint d = NilEmpty.string_of_uint (lead_zeros k d).
Proof. induction k as [|k IH]; [reflexivity|]. simpl. rewrite append_cons. now rewrite IH. Qed.

Lemma of_uint_lead_zeros k d : N.of_uint (lead_zeros k d) = N.of_uint d.
Proof. induction k as [|k IH]; [reflexivity|]. exact IH. Qed.

Lemma format_nonneg w n : (0 <= n)%Z ->
  format_int_zero_pad w n
  = zeros (w - String.length (digits_of_N (Z.to_N n))) +:+ digits_of_N (Z.to_N n).
Proof.
  intros H. unfold format_int_zero_pad.
  destruct (Z.ltb_spec n 0); [lia|].
  replace (Z.abs_N n) with (Z.to_N n) by lia. reflexivity.
Qed.

Lemma format_digits w n : (0 <= n)%Z -> all_chars is_digit (format_int_zero_pad w n) = true.
Proof.
  intros H. rewrite format_nonneg by assumption.
  rewrite all_chars_append, zeros_digits. apply string_of_uint_digits.
Qed.

Lemma format_min_width w n : (0 <= n)%Z -> (w <= String.length (format_int_zero_pad w n))%nat.
Proof.
  intros H. rewrite format_nonneg by assumption.
  rewrite length_append, zeros_length. lia.
Qed.

Lemma parse_format w n : (0 <= n)%Z -> parse_decimal (format_int_zero_pad w n) = Some n.
Proof.
  intros H. rewrite format_nonneg by assumption.
  unfold parse_decimal.
  destruct (zeros _ +:+ _) as [|c r] eqn:E.
  - exfalso. apply (f_equal String.length) in E.
    rewrite length_append in E. simpl in E.
    pose proof (digits_of_N_nonempty (Z.to_N n)) as Hne.
    destruct (digits_of_N (Z.to_N n)); [congruence|simpl in E; lia].
  - rewrite <- E. unfold digits_of_N. rewrite zeros_string_of_uint, NilEmpty.usu.
    rewrite of_uint_lead_zeros, DecimalN.Unsigned.of_to. f_equal. lia.
Qed.

Lemma split_at_append sep a b :
  all_chars (fun c => negb (Ascii.eqb c sep)) a = true ->
  split_at sep (a +:+ String sep b) = Some (a, b).
Proof.
  induction a as [|c a IH]; simpl.
  - intros _. try rewrite append_nil_l. simpl. now rewrite Ascii.eqb_refl.
  - intros [Hc Ha]%andb_true_iff. try rewrite append_cons. simpl.
    destruct (Ascii.eqb c sep); [discriminate|]. now rewrite IH.
Qed.

Lemma digit_not_sep sep : is_digit sep = false ->
  forall c, is_digit c = true -> negb (Ascii.eqb c sep) = true.
Proof.
  intros Hs c Hc. destruct (Ascii.eqb_spec c sep) as [->|]; [congruence|reflexivity].
Qed.

Lemma format_width_below (w : nat) (bound : nat) (n : Z) :
  forallb (fun k => Nat.eqb (String.length (format_int_zero_pad w (Z.of_nat k))) w) (seq 0 bound) = true ->
  (0 <= n < Z.of_nat bound)%Z ->
  String.length (format_int_zero_pad w n) = w.
Proof.
  intros Hall Hn. rewrite forallb_forall in Hall.
  specialize (Hall (Z.to_nat n)). rewrite Z2Nat.id in Hall by lia.
  apply Nat.eqb_eq, Hall, in_seq. lia.
Qed.

Lemma format2_width n : (0 <= n < 100)%Z -> String.length (format_int_zero_pad 2 n) = 2%nat.
Proof. apply (format_width_below 2 100). vm_compute. reflexivity. Qed.

Lemma format3_width n : (0 <= n < 1000)%Z -> String.length (format_int_zero_pad 3 n) = 3%nat.
Proof. apply (format_width_below 3 1000). vm_compute. reflexivity. Qed.

(** Cuts a formatted number off at the separator that follows it. *)
Ltac split_after_digits :=
  rewrite split_at_append
    by (eapply all_chars_impl; [apply digit_not_sep; reflexivity | now apply format_digits]).

Lemma hms_to_ms_format h m s ms :
  (0 <= h)%Z -> (0 <= m)%Z -> (0 <= s)%Z -> (0 <= ms)%Z ->
  hms_to_ms (format_int_zero_pad 2 h +:+ ":" +:+ format_int_zero_pad 2 m +:+ ":"
             +:+ format_int_zero_pad 2 s +:+ "." +:+ format_int_zero_pad 3 ms)
  = Some (((h * 60 + m) * 60 + s) * 1000 + ms)%Z.
Proof.
  intros Hh Hm Hs Hms. unfold hms_to_ms. rewrite !append_char.
  do 3 split_after_digits.
  now rewrite !parse_format by assumption.
Qed.

(** ** Doubles *)

Local Open Scope Q_scope.

Lemma pow2_pos (e : Z) : 0 < 2 ^ e.
Proof. apply Qpower_0_lt. reflexivity. Qed.

Lemma pow2_add (a b : Z) : 2 ^ (a + b) == 2 ^ a * 2 ^ b.
Proof. apply Qpower_plus. discriminate. Qed.

Lemma pow2_sub (a b : Z) : 2 ^ (a - b) == 2 ^ a / 2 ^ b.
Proof.
  unfold Z.sub. rewrite pow2_add, Qpower_opp. reflexivity.
Qed.

Lemma pow2_inject (n : Z) : (0 <= n)%Z -> 2 ^ n == inject_Z (2 ^ n).
Proof.
  intros H. destruct n as [|p|p]; [reflexivity| |lia].
  cbn [Qpower]. rewrite Qpower_decomp_positive. unfold Qeq, inject_Z. cbn [Qnum Qden].
  rewrite Pos2Z.inj_pow, Z.pow_1_l by lia. ring.
Qed.

Lemma pow2_le (a b : Z) : (a <= b)%Z -> 2 ^ a <= 2 ^ b.
Proof. intros H. apply Qpower_le_compat_l; [exact H|]. discriminate. Qed.

Lemma pow2_lt (a b : Z) : (a < b)%Z -> 2 ^ a < 2 ^ b.
Proof. intros H. apply Qpower_lt_compat_l; [exact H|]. reflexivity. Qed.

(** ** The exponent of the last place *)

Lemma ulp_exp_min x : (-1074 <= ulp_exp x)%Z.
Proof. unfold ulp_exp. apply Z.le_max_r. Qed.

Lemma ulp_exp_above x : Qabs x < 2 ^ (ulp_exp x + 53).
Proof.
  unfold ulp_exp. set (a := Qabs x). set (N := Qfloor (a * 2 ^ 1075)).
  assert (Ha : 0 <= a) by apply Qabs_nonneg.
  assert (HN : a * 2 ^ 1075 < inject_Z (N + 1)) by apply Qlt_floor.
  assert (Hlt : a < 2 ^ (Z.max (Z.log2 N) 53 + 1 - 1075)).
  { rewrite pow2_sub. apply Qlt_shift_div_l; [apply pow2_pos|].
    eapply Qlt_le_trans; [exact HN|].
    rewrite pow2_inject by lia. rewrite <- Zle_Qle.
    destruct (Z.le_gt_cases N 0) as [H0|H0].
    - pose proof (Z.pow_pos_nonneg 2 (Z.max (Z.log2 N) 53 + 1)). 
      assert (2 ^ 1 <= 2 ^ (Z.max (Z.log2 N) 53 + 1))%Z by (apply Z.pow_le_mono_r; lia). lia.
    - pose proof (Z.log2_spec N H0) as [_ Hup].
      assert (2 ^ Z.succ (Z.log2 N) <= 2 ^ (Z.max (Z.log2 N) 53 + 1))%Z
        by (apply Z.pow_le_mono_r; lia). lia. }
  eapply Qlt_le_trans; [exact Hlt|]. apply pow2_le. lia.
Qed.

Lemma ulp_exp_below x :
  ulp_exp x = (-1074)%Z \/ 2 ^ (ulp_exp x + 52) <= Qabs x.
Proof.
  unfold ulp_exp. set (a := Qabs x). set (N := Qfloor (a * 2 ^ 1075)).
  destruct (Z.le_gt_cases (Z.log2 N - 1127) (-1074)) as [H|H].
  - left. lia.
  - right. rewrite Z.max_l by lia.
    assert (H0 : (0 < N)%Z).
    { destruct (Z.le_gt_cases N 0) as [Hn|Hn]; [|exact Hn].
      rewrite (Z.log2_nonpos N Hn) in H. lia. }
    pose proof (Z.log2_spec N H0) as [Hlow _].
    replace (Z.log2 N - 1127 + 52)%Z with (Z.log2 N - 1075)%Z by lia.
    rewrite pow2_sub. apply Qle_shift_div_r; [apply pow2_pos|].
    eapply Qle_trans; [|apply (Qfloor_le (a * 2 ^ 1075))]. fold N.
    rewrite pow2_inject by (apply Z.log2_nonneg). now rewrite <- Zle_Qle.
Qed.

(** ** Rounding to an integer *)

Lemma floor_bounds' (x : Q) : inject_Z (Qfloor x) <= x /\ x < inject_Z (Qfloor x) + 1.
Proof.
  split; [apply Qfloor_le|]. pose proof (Qlt_floor x) as H.
  rewrite inject_Z_plus in H. exact H.
Qed.

Lemma round_half_even_error z :
  z - (1 # 2) <= inject_Z (round_half_even z) /\ inject_Z (round_half_even z) <= z + (1 # 2).
Proof.
  unfold round_half_even. destruct (floor_bounds' z) as [H1 H2].
  set (f := Qfloor z) in *.
  destruct (Qcompare_spec (z - inject_Z f) (1 # 2)) as [E|E|E].
  - destruct (Z.even f); [|rewrite inject_Z_plus; change (inject_Z 1) with 1]; split; lra.
  - split; lra.
  - rewrite inject_Z_plus. change (inject_Z 1) with 1. split; lra.
Qed.

Lemma round_half_even_Z (n : Z) : round_half_even (inject_Z n) = n.
Proof.
  unfold round_half_even. rewrite Qfloor_Z.
  destruct (Qcompare_spec (inject_Z n - inject_Z n) (1 # 2)) as [E|E|E]; [lra|reflexivity|lra].
Qed.

Lemma round_half_even_comp z z' : z == z' -> round_half_even z = round_half_even z'.
Proof.
  intros E. unfold round_half_even. rewrite (Qfloor_comp _ _ E).
  now rewrite E.
Qed.

Lemma round_half_even_nonneg z : 0 <= z -> (0 <= round_half_even z)%Z.
Proof.
  intros H. unfold round_half_even.
  assert (0 <= Qfloor z)%Z by (change 0%Z with (Qfloor 0); now apply Qfloor_resp_le).
  destruct (Qcompare _ _); [destruct (Z.even _)| |]; lia.
Qed.

Lemma round_half_even_le z (n : Z) : z <= inject_Z n -> (round_half_even z <= n)%Z.
Proof.
  intros H. destruct (Qlt_le_dec z (inject_Z n)) as [Hlt|Hge].
  - unfold round_half_even. destruct (floor_bounds' z) as [H1 H2].
    assert (Qfloor z < n)%Z by (rewrite Zlt_Qlt; lra).
    destruct (Qcompare _ _); [destruct (Z.even _)| |]; lia.
  - assert (E : z == inject_Z n) by lra.
    rewrite (round_half_even_comp _ _ E), round_half_even_Z. lia.
Qed.

(** ** Rounding to a double *)

Lemma fl_unfold x :
  fl x == (if Qlt_le_dec x 0 then - inject_Z (round_half_even (Qabs x / 2 ^ ulp_exp x))
           else inject_Z (round_half_even (Qabs x / 2 ^ ulp_exp x))) * 2 ^ ulp_exp x.
Proof. unfold fl. apply Qred_correct. Qed.

(** The error of rounding is at most half a unit in the last place. *)
Lemma fl_half_ulp x :
  x - (1 # 2) * 2 ^ ulp_exp x <= fl x /\ fl x <= x + (1 # 2) * 2 ^ ulp_exp x.
Proof.
  rewrite fl_unfold. set (e := ulp_exp x). set (P := 2 ^ e).
  assert (HP : 0 < P) by apply pow2_pos.
  set (z := Qabs x / P). destruct (round_half_even_error z) as [H1 H2].
  set (m := inject_Z (round_half_even z)) in *.
  assert (Hz : z * P == Qabs x) by (unfold z; field; lra).
  assert (A1 : 0 <= (m - z + (1 # 2)) * P) by (apply Qmult_le_0_compat; lra).
  assert (A2 : 0 <= (z + (1 # 2) - m) * P) by (apply Qmult_le_0_compat; lra).
  clearbody m z P.
  destruct (Qlt_le_dec x 0) as [Hneg|Hpos].
  - rewrite Qabs_neg in Hz by lra. split; lra.
  - rewrite Qabs_pos in Hz by lra. split; lra.
Qed.

Lemma half_ulp_bound x : (1 # 2) * 2 ^ ulp_exp x <= Qabs x * 2 ^ (-53) + 2 ^ (-1075).
Proof.
  assert (Ha : 0 <= Qabs x) by apply Qabs_nonneg.
  assert (H53 : 0 < 2 ^ (-53)) by apply pow2_pos.
  assert (H1075 : 0 < 2 ^ (-1075)) by apply pow2_pos.
  destruct (ulp_exp_below x) as [E|H].
  - rewrite E. assert (E2 : (1 # 2) * 2 ^ (-1074) == 2 ^ (-1075)) by reflexivity.
    rewrite E2. set (A := Qabs x * 2 ^ (-53)). assert (0 <= A) by (apply Qmult_le_0_compat; lra).
    lra.
  - assert (E : (1 # 2) * 2 ^ ulp_exp x == 2 ^ (ulp_exp x + 52) * 2 ^ (-53)).
    { replace (ulp_exp x) with (ulp_exp x + 52 + -52)%Z at 1 by lia.
      rewrite pow2_add. assert (E2 : (1 # 2) * 2 ^ (-52) == 2 ^ (-53)) by reflexivity.
      rewrite <- E2. ring. }
    rewrite E.
    assert (2 ^ (ulp_exp x + 52) * 2 ^ (-53) <= Qabs x * 2 ^ (-53))
      by (apply Qmult_le_compat_r; lra).
    lra.
Qed.

(** The error of rounding, relative to [x]. *)
Lemma fl_error x :
  x - (Qabs x * 2 ^ (-53) + 2 ^ (-1075)) <= fl x
  /\ fl x <= x + (Qabs x * 2 ^ (-53) + 2 ^ (-1075)).
Proof.
  destruct (fl_half_ulp x) as [H1 H2]. pose proof (half_ulp_bound x) as H. split; lra.
Qed.

Lemma inject_Z_nonneg (n : Z) : (0 <= n)%Z -> 0 <= inject_Z n.
Proof. intros H. unfold Qle. simpl. lia. Qed.

Lemma inject_Z_nonpos (n : Z) : (n <= 0)%Z -> inject_Z n <= 0.
Proof. intros H. unfold Qle. simpl. lia. Qed.

(** A number with 53 bits at most is a double: rounding leaves it. *)
Lemma fl_exact (x : Q) (n j : Z) :
  x == inject_Z n * 2 ^ j -> (Z.abs n < 2 ^ 53)%Z -> (-1074 <= j)%Z -> fl x == x.
Proof.
  intros Hx Hn Hj. set (a := Z.abs n).
  assert (Hj0 : 0 < 2 ^ j) by apply pow2_pos.
  assert (Habs : Qabs x == inject_Z a * 2 ^ j).
  { unfold a. destruct (Z.le_gt_cases 0 n) as [H0|H0].
    - rewrite Z.abs_eq by lia. rewrite Qabs_pos; [exact Hx|]. rewrite Hx.
      apply Qmult_le_0_compat; [|lra]. now apply inject_Z_nonneg.
    - rewrite Z.abs_neq by lia. rewrite inject_Z_opp. rewrite Qabs_neg; [rewrite Hx; ring|].
      rewrite Hx. assert (inject_Z n <= 0) by (apply inject_Z_nonpos; lia).
      assert (0 <= - inject_Z n * 2 ^ j) by (apply Qmult_le_0_compat; lra). lra. }
  assert (He : (ulp_exp x <= j)%Z).
  { destruct (ulp_exp_below x) as [E|H]; [lia|].
    destruct (Z.le_gt_cases (ulp_exp x) j) as [Hle|Hgt]; [exact Hle|exfalso].
    assert (Hlt : Qabs x < 2 ^ (j + 53)).
    { rewrite Habs, pow2_add, Qmult_comm. apply Qmult_lt_l; [exact Hj0|].
      rewrite pow2_inject by lia. rewrite <- Zlt_Qlt. exact Hn. }
    pose proof (pow2_le (j + 53) (ulp_exp x + 52) ltac:(lia)). lra. }
  set (e := ulp_exp x) in *.
  assert (Hz : Qabs x / 2 ^ e == inject_Z (a * 2 ^ (j - e))).
  { rewrite Habs, inject_Z_mult, <- pow2_inject by lia. rewrite pow2_sub. field.
    pose proof (pow2_pos e). lra. }
  rewrite fl_unfold. fold e. rewrite (round_half_even_comp _ _ Hz), round_half_even_Z.
  assert (Hback : inject_Z (a * 2 ^ (j - e)) * 2 ^ e == Qabs x).
  { rewrite <- Hz. field. pose proof (pow2_pos e). lra. }
  destruct (Qlt_le_dec x 0) as [Hneg|Hpos].
  - rewrite Qabs_neg in Hback by lra. lra.
  - rewrite Qabs_pos in Hback by lra. lra.
Qed.

Lemma fl_Z (n : Z) : (Z.abs n < 2 ^ 53)%Z -> fl (inject_Z n) == inject_Z n.
Proof.
  intros H. apply (fl_exact _ n 0); [|exact H|lia]. change (2 ^ 0) with 1. ring.
Qed.

Lemma fl_nonneg x : 0 <= x -> 0 <= fl x.
Proof.
  intros H. rewrite fl_unfold. destruct (Qlt_le_dec x 0) as [Hneg|_]; [lra|].
  apply Qmult_le_0_compat; [|apply Qlt_le_weak, pow2_pos].
  apply inject_Z_nonneg. apply round_half_even_nonneg.
  apply Qle_shift_div_l; [apply pow2_pos|]. rewrite Qmult_0_l. apply Qabs_nonneg.
Qed.

Lemma fl_comp x y : x == y -> fl x = fl y.
Proof.
  intros E. unfold fl.
  assert (Ee : ulp_exp x = ulp_exp y) by (unfold ulp_exp; now rewrite E).
  rewrite Ee. apply Qred_complete.
  assert (Em : round_half_even (Qabs x / 2 ^ ulp_exp y) = round_half_even (Qabs y / 2 ^ ulp_exp y))
    by (apply round_half_even_comp; now rewrite E).
  rewrite Em. destruct (Qlt_le_dec x 0), (Qlt_le_dec y 0); try reflexivity; lra.
Qed.

(** What rounding gives is a double: at most 53 bits, scaled by a power of
    two that is no smaller than the smallest. *)
Lemma fl_repr x :
  exists (m e : Z), fl x == inject_Z m * 2 ^ e /\ (Z.abs m <= 2 ^ 53)%Z /\ (-1074 <= e)%Z
                    /\ (0 <= x -> (0 <= m)%Z).
Proof.
  set (e := ulp_exp x). set (k := round_half_even (Qabs x / 2 ^ e)).
  assert (Hk0 : (0 <= k)%Z).
  { apply round_half_even_nonneg. apply Qle_shift_div_l; [apply pow2_pos|].
    rewrite Qmult_0_l. apply Qabs_nonneg. }
  assert (Hk : (k <= 2 ^ 53)%Z).
  { apply round_half_even_le. apply Qle_shift_div_r; [apply pow2_pos|].
    rewrite <- pow2_inject by lia. rewrite <- pow2_add.
    apply Qlt_le_weak. replace (53 + e)%Z with (e + 53)%Z by lia. apply ulp_exp_above. }
  fold e in k.
  destruct (Qlt_le_dec x 0) as [Hneg|Hpos] eqn:E.
  - exists (- k)%Z, e. rewrite fl_unfold. fold e k. rewrite E. rewrite inject_Z_opp.
    split; [reflexivity|]. split; [lia|]. split; [apply ulp_exp_min|]. intros H. lra.
  - exists k, e. rewrite fl_unfold. fold e k. rewrite E.
    split; [reflexivity|]. split; [lia|]. split; [apply ulp_exp_min|]. intros _. exact Hk0.
Qed.

(** ** Operations on doubles *)

Lemma Qred_inject_Z (n : Z) : Qred (inject_Z n) = inject_Z n.
Proof.
  unfold Qred, inject_Z.
  pose proof (Z.ggcd_gcd n 1) as Hg. pose proof (Z.ggcd_correct_divisors n 1) as Hd.
  destruct (Z.ggcd n 1) as [g [aa bb]]. cbn [fst snd] in *.
  rewrite Z.gcd_1_r in Hg. subst g. destruct Hd as [Ha Hb].
  assert (Ea : n = aa) by lia. assert (Eb : bb = 1%Z) by lia. rewrite Ea, Eb. reflexivity.
Qed.

Lemma fl_canon x (n : Z) : fl x == inject_Z n -> fl x = inject_Z n.
Proof.
  intros H. unfold fl in *. set (t := _ * _) in *.
  rewrite Qred_correct in H.
  rewrite (Qred_complete _ _ H). apply Qred_inject_Z.
Qed.

Lemma fl_inject (n : Z) : (Z.abs n < 2 ^ 53)%Z -> fl (inject_Z n) = inject_Z n.
Proof. intros H. apply fl_canon. now apply fl_Z. Qed.

Lemma Qabs_le_iff x y : Qabs x <= y <-> - y <= x /\ x <= y.
Proof. apply Qabs_Qle_condition. Qed.

Lemma pow2_m53 : 2 ^ (-53) == 1 # 9007199254740992.
Proof. reflexivity. Qed.

Lemma pow2_m1075_small : 2 ^ (-1075) <= 1 # 1000000.
Proof. vm_compute. discriminate. Qed.

Lemma max_double_big : inject_Z (2 ^ 72) <= max_double.
Proof. vm_compute. discriminate. Qed.

Lemma float_of_Q_fin y : Qabs y <= inject_Z (2 ^ 70) -> float_of_Q y = Fin (fl y).
Proof.
  intros H. unfold float_of_Q.
  assert (Hb : Qabs (fl y) <= max_double).
  { destruct (fl_error y) as [H1 H2]. rewrite pow2_m53 in H1, H2.
    pose proof pow2_m1075_small. pose proof max_double_big. pose proof (Qabs_nonneg y).
    pose proof H as Ha. pose proof (pow2_pos (-1075)) as Hd. apply Qabs_le_iff in H.
    assert (Hy : - Qabs y <= y /\ y <= Qabs y) by (apply Qabs_le_iff; lra).
    assert (E70 : inject_Z (2 ^ 72) == 4 * inject_Z (2 ^ 70)) by reflexivity.
    apply Qabs_le_iff. set (a := Qabs y) in *. clearbody a.
    set (M := max_double) in *. clearbody M.
    set (B := inject_Z (2 ^ 70)) in *. set (B2 := inject_Z (2 ^ 72)) in *.
    assert (1 <= B) by (unfold B; discriminate). clearbody B B2.
    set (d := 2 ^ (-1075)) in *. clearbody d. split; lra. }
  apply Qle_bool_iff in Hb. now rewrite Hb.
Qed.

Lemma Qneg_false x : 0 <= x -> Qneg x = false.
Proof.
  intros H. unfold Qneg. destruct (Qcompare_spec x 0) as [E|E|E]; [reflexivity|lra|reflexivity].
Qed.

Lemma Qneg_true x : x < 0 -> Qneg x = true.
Proof.
  intros H. unfold Qneg. destruct (Qcompare_spec x 0) as [E|E|E]; [lra|reflexivity|lra].
Qed.

Lemma Qtrunc_nonneg (x : Q) : 0 <= x -> Qtrunc x = Qfloor x.
Proof.
  intros H. unfold Qtrunc, Qfloor. destruct x as [n d]. simpl.
  apply Z.quot_div_nonneg; [|lia]. unfold Qle in H. simpl in H. lia.
Qed.

Lemma Qtrunc_Z (n : Z) : Qtrunc (inject_Z n) = n.
Proof. unfold Qtrunc. simpl. apply Z.quot_1_r. Qed.

Lemma floor_div_bounds (r : Q) (W : Z) :
  (0 < W)%Z -> 0 <= r ->
  let k := Qfloor (r / inject_Z W) in
  (0 <= k)%Z /\ inject_Z (W * k) <= r /\ r < inject_Z (W * k) + inject_Z W.
Proof.
  intros HW Hr k.
  assert (HWq : 0 < inject_Z W) by (rewrite <- (Zlt_Qlt 0); exact HW).
  set (q := r / inject_Z W) in *.
  assert (Hq : q * inject_Z W == r) by (unfold q; field; lra).
  destruct (floor_bounds' q) as [H1 H2]. fold k in H1, H2.
  assert (A1 : 0 <= (q - inject_Z k) * inject_Z W) by (apply Qmult_le_0_compat; lra).
  assert (A2 : 0 < (inject_Z k + 1 - q) * inject_Z W) by (apply Qmult_lt_0_compat; lra).
  assert (Hq0 : 0 <= q) by (unfold q; apply Qle_shift_div_l; lra).
  split; [change 0%Z with (Qfloor 0); now apply Qfloor_resp_le|].
  rewrite inject_Z_mult. clearbody q k. set (w := inject_Z W) in *. clearbody w.
  split; lra.
Qed.

Lemma float_of_Q_Z y (n : Z) :
  y == inject_Z n -> (Z.abs n < 2 ^ 53)%Z -> float_of_Q y = Fin (inject_Z n).
Proof.
  intros E Hn. rewrite float_of_Q_fin.
  - now rewrite (fl_comp _ _ E), fl_inject.
  - rewrite E. apply Qabs_le_iff. rewrite <- inject_Z_opp, <- !Zle_Qle. lia.
Qed.

(** [divmod] of a double that is not negative by a positive integer, when
    the multiple of the integer below it is a double. *)
Lemma float_divmod_nonneg (r : Q) (W : Z) :
  (0 < W)%Z -> 0 <= r ->
  let k := Qfloor (r / inject_Z W) in
  (k < 2 ^ 53)%Z -> (W * k <= 2 ^ 70)%Z ->
  fl (inject_Z (W * k)) == inject_Z (W * k) ->
  exists md,
    float_divmod (Fin r) (inject_Z W) = (Fin (inject_Z k), Fin md)
    /\ md == r - inject_Z (W * k) /\ 0 <= md /\ md < inject_Z W.
Proof.
  intros HW Hr k Hk Hbig Hex.
  destruct (floor_div_bounds r W HW Hr) as (Hk0 & Hlo & Hhi). fold k in Hk0, Hlo, Hhi.
  assert (HWq : 0 < inject_Z W) by (rewrite <- (Zlt_Qlt 0); exact HW).
  unfold float_divmod, fmod.
  rewrite Qtrunc_nonneg by (apply Qle_shift_div_l; lra). fold k.
  set (md0 := r - inject_Z k * inject_Z W).
  assert (Hmd : md0 == r - inject_Z (W * k)) by (unfold md0; rewrite inject_Z_mult; ring).
  assert (Hsub : float_sub (Fin r) (Fin md0) = Fin (inject_Z (W * k))).
  { cbn [float_sub]. rewrite float_of_Q_fin.
    - f_equal. rewrite (fl_comp _ (inject_Z (W * k))) by (rewrite Hmd; ring).
      now apply fl_canon.
    - assert (E : r - md0 == inject_Z (W * k)) by (rewrite Hmd; ring). rewrite E.
      apply Qabs_le_iff. rewrite <- inject_Z_opp, <- !Zle_Qle. lia. }
  rewrite Hsub.
  assert (Hdiv : float_truediv (Fin (inject_Z (W * k))) (inject_Z W) = Fin (inject_Z k)).
  { cbn [float_truediv]. apply float_of_Q_Z; [|lia]. rewrite inject_Z_mult. field. lra. }
  rewrite Hdiv.
  assert (Hfloor : (if float_bool (Fin (inject_Z k))
                    then (if float_gt (float_sub (Fin (inject_Z k)) (c_floor (Fin (inject_Z k))))
                               (1 # 2)
                          then float_add (c_floor (Fin (inject_Z k))) (Fin 1)
                          else c_floor (Fin (inject_Z k)))
                    else Fin 0) = Fin (inject_Z k)).
  { cbn [float_bool]. destruct (Qeq_bool (inject_Z k) 0) eqn:E0; cbn [negb].
    - apply Qeq_bool_iff in E0. f_equal. assert (k = 0%Z) as ->; [|reflexivity].
      apply (inj_eq_rev) in E0 || (unfold Qeq in E0; simpl in E0; lia).
    - cbn [c_floor]. rewrite Qfloor_Z. cbn [float_sub].
      rewrite (float_of_Q_Z _ 0%Z) by (try ring; reflexivity).
      reflexivity. }
  destruct (float_bool (Fin md0)) eqn:Eb.
  - rewrite (Qneg_false (inject_Z W)) by lra. cbn [float_lt0].
    rewrite (Qneg_false md0) by (rewrite Hmd; lra). cbn [Bool.eqb negb].
    cbv beta iota zeta. rewrite Hfloor. exists md0. repeat split; [exact Hmd|rewrite Hmd; lra|rewrite Hmd; lra].
  - cbv beta iota zeta. rewrite Hfloor. exists 0. cbn [float_bool] in Eb. apply negb_false_iff, Qeq_bool_iff in Eb.
    split; [reflexivity|]. split; [rewrite <- Hmd, Eb; reflexivity|]. split; lra.
Qed.

(** The part after the point of a double that is not negative stops one
    unit of the last place short of 1. *)
Lemma double_frac_bound (x : Q) (m e N : Z) (f : Q) :
  x == inject_Z m * 2 ^ e -> (0 <= m <= 2 ^ 53)%Z -> (0 <= N)%Z ->
  f == x - inject_Z N -> 0 <= f -> f < 1 ->
  f <= 1 - 2 ^ (-53).
Proof.
  intros Hx Hm HN Hf Hf0 Hf1.
  assert (H53 : 2 ^ (-53) == 1 # 9007199254740992) by reflexivity.
  destruct (Z.le_gt_cases 0 e) as [He|He].
  - (* an integer *)
    assert (E : f == inject_Z (m * 2 ^ e - N)).
    { rewrite Hf, Hx. unfold Z.sub. rewrite inject_Z_plus, inject_Z_opp, inject_Z_mult.
      rewrite <- pow2_inject by lia. ring. }
    rewrite E in Hf0, Hf1 |- *. change 1 with (inject_Z 1) in Hf1.
    change 0 with (inject_Z 0) in Hf0. rewrite <- Zle_Qle in Hf0. rewrite <- Zlt_Qlt in Hf1.
    assert (E0 : (m * 2 ^ e - N = 0)%Z) by lia. rewrite E0, H53. discriminate.
  - destruct (Z.le_gt_cases (-53) e) as [He2|He2].
    + set (K := (m - N * 2 ^ (- e))%Z).
      assert (HP : 0 < 2 ^ e) by apply pow2_pos.
      assert (Hinv : 2 ^ e * inject_Z (2 ^ (- e)) == 1).
      { rewrite <- pow2_inject by lia. rewrite <- pow2_add.
        replace (e + - e)%Z with 0%Z by lia. reflexivity. }
      assert (E : f == inject_Z K * 2 ^ e).
      { rewrite Hf, Hx. unfold K, Z.sub.
        rewrite inject_Z_plus, inject_Z_opp, inject_Z_mult.
        set (a := inject_Z (2 ^ (- e))) in *. set (P := 2 ^ e) in *.
        assert (E1 : inject_Z N == inject_Z N * (P * a)) by (rewrite Hinv; ring).
        rewrite E1 at 1. ring. }
      assert (HK : (K < 2 ^ (- e))%Z).
      { rewrite Zlt_Qlt. apply (Qmult_lt_r _ _ (2 ^ e)); [exact HP|].
        rewrite <- E. rewrite Qmult_comm, Hinv. exact Hf1. }
      assert (HK2 : inject_Z K <= inject_Z (2 ^ (- e)) - 1).
      { change 1 with (inject_Z 1). unfold Qminus.
        rewrite <- inject_Z_opp, <- inject_Z_plus, <- Zle_Qle. lia. }
      assert (Hle : 2 ^ (-53) <= 2 ^ e) by (apply pow2_le; exact He2).
      rewrite E.
      assert (A : inject_Z K * 2 ^ e <= (inject_Z (2 ^ (- e)) - 1) * 2 ^ e)
        by (apply Qmult_le_compat_r; lra).
      assert (B : (inject_Z (2 ^ (- e)) - 1) * 2 ^ e == 1 - 2 ^ e).
      { set (a := inject_Z (2 ^ (- e))) in *. set (P := 2 ^ e) in *.
        assert (a * P == 1) by (rewrite Qmult_comm; exact Hinv). lra. }
      lra.
    + assert (Hx2 : x <= 1 # 2).
      { rewrite Hx. assert (inject_Z m <= 2 ^ 53) by (rewrite pow2_inject by lia; rewrite <- Zle_Qle; lia).
        assert (2 ^ e <= 2 ^ (-54)) by (apply pow2_le; lia).
        assert (0 <= inject_Z m) by (apply inject_Z_nonneg; lia).
        assert (0 < 2 ^ e) by apply pow2_pos.
        assert (inject_Z m * 2 ^ e <= 2 ^ 53 * 2 ^ (-54)).
        { apply Qle_trans with (2 ^ 53 * 2 ^ e).
          - apply Qmult_le_compat_r; lra.
          - apply Qmult_le_l; [reflexivity|assumption]. }
        assert (E : 2 ^ 53 * 2 ^ (-54) == 1 # 2) by reflexivity. lra. }
      assert (0 <= inject_Z N) by (apply inject_Z_nonneg; lia).
      rewrite H53. lra.
Qed.

Lemma float_mod_one (s : Q) :
  0 <= s ->
  exists f, float_mod (Fin s) 1 = Fin f /\ f == s - inject_Z (Qfloor s) /\ 0 <= f /\ f < 1.
Proof.
  intros Hs. destruct (floor_bounds' s) as [H1 H2].
  unfold float_mod, fmod.
  assert (E1 : s / 1 == s) by (field).
  rewrite Qtrunc_nonneg by (rewrite E1; exact Hs). rewrite (Qfloor_comp _ _ E1).
  set (f0 := s - inject_Z (Qfloor s) * 1).
  assert (Hf0 : f0 == s - inject_Z (Qfloor s)) by (unfold f0; ring).
  destruct (float_bool (Fin f0)) eqn:Eb.
  - rewrite (Qneg_false 1) by discriminate. cbn [float_lt0].
    rewrite (Qneg_false f0) by (rewrite Hf0; lra). cbn [Bool.eqb negb].
    exists f0. repeat split; [exact Hf0|rewrite Hf0; lra|rewrite Hf0; lra].
  - exists 0. cbn [float_bool] in Eb. apply negb_false_iff, Qeq_bool_iff in Eb.
    split; [reflexivity|]. split; [rewrite <- Hf0, Eb; reflexivity|]. split; lra.
Qed.

Lemma tiny_lt : 2 ^ (-1075) < 1000 * ((1 # 9007199254740992) * (1 # 9007199254740992)).
Proof. vm_compute. reflexivity. Qed.

(** The milliseconds: the part after the point, times 1000, is rounded to a
    double below 1000. *)
Lemma milliseconds_bound (f : Q) :
  0 <= f -> f <= 1 - 2 ^ (-53) ->
  float_mul (Fin f) 1000 = Fin (fl (f * 1000))
  /\ (0 <= Qfloor (fl (f * 1000)) < 1000)%Z.
Proof.
  intros H0 H1. assert (H53 : 2 ^ (-53) == 1 # 9007199254740992) by reflexivity.
  rewrite H53 in H1.
  split.
  - cbn [float_mul]. apply float_of_Q_fin. apply Qabs_le_iff.
    assert (inject_Z (2 ^ 70) == 1180591620717411303424) by reflexivity. lra.
  - assert (Hy : 0 <= f * 1000) by lra.
    pose proof (fl_nonneg _ Hy) as Hn. destruct (fl_error (f * 1000)) as [_ Hup].
    rewrite Qabs_pos, H53 in Hup by exact Hy. pose proof tiny_lt as Ht.
    set (d := 2 ^ (-1075)) in *. clearbody d.
    assert (Hlt : fl (f * 1000) < 1000) by lra.
    destruct (floor_bounds' (fl (f * 1000))) as [F1 F2]. split.
    + change 0%Z with (Qfloor 0). now apply Qfloor_resp_le.
    + rewrite Zlt_Qlt. change (inject_Z 1000) with 1000. lra.
Qed.

(** ** The clock string *)

(** The seconds of a timestamp of at most [2 ^ 62] milliseconds: a double
    that is not negative, below [2 ^ 53], close to the quotient. *)
Lemma seconds_of_ms (t : Q) :
  0 <= t -> t <= inject_Z (2 ^ 62) ->
  float_truediv (Fin t) 1000 = Fin (fl (t / 1000))
  /\ 0 <= fl (t / 1000)
  /\ fl (t / 1000) <= inject_Z (2 ^ 53)
  /\ t - (t + 1) * 2 ^ (-53) <= fl (t / 1000) * 1000
  /\ fl (t / 1000) * 1000 <= t + (t + 1) * 2 ^ (-53).
Proof.
  intros H0 Hb. set (y := t / 1000).
  assert (Hy : y * 1000 == t) by (unfold y; field).
  assert (Hc : inject_Z (2 ^ 62) == 4611686018427387904) by reflexivity.
  assert (Hc70 : inject_Z (2 ^ 70) == 1180591620717411303424) by reflexivity.
  assert (Hc53 : inject_Z (2 ^ 53) == 9007199254740992) by reflexivity.
  assert (Hy0 : 0 <= y) by lra.
  assert (Habs : Qabs y == y) by now apply Qabs_pos.
  pose proof (fl_error y) as [He1 He2]. rewrite Habs, pow2_m53 in He1, He2.
  pose proof pow2_m1075_small as Ht. pose proof tiny_lt as Ht'.
  assert (Hp : 0 < 2 ^ (-1075)) by apply pow2_pos.
  split.
  { unfold float_truediv. fold y. apply float_of_Q_fin. rewrite Habs. lra. }
  split; [now apply fl_nonneg|].
  rewrite pow2_m53. set (e := 2 ^ (-1075)) in *. clearbody e.
  set (z := fl y) in *. clearbody z. clearbody y.
  repeat split; lra.
Qed.

(** [divmod] by 3600 and then by 60 of a count of seconds below [2 ^ 53]:
    the quotients are the floors, and exact. *)
Lemma split_seconds (x : Q) :
  0 <= x -> x <= inject_Z (2 ^ 53) ->
  exists (h m : Z) (r sec : Q),
    float_divmod (Fin x) 3600 = (Fin (inject_Z h), Fin r)
    /\ float_divmod (Fin r) 60 = (Fin (inject_Z m), Fin sec)
    /\ (0 <= h)%Z /\ (0 <= m < 60)%Z /\ 0 <= sec /\ sec < 60
    /\ sec == x - inject_Z (3600 * h + 60 * m).
Proof.
  intros H0 Hb.
  pose proof (floor_div_bounds x 3600 eq_refl H0) as (Hk0 & Hk1 & Hk2).
  cbv zeta in Hk0, Hk1, Hk2.
  set (k := Qfloor (x / inject_Z 3600)) in *.
  assert (Hk : (3600 * k <= 2 ^ 53)%Z) by (rewrite Zle_Qle; lra).
  destruct (float_divmod_nonneg x 3600 eq_refl H0) as (r & E1 & Hr & Hr0 & Hr1).
  { fold k. lia. }
  { fold k. lia. }
  { fold k. apply (fl_exact _ (225 * k) 4); [|lia|lia].
    replace (3600 * k)%Z with (225 * k * 16)%Z by lia.
    rewrite (inject_Z_mult (225 * k) 16). reflexivity. }
  fold k in E1, Hr.
  pose proof (floor_div_bounds r 60 eq_refl Hr0) as (Hj0 & Hj1 & Hj2).
  cbv zeta in Hj0, Hj1, Hj2.
  set (j := Qfloor (r / inject_Z 60)) in *.
  assert (Hj : (60 * j < 3600)%Z).
  { rewrite Zlt_Qlt. lra. }
  destruct (float_divmod_nonneg r 60 eq_refl Hr0) as (sec & E2 & Hs & Hs0 & Hs1).
  { fold j. lia. }
  { fold j. lia. }
  { fold j. apply fl_Z. lia. }
  fold j in E2, Hs.
  exists k, j, r, sec.
  split; [exact E1|]. split; [exact E2|].
  split; [exact Hk0|]. split; [lia|]. split; [exact Hs0|].
  split; [exact Hs1|].
  rewrite Hs, Hr, inject_Z_plus. ring.
Qed.

Lemma Qfloor_unique (x : Q) (z : Z) :
  inject_Z z <= x -> x < inject_Z z + 1 -> Qfloor x = z.
Proof.
  intros Hle Hlt. destruct (floor_bounds' x) as [H1 H2].
  assert (z < Qfloor x + 1)%Z by (rewrite Zlt_Qlt, inject_Z_plus; change (inject_Z 1) with 1; lra).
  assert (Qfloor x < z + 1)%Z by (rewrite Zlt_Qlt, inject_Z_plus; change (inject_Z 1) with 1; lra).
  lia.
Qed.

(** The fields of the string of a timestamp from 0 to [2 ^ 62]
    milliseconds: hours, minutes and seconds split the whole seconds of the
    double [x] nearest to [t / 1000], and the milliseconds are floored from
    the double nearest to a thousand times the fraction of [x]. *)
Lemma convert_fields (t : Q) :
  0 <= t -> t <= inject_Z (2 ^ 62) ->
  exists h m s ms : Z,
    _convert_ms_to_hms (Fin t) = Return (clock h m s ms)
    /\ (0 <= h)%Z /\ (0 <= m < 60)%Z /\ (0 <= s < 60)%Z /\ (0 <= ms < 1000)%Z
    /\ ((h * 60 + m) * 60 + s)%Z = Qfloor (fl (t / 1000))
    /\ ms = Qfloor (fl ((fl (t / 1000) - inject_Z (Qfloor (fl (t / 1000)))) * 1000)).
Proof.
  intros H0 Hb.
  destruct (seconds_of_ms t H0 Hb) as (E0 & Hx0 & Hx53 & _).
  destruct (fl_repr (t / 1000)) as (mx & ex & Hrep & Hmx & _ & Hmx0).
  set (x := fl (t / 1000)) in *.
  destruct (split_seconds x Hx0 Hx53) as (h & m & r & sec & E1 & E2 & Hh & Hm & Hs0 & Hs1 & Hsec).
  destruct (float_mod_one sec Hs0) as (f & E3 & Hf & Hf0 & Hf1).
  set (s := Qfloor sec) in *.
  destruct (floor_bounds' sec) as [Hfs1 Hfs2]. fold s in Hfs1, Hfs2.
  assert (Hs : (0 <= s < 60)%Z).
  { split; [exact (Qfloor_resp_le 0 sec Hs0)|rewrite Zlt_Qlt; change (inject_Z 60) with 60; lra]. }
  set (N := (3600 * h + 60 * m + s)%Z).
  assert (HfN : f == x - inject_Z N).
  { unfold N. rewrite Hf, Hsec, (inject_Z_plus _ s). ring. }
  assert (HN : Qfloor x = N).
  { clear -HfN Hf0 Hf1. clearbody x N. apply Qfloor_unique; lra. }
  assert (Hfb : f <= 1 - 2 ^ (-53)).
  { apply (double_frac_bound x mx ex N f); try assumption; [|unfold N; lia].
    assert (0 <= mx)%Z by (apply Hmx0, Qle_shift_div_l; lra). lia. }
  destruct (milliseconds_bound f Hf0 Hfb) as (E4 & Hms).
  exists h, m, s, (Qfloor (fl (f * 1000))).
  split.
  { unfold _convert_ms_to_hms. rewrite E0. fold x. rewrite E1, E2, E3, E4.
    cbn [math_floor int_of_float].
    rewrite !Qtrunc_Z, (Qtrunc_nonneg sec Hs0). reflexivity. }
  split; [exact Hh|]. split; [exact Hm|]. split; [exact Hs|]. split; [exact Hms|].
  split; [rewrite HN; unfold N; lia|].
  rewrite HN. f_equal. apply fl_comp. rewrite HfN. reflexivity.
Qed.

(** The whole milliseconds read back from the fields are within one
    millisecond of [t], up to the rounding of the division and of the
    multiplication. *)
Lemma read_back_error (t : Q) (ms : Z) :
  0 <= t -> t <= inject_Z (2 ^ 62) ->
  ms = Qfloor (fl ((fl (t / 1000) - inject_Z (Qfloor (fl (t / 1000)))) * 1000)) ->
  t - 1 - (t + 1002) * 2 ^ (-53) < inject_Z (Qfloor (fl (t / 1000)) * 1000 + ms)
  /\ inject_Z (Qfloor (fl (t / 1000)) * 1000 + ms) <= t + (t + 1002) * 2 ^ (-53).
Proof.
  intros H0 Hb ->.
  destruct (seconds_of_ms t H0 Hb) as (_ & Hx0 & _ & Hlo & Hhi).
  set (x := fl (t / 1000)) in *. clearbody x.
  destruct (floor_bounds' x) as [HN1 HN2].
  set (N := Qfloor x) in *. clearbody N.
  set (y := (x - inject_Z N) * 1000).
  assert (Hy0 : 0 <= y) by (unfold y; lra).
  assert (Hy1 : y < 1000) by (unfold y; lra).
  pose proof (fl_error y) as [He1 He2].
  rewrite (Qabs_pos y Hy0), pow2_m53 in He1, He2.
  destruct (floor_bounds' (fl y)) as [Hm1 Hm2].
  set (ms := Qfloor (fl y)) in *. clearbody ms.
  rewrite inject_Z_plus, inject_Z_mult. change (inject_Z 1000) with 1000.
  rewrite pow2_m53 in *.
  pose proof tiny_lt as Ht. set (e := 2 ^ (-1075)) in *. clearbody e.
  set (z := fl y) in *. clearbody z. unfold y in *. clear y.
  split; lra.
Qed.

Example hms_try :
  _convert_ms_to_hms (Fin 3723004.5) = Return "01:02:03.004"
  /\ _convert_ms_to_hms (Fin 360000000) = Return "100:00:00.000"
  /\ _convert_ms_to_hms (Fin 0) = Return "00:00:00.000"
  /\ _convert_ms_to_hms (Fin 1001) = Return "00:00:01.000"
  /\ _convert_ms_to_hms (Fin (-1)) = Return "-1:59:59.998"
  /\ _convert_ms_to_hms NaN = Raise (ValueError "cannot convert float NaN to integer")
  /\ _convert_ms_to_hms (Inf false) = Raise (ValueError "cannot convert float NaN to integer")
  /\ hms_to_ms "01:02:03.004" = Some 3723004%Z
  /\ format_int_zero_pad 3 (-5) = "-05".
Proof. vm_compute. repeat split; reflexivity. Qed.

(** A string that does not read back within one millisecond: the
    timestamp [2 ^ 60] is a double, and the string [_convert_ms_to_hms]
    makes of it reads back 24 milliseconds above it. *)
Lemma convert_ms_to_hms_not_within_1ms :
  (0 <= 1152921504606846976)
  /\ fl 1152921504606846976 = 1152921504606846976
  /\ _convert_ms_to_hms (Fin 1152921504606846976) = Return "320255973501:54:07.000"
  /\ hms_to_ms "320255973501:54:07.000" = Some 1152921504606847000%Z
  /\ ~ (Qabs (inject_Z 1152921504606847000 - 1152921504606846976) <= 1).
Proof.
  split; [discriminate|]. split; [vm_compute; reflexivity|].
  split; [vm_compute; reflexivity|]. split; [vm_compute; reflexivity|].
  vm_compute. intros H. now apply H.
Qed.

(** C3, amended.  For a timestamp [t] from 0 to [2 ^ 62] milliseconds,
    [_convert_ms_to_hms] returns the hours, a colon, the minutes, a colon,
    the seconds, a period and the milliseconds, hours, minutes and seconds
    zero-padded to two digits and milliseconds to three.  With [x] the double
    nearest to [t / 1000], hours, minutes and seconds are floored from [x]:
    minutes and seconds are below 60 and take exactly two characters, hours
    are never wrapped and take two characters or more (the whole string has
    twelve characters below a hundred hours).  The milliseconds are the
    floor of the double nearest to a thousand times the fraction of [x]; they
    are below 1000 and take exactly three characters.  Reading the string
    back gives whole milliseconds that are at most [t] and more than [t - 1],
    up to a rounding error of [(t + 1002) / 2 ^ 53]. *)
Theorem convert_ms_to_hms_clock (t : Q) :
  0 <= t -> t <= inject_Z (2 ^ 62) ->
  exists h m s ms : Z,
    _convert_ms_to_hms (Fin t) = Return (clock h m s ms)
    /\ h = (Qfloor (fl (t / 1000)) / 3600)%Z /\ (0 <= h)%Z
    /\ m = ((Qfloor (fl (t / 1000)) / 60) mod 60)%Z /\ (0 <= m < 60)%Z
    /\ s = (Qfloor (fl (t / 1000)) mod 60)%Z /\ (0 <= s < 60)%Z
    /\ ms = Qfloor (fl ((fl (t / 1000) - inject_Z (Qfloor (fl (t / 1000)))) * 1000))
    /\ (0 <= ms < 1000)%Z
    /\ (2 <= String.length (format_int_zero_pad 2 h))%nat
    /\ String.length (format_int_zero_pad 2 m) = 2%nat
    /\ String.length (format_int_zero_pad 2 s) = 2%nat
    /\ String.length (format_int_zero_pad 3 ms) = 3%nat
    /\ ((h < 100)%Z -> String.length (clock h m s ms) = 12%nat)
    /\ hms_to_ms (clock h m s ms) = Some (Qfloor (fl (t / 1000)) * 1000 + ms)%Z
    /\ t - 1 - (t + 1002) * 2 ^ (-53) < inject_Z (Qfloor (fl (t / 1000)) * 1000 + ms)
    /\ inject_Z (Qfloor (fl (t / 1000)) * 1000 + ms) <= t + (t + 1002) * 2 ^ (-53).
Proof.
  intros H0 Hb.
  destruct (convert_fields t H0 Hb) as (h & m & s & ms & Heq & Hh & Hm & Hs & Hms & HN & Hmsv).
  destruct (read_back_error t ms H0 Hb Hmsv) as [Hlo Hhi].
  set (N := Qfloor (fl (t / 1000))) in *. clearbody N.
  exists h, m, s, ms.
  split; [exact Heq|].
  split; [clear -HN Hm Hs; Z.div_mod_to_equations; lia|]. split; [exact Hh|].
  split; [clear -HN Hm Hs; Z.div_mod_to_equations; lia|]. split; [exact Hm|].
  split; [clear -HN Hm Hs; Z.div_mod_to_equations; lia|]. split; [exact Hs|].
  split; [exact Hmsv|]. split; [exact Hms|].
  split; [now apply format_min_width|].
  split; [apply format2_width; lia|].
  split; [apply format2_width; lia|].
  split; [apply format3_width; lia|].
  split.
  { intros Hlt. unfold clock. rewrite !length_append.
    rewrite !format2_width, format3_width by lia. reflexivity. }
  split.
  { unfold clock. rewrite hms_to_ms_format by lia. f_equal. lia. }
  split; assumption.
Qed.

Lemma convert_ms_to_hms_clock_witness :
  exists h m s ms : Z,
    _convert_ms_to_hms (Fin 3723004.5) = Return (clock h m s ms)
    /\ h = (Qfloor (fl (3723004.5 / 1000)) / 3600)%Z /\ (0 <= h)%Z
    /\ m = ((Qfloor (fl (3723004.5 / 1000)) / 60) mod 60)%Z /\ (0 <= m < 60)%Z
    /\ s = (Qfloor (fl (3723004.5 / 1000)) mod 60)%Z /\ (0 <= s < 60)%Z
    /\ ms = Qfloor (fl ((fl (3723004.5 / 1000)
                         - inject_Z (Qfloor (fl (3723004.5 / 1000)))) * 1000))
    /\ (0 <= ms < 1000)%Z
    /\ (2 <= String.length (format_int_zero_pad 2 h))%nat
    /\ String.length (format_int_zero_pad 2 m) = 2%nat
    /\ String.length (format_int_zero_pad 2 s) = 2%nat
    /\ String.length (format_int_zero_pad 3 ms) = 3%nat
    /\ ((h < 100)%Z -> String.length (clock h m s ms) = 12%nat)
    /\ hms_to_ms (clock h m s ms) = Some (Qfloor (fl (3723004.5 / 1000)) * 1000 + ms)%Z
    /\ 3723004.5 - 1 - (3723004.5 + 1002) * 2 ^ (-53)
       < inject_Z (Qfloor (fl (3723004.5 / 1000)) * 1000 + ms)
    /\ inject_Z (Qfloor (fl (3723004.5 / 1000)) * 1000 + ms)
       <= 3723004.5 + (3723004.5 + 1002) * 2 ^ (-53).
Proof. apply (convert_ms_to_hms_clock 3723004.5); vm_compute; discriminate. Defined.

(** ** Finite results *)

Lemma max_double_top : 2 ^ 1023 <= max_double.
Proof. vm_compute. discriminate. Qed.

Lemma pow2_succ (K : Z) : 2 ^ (K + 1) == 2 * 2 ^ K.
Proof. rewrite pow2_add. change (2 ^ 1) with 2. ring. Qed.

Lemma pow2_ge_1 (K : Z) : (0 <= K)%Z -> 1 <= 2 ^ K.
Proof. intros H. change 1 with (2 ^ 0). now apply pow2_le. Qed.

Lemma small_mono (K K' : Z) a : (K <= K')%Z -> small K a -> small K' a.
Proof.
  intros HK. destruct a as [q| |]; simpl; [|tauto|tauto].
  intros H. pose proof (pow2_le K K' HK). lra.
Qed.

Lemma small_Fin (K : Z) q : Qabs q <= 2 ^ K -> small K (Fin q).
Proof. intros H; exact H. Qed.

Lemma small_inv (K : Z) a : small K a -> exists q, a = Fin q /\ Qabs q <= 2 ^ K.
Proof. destruct a as [q| |]; simpl; [|tauto|tauto]. intros H. now exists q. Qed.

Lemma small_of_Q (K : Z) y :
  (0 <= K <= 1022)%Z -> Qabs y <= 2 ^ K -> small (K + 1) (float_of_Q y).
Proof.
  intros HK H. unfold float_of_Q.
  assert (Hb : Qabs (fl y) <= 2 ^ (K + 1)).
  { destruct (fl_error y) as [H1 H2]. rewrite pow2_m53 in H1, H2.
    pose proof pow2_m1075_small. pose proof (Qabs_nonneg y).
    pose proof (pow2_pos (-1075)) as Hd.
    assert (Hy : - Qabs y <= y /\ y <= Qabs y) by (apply Qabs_le_iff; lra).
    pose proof (pow2_ge_1 K (proj1 HK)) as H1K. rewrite pow2_succ.
    apply Qabs_le_iff. set (a := Qabs y) in *. clearbody a.
    set (B := 2 ^ K) in *. clearbody B.
    set (d := 2 ^ (-1075)) in *. clearbody d. split; lra. }
  assert (Hm : Qabs (fl y) <= max_double).
  { pose proof max_double_top. pose proof (pow2_le (K + 1) 1023 ltac:(lia)).
    set (M := max_double) in *. clearbody M. lra. }
  apply Qle_bool_iff in Hm. rewrite Hm. exact Hb.
Qed.

Lemma small_add (K : Z) a b :
  (0 <= K <= 1021)%Z -> small K a -> small K b -> small (K + 2) (float_add a b).
Proof.
  intros HK (x & -> & Hx)%small_inv (y & -> & Hy)%small_inv. cbn [float_add].
  replace (K + 2)%Z with (K + 1 + 1)%Z by lia. apply small_of_Q; [lia|].
  rewrite pow2_succ. apply Qabs_le_iff in Hx, Hy. apply Qabs_le_iff. lra.
Qed.

Lemma small_sub (K : Z) a b :
  (0 <= K <= 1021)%Z -> small K a -> small K b -> small (K + 2) (float_sub a b).
Proof.
  intros HK (x & -> & Hx)%small_inv (y & -> & Hy)%small_inv. cbn [float_sub].
  replace (K + 2)%Z with (K + 1 + 1)%Z by lia. apply small_of_Q; [lia|].
  rewrite pow2_succ. apply Qabs_le_iff in Hx, Hy. apply Qabs_le_iff. lra.
Qed.

Lemma small_truediv (K j : Z) a (W : Q) :
  small K a -> 2 ^ j <= W -> (0 <= K - j <= 1022)%Z ->
  small (K - j + 1) (float_truediv a W).
Proof.
  intros (x & -> & Hx)%small_inv HW HK. cbn [float_truediv].
  apply small_of_Q; [lia|].
  pose proof (pow2_pos j) as Hj. pose proof (pow2_pos (K - j)) as HB.
  assert (E : 2 ^ K == 2 ^ (K - j) * 2 ^ j).
  { rewrite <- pow2_add. now replace (K - j + j)%Z with K by lia. }
  assert (HP : 2 ^ (K - j) * 2 ^ j <= 2 ^ (K - j) * W).
  { apply Qmult_le_l; assumption. }
  apply Qabs_le_iff in Hx. apply Qabs_le_iff. split.
  - apply Qle_shift_div_l; [lra|]. lra.
  - apply Qle_shift_div_r; [lra|]. lra.
Qed.

Lemma small_mul (K j : Z) a (W : Q) :
  small K a -> 0 <= W -> W <= 2 ^ j -> (0 <= K + j <= 1022)%Z ->
  small (K + j + 1) (float_mul a W).
Proof.
  intros (x & -> & Hx)%small_inv HW0 HW HK. cbn [float_mul].
  apply small_of_Q; [lia|].
  pose proof (pow2_pos K) as HB. rewrite pow2_add.
  assert (HP : 2 ^ K * W <= 2 ^ K * 2 ^ j).
  { apply Qmult_le_l; assumption. }
  rewrite Qabs_Qmult, (Qabs_pos W HW0).
  assert (Qabs x * W <= 2 ^ K * W) by (apply Qmult_le_compat_r; assumption).
  lra.
Qed.

Lemma small_c_floor (K : Z) a : (0 <= K)%Z -> small K a -> small (K + 1) (c_floor a).
Proof.
  intros HK (x & -> & Hx)%small_inv. cbn [c_floor small].
  destruct (floor_bounds' x) as [H1 H2]. pose proof (pow2_ge_1 K HK).
  rewrite pow2_succ. apply Qabs_le_iff in Hx. apply Qabs_le_iff. lra.
Qed.

Lemma Qtrunc_opp (y : Q) : Qtrunc (- y) = (- Qtrunc y)%Z.
Proof. unfold Qtrunc. destruct y as [n d]. cbn [Qopp Qnum Qden]. apply Z.quot_opp_l. lia. Qed.

Lemma Qtrunc_bounds (y : Q) : inject_Z (Qtrunc y) - 1 < y /\ y < inject_Z (Qtrunc y) + 1.
Proof.
  destruct (Qlt_le_dec y 0) as [Hn|Hp].
  - assert (E : Qtrunc y = (- Qfloor (- y))%Z).
    { rewrite <- (Qtrunc_nonneg (- y)) by lra. rewrite Qtrunc_opp. lia. }
    rewrite E, inject_Z_opp. destruct (floor_bounds' (- y)). lra.
  - rewrite (Qtrunc_nonneg y Hp). destruct (floor_bounds' y). lra.
Qed.

Lemma small_fmod (K j : Z) a (W : Q) :
  small K a -> 0 < W -> W <= 2 ^ j -> small j (fmod a W).
Proof.
  intros (x & -> & Hx)%small_inv HW0 HW. cbn [fmod small].
  set (y := x / W). assert (Ey : y * W == x) by (unfold y; field; lra).
  destruct (Qtrunc_bounds y) as [H1 H2]. set (n := inject_Z (Qtrunc y)) in *. clearbody n.
  assert (E : x - n * W == (y - n) * W) by (rewrite <- Ey; ring).
  rewrite E. clearbody y.
  assert (P1 : (y - n) * W <= 1 * W) by (apply Qmult_le_compat_r; lra).
  assert (P2 : (-1) * W <= (y - n) * W) by (apply Qmult_le_compat_r; lra).
  apply Qabs_le_iff. lra.
Qed.

Lemma small_one (K : Z) : (0 <= K)%Z -> small K (Fin 1).
Proof. intros H. apply small_Fin. pose proof (pow2_ge_1 K H). rewrite Qabs_pos; lra. Qed.

Lemma small_zero (K : Z) : small K (Fin 0).
Proof. apply small_Fin. pose proof (pow2_pos K). rewrite Qabs_pos; lra. Qed.

Lemma small_floordiv (K : Z) div :
  (0 <= K <= 1020)%Z -> small K div ->
  small (K + 3)
    (if float_bool div
     then (let floordiv := c_floor div in
           if float_gt (float_sub div floordiv) (1 # 2)
           then float_add floordiv (Fin 1) else floordiv)
     else Fin 0).
Proof.
  intros HK H. destruct (float_bool div); [|apply small_zero].
  cbv zeta. pose proof (small_c_floor K div ltac:(lia) H) as Hf.
  destruct (float_gt _ _).
  - replace (K + 3)%Z with (K + 1 + 2)%Z by lia.
    apply (small_add (K + 1)); [lia|exact Hf|apply small_one; lia].
  - apply (small_mono (K + 1)); [lia|exact Hf].
Qed.

(** [divmod] of a finite double that is not among the largest is a pair of
    finite doubles. *)
Lemma float_divmod_small (K : Z) vx (W : Q) :
  (12 <= K <= 1020)%Z -> small K vx -> 2 ^ 5 <= W -> W <= 2 ^ 12 ->
  small (K + 3) (fst (float_divmod vx W)) /\ small 14 (snd (float_divmod vx W)).
Proof.
  intros HK Hvx HW5 HW12.
  assert (HW0 : 0 < W) by (pose proof (pow2_pos 5); lra).
  unfold float_divmod.
  pose proof (small_fmod K 12 vx W Hvx HW0 HW12) as Hm.
  set (mod0 := fmod vx W) in *.
  assert (Hs : small (K + 2) (float_sub vx mod0)).
  { apply small_sub; [lia|exact Hvx|]. apply (small_mono 12); [lia|exact Hm]. }
  pose proof (small_truediv (K + 2) 5 _ W Hs HW5 ltac:(lia)) as Hd.
  set (div0 := float_truediv (float_sub vx mod0) W) in *.
  assert (Hd0 : small K div0) by (apply (small_mono (K + 2 - 5 + 1)); [lia|exact Hd]).
  assert (Hm' : small 14 (float_add mod0 (Fin W))).
  { change 14%Z with (12 + 2)%Z. apply (small_add 12); [lia|exact Hm|].
    apply small_Fin. rewrite Qabs_pos; lra. }
  assert (Hd' : small K (float_sub div0 (Fin 1))).
  { apply (small_mono (K + 2 - 5 + 1 + 2)); [lia|].
    apply small_sub; [lia|exact Hd|apply small_one; lia]. }
  destruct (float_bool mod0); [destruct (negb _)|]; cbn [fst snd]; split;
    try (apply small_floordiv; [lia|assumption]);
    try exact Hm'; try (apply (small_mono 12); [lia|exact Hm]); apply small_zero.
Qed.

Lemma float_mod_small (K : Z) vx : small K vx -> small 2 (float_mod vx 1).
Proof.
  intros H. unfold float_mod.
  assert (Hm : small 0 (fmod vx 1)) by (apply (small_fmod K 0 vx 1 H); lra).
  destruct (float_bool _); [destruct (negb _)|].
  - change 2%Z with (0 + 2)%Z. apply small_add; [lia|exact Hm|apply small_one; lia].
  - apply (small_mono 0); [lia|exact Hm].
  - apply small_zero.
Qed.

Lemma max_double_below : max_double <= 2 ^ 1024.
Proof. vm_compute. discriminate. Qed.

(** On every finite double [_convert_ms_to_hms] returns. *)
Lemma convert_ms_to_hms_finite (t : Q) :
  Qabs t <= max_double -> exists s, _convert_ms_to_hms (Fin t) = Return s.
Proof.
  intros Ht.
  assert (H0 : small 1024 (Fin t)) by (apply small_Fin; pose proof max_double_below; lra).
  assert (H1 : small 1016 (float_truediv (Fin t) 1000)).
  { apply (small_truediv 1024 9 _ 1000 H0); [|lia]. vm_compute. discriminate. }
  unfold _convert_ms_to_hms.
  destruct (float_divmod_small 1016 _ 3600 ltac:(lia) H1) as [Hh Hr];
    [vm_compute; discriminate|vm_compute; discriminate|].
  destruct (float_divmod (float_truediv (Fin t) 1000) 3600) as [hours remainder].
  cbn [fst snd] in Hh, Hr.
  destruct (float_divmod_small 14 _ 60 ltac:(lia) Hr) as [Hm Hs];
    [vm_compute; discriminate|vm_compute; discriminate|].
  destruct (float_divmod remainder 60) as [minutes seconds].
  cbn [fst snd] in Hm, Hs.
  pose proof (float_mod_small 14 seconds Hs) as Hf.
  pose proof (small_mul 2 10 _ 1000 Hf ltac:(lra) ltac:(vm_compute; discriminate) ltac:(lia)) as Hms.
  apply small_inv in Hh as (qh & -> & _), Hm as (qm & -> & _), Hs as (qs & -> & _).
  apply small_inv in Hms as (qms & -> & _).
  cbn [math_floor int_of_float]. eexists. reflexivity.
Qed.

(** ** Timestamp converter *)

Lemma convert_ms_to_hms_errors t e :
  _convert_ms_to_hms t = Raise e ->
  e = nan_to_integer \/ e = OverflowError "cannot convert float infinity to integer".
Proof.
  unfold _convert_ms_to_hms.
  destruct (float_divmod (float_truediv t 1000) 3600) as [hours remainder].
  destruct (float_divmod remainder 60) as [minutes seconds].
  destruct (float_mul (float_mod seconds 1) 1000) as [?|?|]; cbn [math_floor];
    [|intros [= <-]; now right|intros [= <-]; now left].
  destruct hours as [?|?|]; cbn [int_of_float];
    [|intros [= <-]; now right|intros [= <-]; now left].
  destruct minutes as [?|?|]; cbn [int_of_float];
    [|intros [= <-]; now right|intros [= <-]; now left].
  destruct seconds as [?|?|]; cbn [int_of_float];
    [|intros [= <-]; now right|intros [= <-]; now left].
  discriminate.
Qed.

Lemma invalid_target_other target :
  invalid_target target <> nan_to_integer
  /\ invalid_target target <> OverflowError "cannot convert float infinity to integer".
Proof. split; [|discriminate]. unfold invalid_target, nan_to_integer. intros [= H]. Qed.

Lemma convert_ms_to_hms_not_a_number :
  _convert_ms_to_hms NaN = Raise nan_to_integer
  /\ forall negative, _convert_ms_to_hms (Inf negative) = Raise nan_to_integer.
Proof. split; [|intros []]; reflexivity. Qed.

Lemma convert_timestamp_invalid_target t target :
  convert_timestamp t target = Raise (invalid_target target)
  <-> target <> "ms" /\ target <> "s" /\ target <> "hms".
Proof.
  unfold convert_timestamp.
  destruct (String.eqb_spec target "ms") as [->|Hms]; [split; [discriminate|tauto]|].
  destruct (String.eqb_spec target "hms") as [->|Hhms].
  { split; [|tauto]. destruct (_convert_ms_to_hms t) as [s|e] eqn:E; [discriminate|].
    intros [= ->]. destruct (invalid_target_other "hms").
    destruct (convert_ms_to_hms_errors _ _ E); congruence. }
  destruct (String.eqb_spec target "s") as [->|Hs]; [split; [discriminate|tauto]|].
  split; [tauto|reflexivity].
Qed.

(** A valid unit on which the conversion fails: [hms] is one of the three
    units, and on the timestamp NaN [convert_timestamp] raises the
    [ValueError] of [math.floor]. *)
Lemma convert_timestamp_hms_nan_raises :
  raises (convert_timestamp NaN "hms")
  /\ convert_timestamp NaN "hms" = Raise (ValueError "cannot convert float NaN to integer").
Proof. split; [exact I|reflexivity]. Qed.

(** C4, amended.  [convert_timestamp] raises the [ValueError] for an invalid
    conversion target exactly when the target is none of [ms], [s] and
    [hms].  On [ms] it never fails and returns the timestamp unchanged; on
    [s] it never fails and returns the timestamp divided by 1000; on [hms]
    it returns the clock string for every finite timestamp, and fails, with
    the [ValueError] of [math.floor], for NaN and the two infinities. *)
Theorem convert_timestamp_units :
  (forall t target,
     convert_timestamp t target = Raise (invalid_target target)
     <-> target <> "ms" /\ target <> "s" /\ target <> "hms")
  /\ (forall t, convert_timestamp t "ms" = Return (TsFloat t))
  /\ (forall t, convert_timestamp t "s" = Return (TsFloat (float_truediv t 1000)))
  /\ (forall t : Q, Qabs t <= max_double ->
        exists s, _convert_ms_to_hms (Fin t) = Return s
                  /\ convert_timestamp (Fin t) "hms" = Return (TsStr s))
  /\ convert_timestamp NaN "hms" = Raise nan_to_integer
  /\ (forall negative, convert_timestamp (Inf negative) "hms" = Raise nan_to_integer).
Proof.
  split; [|split; [|split; [|split; [|split]]]].
  - apply convert_timestamp_invalid_target.
  - reflexivity.
  - reflexivity.
  - intros t Ht. destruct (convert_ms_to_hms_finite t Ht) as [s Hs].
    exists s. split; [exact Hs|]. unfold convert_timestamp. cbn [String.eqb Ascii.eqb].
    change (String.eqb "hms" "ms") with false. change (String.eqb "hms" "hms") with true.
    cbv iota. now rewrite Hs.
  - reflexivity.
  - intros []; reflexivity.
Qed.

Local Close Scope Q_scope.

(** ** Segment anchor *)

(** C10. [get_segment_timestamp_anchor] returns the end for the option
    [end], the mean of start and end for [mid], and the start for every other
    option, recognised or not: it is total and raises nothing. *)
Theorem get_segment_timestamp_anchor_cases :
  forall start end_ : Q,
    get_segment_timestamp_anchor start end_ "end" = end_
    /\ get_segment_timestamp_anchor start end_ "mid" = ((start + end_) / 2)%Q
    /\ get_segment_timestamp_anchor start end_ "start" = start
    /\ forall option : string,
         option <> "end" -> option <> "mid" ->
         get_segment_timestamp_anchor start end_ option = start.
Proof.
  intros start end_. repeat split.
  intros option Hend Hmid. unfold get_segment_timestamp_anchor.
  destruct (String.eqb_spec option "end"); [contradiction|].
  destruct (String.eqb_spec option "mid"); [contradiction|reflexivity].
Qed.

(** ** Request models *)

Lemma str_in_timestamps value :
  str_in value ["hms"; "ms"; "s"] = true <-> value = "s" \/ value = "ms" \/ value = "hms".
Proof.
  unfold str_in. simpl.
  destruct (String.eqb_spec value "hms"), (String.eqb_spec value "ms"),
    (String.eqb_spec value "s"); simpl; intuition congruence.
Qed.

Lemma str_in_url_types value :
  str_in value ["audio_url"; "youtube"] = true <-> value = "audio_url" \/ value = "youtube".
Proof.
  unfold str_in. simpl.
  destruct (String.eqb_spec value "audio_url"), (String.eqb_spec value "youtube");
    simpl; intuition congruence.
Qed.

Lemma convert_timestamp_accepts t target :
  str_in target ["hms"; "ms"; "s"] = true ->
  convert_timestamp t target <> Raise (invalid_target target).
Proof.
  intros Hin%str_in_timestamps Hr%convert_timestamp_invalid_target. intuition congruence.
Qed.

Lemma DataRequest_make_timestamps a l ts r :
  DataRequest.make a l ts = Return r ->
  str_in (DataRequest.timestamps r) ["hms"; "ms"; "s"] = true
  /\ forall value, ts = Some value -> DataRequest.timestamps r = value.
Proof.
  unfold DataRequest.make. destruct ts as [value|]; simpl.
  - unfold DataRequest.validate_timestamps_values.
    destruct (str_in value _) eqn:E; simpl; [|discriminate].
    intros [= <-]. simpl. split; [exact E|]. now intros ? [= ->].
  - intros [= <-]. simpl. split; [reflexivity|discriminate].
Qed.

Lemma CortexPayload_make_fields ut u k a l ts j p r :
  CortexPayload.make ut u k a l ts j p = Return r ->
  str_in (CortexPayload.timestamps r) ["hms"; "ms"; "s"] = true
  /\ str_in (CortexPayload.url_type r) ["audio_url"; "youtube"] = true
  /\ (forall value, ts = Some value -> CortexPayload.timestamps r = value)
  /\ (forall value, ut = Some value -> CortexPayload.url_type r = value).
Proof.
  unfold CortexPayload.make.
  destruct ut as [u1|], ts as [t1|]; simpl;
    unfold CortexPayload.validate_url_type, CortexPayload.validate_timestamps_values.
  - destruct (str_in u1 _) eqn:E1, (str_in t1 _) eqn:E2; simpl; try discriminate.
    intros [= <-]. simpl. repeat split; auto; now intros ? [= ->].
  - destruct (str_in u1 _) eqn:E1; simpl; try discriminate.
    intros [= <-]. simpl. repeat split; auto; try discriminate. now intros ? [= ->].
  - destruct (str_in t1 _) eqn:E2; simpl; try discriminate.
    intros [= <-]. simpl. repeat split; auto; try discriminate. now intros ? [= ->].
  - intros [= <-]. simpl. repeat split; auto; discriminate.
Qed.

(** C9. Building a [DataRequest] with a timestamps value outside [s], [ms],
    [hms] raises at construction, and so does building a [CortexPayload] with
    such a timestamps value or with a url type outside [audio_url],
    [youtube]; a valid value is stored unchanged.  The timestamps of a
    request that was built are therefore always a target [convert_timestamp]
    knows: on no timestamp, NaN and the infinities among them, does it raise
    its error for an invalid target later. *)
Theorem request_options_validated_at_construction :
  (forall a l value,
     raises (DataRequest.make a l (Some value))
     <-> value <> "s" /\ value <> "ms" /\ value <> "hms")
  /\ (forall a l value,
        value = "s" \/ value = "ms" \/ value = "hms" ->
        DataRequest.make a l (Some value)
        = Return {| DataRequest.alignment := default false a;
                    DataRequest.source_lang := default "en" l;
                    DataRequest.timestamps := value |})
  /\ (forall ut u k a l ts j p,
        raises (CortexPayload.make ut u k a l ts j p)
        <-> (exists value, ts = Some value
               /\ value <> "s" /\ value <> "ms" /\ value <> "hms")
            \/ (exists value, ut = Some value
                  /\ value <> "audio_url" /\ value <> "youtube"))
  /\ (forall ut u k a l ts j p r,
        CortexPayload.make ut u k a l ts j p = Return r ->
        (forall value, ts = Some value -> CortexPayload.timestamps r = value)
        /\ (forall value, ut = Some value -> CortexPayload.url_type r = value)
        /\ forall t, convert_timestamp t (CortexPayload.timestamps r)
                     <> Raise (invalid_target (CortexPayload.timestamps r)))
  /\ (forall a l ts r,
        DataRequest.make a l ts = Return r ->
        forall t, convert_timestamp t (DataRequest.timestamps r)
                  <> Raise (invalid_target (DataRequest.timestamps r))).
Proof.
  split; [|split; [|split; [|split]]].
  - intros a l value. unfold DataRequest.make. simpl.
    unfold DataRequest.validate_timestamps_values.
    pose proof (str_in_timestamps value) as Hin.
    destruct (str_in value _); simpl.
    + split; [tauto|]. intros (H1 & H2 & H3).
      destruct Hin as [Hin _]. destruct (Hin eq_refl) as [?|[?|?]]; contradiction.
    + split; [intros _|tauto].
      repeat split; intros ->; destruct Hin as [_ Hin]; discriminate Hin; tauto.
  - intros a l value Hv. apply str_in_timestamps in Hv.
    unfold DataRequest.make. simpl. unfold DataRequest.validate_timestamps_values.
    now rewrite Hv.
  - intros ut u k a l ts j p. unfold CortexPayload.make.
    destruct ut as [u1|], ts as [t1|]; simpl;
      unfold CortexPayload.validate_url_type, CortexPayload.validate_timestamps_values.
    + pose proof (str_in_url_types u1) as Hu. pose proof (str_in_timestamps t1) as Ht.
      destruct (str_in u1 _), (str_in t1 _); simpl.
      * split; [tauto|]. intros [(v & [= <-] & ?)|(v & [= <-] & ?)]; intuition.
      * split; [intros _|tauto]. left. exists t1. split; [reflexivity|].
        repeat split; intros ->; destruct Ht as [_ Ht]; discriminate Ht; tauto.
      * split; [intros _|tauto]. right. exists u1. split; [reflexivity|].
        repeat split; intros ->; destruct Hu as [_ Hu]; discriminate Hu; tauto.
      * split; [intros _|tauto]. right. exists u1. split; [reflexivity|].
        repeat split; intros ->; destruct Hu as [_ Hu]; discriminate Hu; tauto.
    + pose proof (str_in_url_types u1) as Hu.
      destruct (str_in u1 _); simpl.
      * split; [tauto|]. intros [(v & [=] & ?)|(v & [= <-] & ?)]. intuition.
      * split; [intros _|tauto]. right. exists u1. split; [reflexivity|].
        repeat split; intros ->; destruct Hu as [_ Hu]; discriminate Hu; tauto.
    + pose proof (str_in_timestamps t1) as Ht.
      destruct (str_in t1 _); simpl.
      * split; [tauto|]. intros [(v & [= <-] & ?)|(v & [=] & ?)]. intuition.
      * split; [intros _|tauto]. left. exists t1. split; [reflexivity|].
        repeat split; intros ->; destruct Ht as [_ Ht]; discriminate Ht; tauto.
    + split; [tauto|]. intros [(v & [=] & ?)|(v & [=] & ?)].
  - intros ut u k a l ts j p r Hr.
    destruct (CortexPayload_make_fields _ _ _ _ _ _ _ _ _ Hr) as (H1 & H2 & H3 & H4).
    repeat split; auto. intros t. now apply convert_timestamp_accepts.
  - intros a l ts r Hr t.
    destruct (DataRequest_make_timestamps _ _ _ _ Hr) as [H1 _].
    now apply convert_timestamp_accepts.
Qed.

(** ** Paths *)

Lemma str_endswith_append suffix a : str_endswith suffix (a +:+ suffix) = true.
Proof.
  induction a as [|c a IH].
  - change ("" +:+ suffix) with suffix.
    destruct suffix; cbn [str_endswith]; now rewrite String.eqb_refl.
  - change (String c a +:+ suffix) with (String c (a +:+ suffix)).
    cbn [str_endswith]. rewrite IH. apply orb_true_r.
Qed.

Lemma append_assoc (a b c : string) : (a +:+ b) +:+ c = a +:+ (b +:+ c).
Proof.
  induction a as [|x a IH]; [reflexivity|].
  change ((String x a +:+ b) +:+ c) with (String x ((a +:+ b) +:+ c)). now rewrite IH.
Qed.

Lemma lstrip_slashes_append s t :
  String.prefix "/" t = false -> t <> "" ->
  exists u, lstrip_slashes (s +:+ t) = u +:+ t.
Proof.
  intros Ht Hne. induction s as [|c s IH].
  - exists "". change ("" +:+ t) with t. destruct t as [|d t]; [congruence|].
    simpl. rewrite prefix_cons in Ht.
    destruct (Ascii.eqb_spec "/" d) as [<-|Hd].
    + destruct t; discriminate.
    + destruct d as [[] [] [] [] [] [] [] []]; try reflexivity. congruence.
  - change (String c s +:+ t) with (String c (s +:+ t)).
    destruct (Ascii.eqb_spec c "/") as [->|Hc].
    + exact IH.
    + exists (String c s).
      destruct c as [[] [] [] [] [] [] [] []]; try reflexivity. congruence.
Qed.

Lemma str_split_nonempty sep s : str_split sep s <> [].
Proof.
  destruct s as [|c s]; simpl; [discriminate|].
  destruct (Ascii.eqb c sep); [discriminate|].
  destruct (str_split sep s); discriminate.
Qed.

Lemma str_split_append_last sep s t :
  str_contains sep t = false ->
  exists l x, str_split sep (s +:+ t) = l ++ [x +:+ t].
Proof.
  intros Ht. induction s as [|c s IH].
  - exists [], "". change ("" +:+ t) with t. simpl.
    induction t as [|d t IHt]; [reflexivity|].
    simpl in Ht. apply orb_false_iff in Ht as [Hd Ht].
    simpl. rewrite Hd. rewrite (IHt Ht). reflexivity.
  - destruct IH as (l & x & IH).
    change (String c s +:+ t) with (String c (s +:+ t)). simpl. rewrite IH.
    destruct (Ascii.eqb c sep).
    + exists ("" :: l), x. reflexivity.
    + destruct l as [|h l]; simpl.
      * exists [], (String c x). reflexivity.
      * exists (String c h :: l), x. reflexivity.
Qed.

Lemma last_filter_keep {A} (f : A -> bool) (l : list A) (x d : A) :
  f x = true -> List.last (List.filter f (l ++ [x])) d = x.
Proof.
  intros Hx. rewrite List.filter_app. simpl. rewrite Hx. apply last_last.
Qed.

(** The name of a parsed path that ends in [.yaml] ends in [.yaml]. *)
Lemma parse_path_yaml_name s :
  exists l x, parts (parse_path (s +:+ ".yaml")) = l ++ [x +:+ ".yaml"].
Proof.
  unfold parse_path. cbn [parts].
  destruct (lstrip_slashes_append s ".yaml") as (u & ->); [reflexivity|discriminate|].
  destruct (str_split_append_last "/" u ".yaml") as (l & x & ->); [reflexivity|].
  rewrite List.filter_app. cbn [List.filter].
  assert (Hkeep : negb (x +:+ ".yaml" =? "")%string && negb (x +:+ ".yaml" =? ".")%string = true).
  { apply andb_true_iff. split; apply negb_true_iff, String.eqb_neq; intros H;
      apply (f_equal String.length) in H; rewrite length_append in H; simpl in H; lia. }
  rewrite Hkeep. eauto.
Qed.

Lemma path_name_joinpath_rel p q l x :
  root q = "" -> parts q = l ++ [x] -> path_name (joinpath p q) = x.
Proof.
  intros Hr Hp. unfold joinpath, path_name. rewrite Hr. cbn [parts].
  rewrite Hp, app_assoc. apply last_last.
Qed.

Lemma parse_path_rel_root c s :
  Ascii.eqb c "/" = false -> root (parse_path (String c s)) = "".
Proof.
  intros Hc. unfold parse_path. cbn [root].
  assert (lstrip_slashes (String c s) = String c s) as ->.
  { destruct c as [[] [] [] [] [] [] [] []]; try reflexivity. discriminate. }
  now rewrite Nat.sub_diag.
Qed.

(** The profile and the manifest are different files. *)
Lemma cfg_path_not_manifest (base storage : PurePath) domain_type :
  joinpath base (parse_path ("diar_infer_" +:+ domain_type +:+ ".yaml"))
  <> joinpath storage (parse_path "infer_manifest.json").
Proof.
  intros Heq. apply (f_equal path_name) in Heq.
  destruct (parse_path_yaml_name ("diar_infer_" +:+ domain_type)) as (l & x & Hl).
  rewrite append_assoc in Hl.
  rewrite (path_name_joinpath_rel _ _ l (x +:+ ".yaml")) in Heq;
    [|apply parse_path_rel_root; reflexivity|exact Hl].
  rewrite (path_name_joinpath_rel _ _ [] "infer_manifest.json") in Heq by reflexivity.
  pose proof (str_endswith_append ".yaml" x) as He. rewrite Heq in He. discriminate He.
Qed.

Lemma path_parent_joinpath_file p name :
  path_parent (joinpath p {| root := ""; parts := [name] |}) = p.
Proof.
  unfold path_parent, joinpath. cbn [root parts].
  rewrite removelast_last. now destruct p.
Qed.

Lemma parse_manifest_name :
  parse_path "infer_manifest.json" = {| root := ""; parts := ["infer_manifest.json"] |}.
Proof. reflexivity. Qed.

(** ** File names *)

Lemma append_nil_r s : s +:+ "" = s.
Proof. induction s as [|c s IH]; [reflexivity|]. now rewrite append_cons, IH. Qed.

Lemma substring_0_length s : substring 0 (String.length s) s = s.
Proof. induction s as [|c s IH]; simpl; congruence. Qed.

Lemma substring_append_l a b : substring 0 (String.length a) (a +:+ b) = a.
Proof.
  induction a as [|c a IH]; simpl.
  - now destruct b.
  - now rewrite IH.
Qed.

Lemma substring_append_r a b :
  substring (String.length a) (String.length b) (a +:+ b) = b.
Proof.
  induction a as [|c a IH]; simpl; [apply substring_0_length|exact IH].
Qed.

Lemma substring_split i s :
  (i <= String.length s)%nat ->
  substring 0 i s +:+ substring i (String.length s - i) s = s.
Proof.
  revert i. induction s as [|c s IH]; intros i Hi; simpl in *.
  - destruct i; reflexivity.
  - destruct i as [|i]; simpl.
    + now rewrite substring_0_length.
    + rewrite append_cons, IH by lia. reflexivity.
Qed.

Lemma length_substring i n s :
  (i + n <= String.length s)%nat -> String.length (substring i n s) = n.
Proof.
  revert i n. induction s as [|c s IH]; intros i n Hi; simpl in *.
  - destruct i, n; simpl in *; try reflexivity; lia.
  - destruct i as [|i]; simpl.
    + destruct n as [|n]; simpl; [reflexivity|]. rewrite IH by lia. reflexivity.
    + apply IH. lia.
Qed.

Lemma str_rfind_None c s : str_rfind c s = None <-> str_contains c s = false.
Proof.
  induction s as [|a s IH]; simpl; [tauto|].
  destruct (str_rfind c s) as [i|].
  - split; [discriminate|]. intros [_ H]%orb_false_iff. apply IH in H. discriminate.
  - destruct (Ascii.eqb a c); simpl; [split; discriminate|].
    split; [intros _; now apply IH|reflexivity].
Qed.

Lemma str_rfind_append c a t :
  str_contains c t = false -> str_rfind c (a +:+ String c t) = Some (String.length a).
Proof.
  intros Ht. induction a as [|x a IH]; simpl.
  - apply str_rfind_None in Ht. rewrite Ht. now rewrite Ascii.eqb_refl.
  - now rewrite IH.
Qed.

Lemma str_rfind_lt c s i : str_rfind c s = Some i -> (i < String.length s)%nat.
Proof.
  revert i. induction s as [|a s IH]; intros i; simpl; [discriminate|].
  destruct (str_rfind c s) as [j|].
  - intros [= <-]. specialize (IH j eq_refl). lia.
  - destruct (Ascii.eqb a c); [|discriminate]. intros [= <-]. lia.
Qed.

Lemma suffix_start_bounds name i :
  suffix_start name = Some i -> (0 < i /\ i < String.length name - 1)%nat.
Proof.
  unfold suffix_start. destruct (str_rfind "." name) as [j|]; [|discriminate].
  destruct (0 <? j)%nat eqn:E1; [|discriminate].
  destruct (j <? String.length name - 1)%nat eqn:E2; [|discriminate].
  intros [= <-]. apply Nat.ltb_lt in E1, E2. lia.
Qed.

(** A name is its stem followed by its suffix, and the stem of a name is
    not empty. *)
Lemma stem_suffix p :
  path_stem p +:+ path_suffix p = path_name p
  /\ (path_name p <> "" -> path_stem p <> "").
Proof.
  unfold path_stem, path_suffix. destruct (suffix_start (path_name p)) as [i|] eqn:E.
  - apply suffix_start_bounds in E. split.
    + apply substring_split. lia.
    + intros _ H. apply (f_equal String.length) in H.
      rewrite length_substring in H by lia. simpl in H. lia.
  - split; [apply append_nil_r|auto].
Qed.

Lemma suffix_start_wav stem :
  stem <> "" -> suffix_start (stem +:+ ".wav") = Some (String.length stem).
Proof.
  intros Hne. unfold suffix_start.
  change ".wav" with (String "." "wav"). rewrite str_rfind_append by reflexivity.
  rewrite length_append. simpl String.length.
  assert (0 < String.length stem)%nat by (destruct stem; [congruence|simpl; lia]).
  destruct (Nat.ltb_spec 0 (String.length stem)); [|lia].
  destruct (Nat.ltb_spec (String.length stem) (String.length stem + 4 - 1)); [|lia].
  reflexivity.
Qed.

(** [with_suffix(".wav")] on a path with a name: the directory and the stem
    stay, the suffix becomes [.wav]. *)
Lemma with_suffix_wav p :
  path_name p <> "" ->
  exists p',
    with_suffix p ".wav" = Return p'
    /\ root p' = root p
    /\ path_parent p' = path_parent p
    /\ path_name p' = path_stem p +:+ ".wav"
    /\ path_stem p' = path_stem p
    /\ path_suffix p' = ".wav".
Proof.
  intros Hname. destruct (stem_suffix p) as [Hsplit Hstem]. specialize (Hstem Hname).
  unfold with_suffix. cbn [str_contains Ascii.eqb orb].
  change (negb (".wav" =? "")%string && negb (String.prefix "." ".wav") || (".wav" =? ".")%string)
    with false. cbv iota.
  destruct (String.eqb_spec (path_name p) ""); [contradiction|].
  set (name' := if (path_suffix p =? "")%string then _ else _).
  assert (Hname' : name' = path_stem p +:+ ".wav").
  { unfold name'. destruct (String.eqb_spec (path_suffix p) "") as [He|He].
    - rewrite He, append_nil_r in Hsplit. now rewrite Hsplit.
    - f_equal. rewrite <- Hsplit at 1 2. rewrite length_append.
      replace (String.length (path_stem p) + String.length (path_suffix p)
               - String.length (path_suffix p))%nat
        with (String.length (path_stem p)) by lia.
      apply substring_append_l. }
  eexists. split; [reflexivity|].
  assert (Hn : path_name {| root := root p; parts := removelast (parts p) ++ [name'] |} = name')
    by (unfold path_name; cbn [parts]; apply last_last).
  split; [reflexivity|].
  split; [unfold path_parent; cbn [root parts]; now rewrite removelast_last|].
  split; [now rewrite Hn|].
  unfold path_stem at 1, path_suffix at 1. rewrite Hn, Hname'.
  rewrite suffix_start_wav by assumption.
  split; [apply substring_append_l|].
  rewrite length_append.
  replace (String.length (path_stem p) + String.length ".wav" - String.length (path_stem p))%nat
    with (String.length ".wav") by lia.
  apply substring_append_r.
Qed.

(** ** Paths, JSON and bytes on examples *)

Example path_try :
  path_str (parse_path "a//b/./c.tar.gz") = "a/b/c.tar.gz"
  /\ path_str (parse_path "//x") = "//x" /\ path_str (parse_path "///x/") = "/x"
  /\ path_str (parse_path "") = "." /\ path_str (parse_path "/") = "/"
  /\ path_suffix (parse_path "a/b.c.mp3") = ".mp3" /\ path_suffix (parse_path ".bashrc") = ""
  /\ path_suffix (parse_path "a.") = ""
  /\ (path_str <$> (match with_suffix (parse_path "/tmp/a.b.mp3") ".wav" with Return p => Some p | _ => None end)) = Some "/tmp/a.b.wav"
  /\ (path_str <$> (match with_suffix (parse_path "x/a.") ".wav" with Return p => Some p | _ => None end)) = Some "x/a..wav"
  /\ path_str (joinpath (parse_path "/srv/app") (parse_path "temp/x")) = "/srv/app/temp/x"
  /\ path_str (joinpath (parse_path "/srv/app") (parse_path "/abs/x")) = "/abs/x"
  /\ path_str (path_parent (parse_path "/srv/app")) = "/srv".
Proof. vm_compute. repeat split; reflexivity. Qed.

Example json_try :
  json_dumps manifest_meta
  = "{" +:+ dq +:+ "audio_filepath" +:+ dq +:+ ": " +:+ dq +:+ "/app/temp_outputs/mono_file.wav" +:+ dq
    +:+ ", " +:+ dq +:+ "offset" +:+ dq +:+ ": 0, " +:+ dq +:+ "duration" +:+ dq +:+ ": null, "
    +:+ dq +:+ "label" +:+ dq +:+ ": " +:+ dq +:+ "infer" +:+ dq +:+ ", "
    +:+ dq +:+ "text" +:+ dq +:+ ": " +:+ dq +:+ "-" +:+ dq +:+ ", "
    +:+ dq +:+ "rttm_filepath" +:+ dq +:+ ": null, " +:+ dq +:+ "uem_filepath" +:+ dq +:+ ": null}"
  /\ bytes_repr ("a'b" +:+ String "010" (String "200" "")) = "b" +:+ dq +:+ "a'b\n\xc8" +:+ dq.
Proof. vm_compute. split; reflexivity. Qed.

(** ** Computations *)

Lemma bind_Return {A B} (c : M A) (k : A -> M B) w v w' :
  (c ≫= k) w = (Return v, w') ->
  exists x w1, c w = (Return x, w1) /\ k x w1 = (Return v, w').
Proof.
  unfold mbind, M_bind, bind. destruct (c w) as [[x|e] w1]; [eauto|discriminate].
Qed.

Lemma bind_of_Return {A B} (c : M A) (k : A -> M B) w v w1 :
  c w = (Return v, w1) -> (c ≫= k) w = k v w1.
Proof. unfold mbind, M_bind, bind. now intros ->. Qed.

Lemma bind_of_Raise {A B} (c : M A) (k : A -> M B) w e w1 :
  c w = (Raise e, w1) -> (c ≫= k) w = (Raise e, w1).
Proof. unfold mbind, M_bind, bind. now intros ->. Qed.

(** Runs the first step of a sequence, whose outcome [tac] establishes. *)
Ltac step_with tac := erewrite bind_of_Return; [|tac].
Ltac step := step_with ltac:(reflexivity).

Lemma World_eq w w' :
  dirs w = dirs w' -> files w = files w' -> spawned w = spawned w' -> logged w = logged w' ->
  w = w'.
Proof. destruct w, w'. simpl. now intros -> -> -> ->. Qed.

(** ** File system *)

Lemma only_mkdirs_refl w : only_mkdirs w w.
Proof. repeat split; auto. Qed.

Lemma only_mkdirs_trans w1 w2 w3 : only_mkdirs w1 w2 -> only_mkdirs w2 w3 -> only_mkdirs w1 w3.
Proof.
  intros (Hf1 & Hs1 & Hl1 & Hd1 & Hn1) (Hf2 & Hs2 & Hl2 & Hd2 & Hn2).
  repeat split; try congruence; [set_solver|].
  intros q Hq. destruct (Hn2 q Hq) as [H|H]; [auto|].
  right. congruence.
Qed.

Lemma is_dir_true p w : is_dir p w = true <-> p ∈ dirs w.
Proof. unfold is_dir. apply bool_decide_eq_true. Qed.

Lemma is_file_false p w : is_file p w = false <-> files w !! p = None.
Proof.
  unfold is_file. rewrite bool_decide_eq_false, <- eq_None_not_Some. tauto.
Qed.

Lemma is_dir_false p w : is_dir p w = false <-> p ∉ dirs w.
Proof. unfold is_dir. apply bool_decide_eq_false. Qed.

Lemma is_file_true p w : is_file p w = true <-> is_Some (files w !! p).
Proof. unfold is_file. apply bool_decide_eq_true. Qed.

Lemma exists_true p w :
  is_dir p w || is_file p w = true <-> p ∈ dirs w \/ is_Some (files w !! p).
Proof. now rewrite orb_true_iff, is_dir_true, is_file_true. Qed.

Lemma exists_false p w :
  is_dir p w || is_file p w = false <-> (p ∉ dirs w) /\ files w !! p = None.
Proof. now rewrite orb_false_iff, is_dir_false, is_file_false. Qed.

(** [mkdir] makes a directory that is absent and whose parent is there. *)
Lemma os_mkdir_ok p w :
  p ∉ dirs w -> files w !! p = None -> path_parent p ∈ dirs w ->
  os_mkdir p w = (Return tt, with_dir p w).
Proof.
  intros Hd Hf Hp. unfold os_mkdir.
  rewrite (proj2 (exists_false p w)) by auto.
  now rewrite (proj2 (is_dir_true _ w) Hp).
Qed.

Lemma path_mkdir_parents_ok p w :
  p ∉ dirs w -> files w !! p = None -> path_parent p ∈ dirs w ->
  path_mkdir_parents p w = (Return tt, with_dir p w).
Proof.
  intros Hd Hf Hp. unfold path_mkdir_parents.
  assert (Hp' : {| root := root p; parts := take (length (parts p)) (parts p) |} = p)
    by (rewrite firstn_all; now destruct p).
  destruct (length (parts p)); cbn [mkdir_parents]; rewrite Hp', os_mkdir_ok; auto.
Qed.

Lemma os_mkdir_frame p w r w' :
  os_mkdir p w = (r, w') ->
  only_mkdirs w w' /\ (r = Return tt -> p ∈ dirs w').
Proof.
  unfold os_mkdir.
  destruct (is_dir p w || is_file p w) eqn:Ex.
  { intros [= <- <-]. split; [apply only_mkdirs_refl|discriminate]. }
  apply orb_false_iff in Ex as [_ Hfile]. apply is_file_false in Hfile.
  destruct (is_dir (path_parent p) w).
  - intros [= <- <-]. split; [|intros _; simpl; set_solver].
    repeat split; simpl; auto; [set_solver|].
    intros q [->%elem_of_singleton|Hq]%elem_of_union; auto.
  - destruct (is_file (path_parent p) w); intros [= <- <-];
      (split; [apply only_mkdirs_refl|discriminate]).
Qed.

Lemma path_mkdir_exist_ok_frame p w w' :
  path_mkdir_exist_ok p w = (Return tt, w') -> only_mkdirs w w' /\ p ∈ dirs w'.
Proof.
  unfold path_mkdir_exist_ok.
  destruct (os_mkdir p w) as [[[]|e] w1] eqn:E; apply os_mkdir_frame in E as [Hfr Hin].
  - intros [= <-]. auto.
  - destruct e; try discriminate;
      destruct (is_dir p w1) eqn:Ed; try discriminate;
      intros [= <-]; (split; [exact Hfr|now apply is_dir_true]).
Qed.

Lemma mkdir_parents_frame r ps n w w' :
  mkdir_parents r ps n w = (Return tt, w') ->
  only_mkdirs w w' /\ {| root := r; parts := take n ps |} ∈ dirs w'.
Proof.
  revert w w'. induction n as [|k IH]; intros w w'; cbn [mkdir_parents].
  - destruct (os_mkdir _ w) as [[[]|e] w1] eqn:E; apply os_mkdir_frame in E as [Hfr Hin].
    + intros [= <-]. auto.
    + destruct e; try discriminate;
        destruct (is_dir _ w1) eqn:Ed; try discriminate;
        intros [= <-]; (split; [exact Hfr|now apply is_dir_true]).
  - destruct (os_mkdir _ w) as [[[]|e] w1] eqn:E; apply os_mkdir_frame in E as [Hfr Hin].
    + intros [= <-]. auto.
    + destruct e;
        try (destruct (is_dir _ w1) eqn:Ed; try discriminate;
             intros [= <-]; (split; [exact Hfr|now apply is_dir_true])).
      intros (x & w2 & H1 & H2)%bind_Return. destruct x.
      apply IH in H1 as [Hfr1 _]. apply path_mkdir_exist_ok_frame in H2 as [Hfr2 Hin2].
      split; [|exact Hin2].
      eapply only_mkdirs_trans; [exact Hfr|]. eapply only_mkdirs_trans; eassumption.
Qed.

Lemma path_mkdir_parents_frame p w w' :
  path_mkdir_parents p w = (Return tt, w') -> only_mkdirs w w' /\ p ∈ dirs w'.
Proof.
  unfold path_mkdir_parents. intros [Hfr Hin]%mkdir_parents_frame.
  split; [exact Hfr|]. rewrite firstn_all in Hin. now destruct p.
Qed.

(** *** Closed paths in the example worlds *)

(** Two closed paths differ. *)
Ltac path_ne := let H := fresh in intros H; compute in H; discriminate H.

(** A closed path is none of the directories listed. *)
Ltac not_in_dirs :=
  cbn [dirs with_dir with_file w0 w0_wav w0_plain];
  rewrite ?not_elem_of_union, ?not_elem_of_singleton; repeat split; path_ne.

(** A closed path is one of the directories listed. *)
Ltac pick_disjunct :=
  lazymatch goal with
  | |- _ \/ _ => first [left; pick_disjunct | right; pick_disjunct]
  | |- _ => reflexivity
  end.
Ltac in_dirs :=
  cbn [dirs with_dir with_file w0 w0_wav w0_plain];
  rewrite ?elem_of_union, ?elem_of_singleton; pick_disjunct.

(** The file at a closed path, in a world written as a list of insertions. *)
Ltac lookup_file :=
  cbn [files with_dir with_file w0 w0_wav w0_plain];
  repeat first
    [ rewrite lookup_insert; first [rewrite decide_True by reflexivity
                                   |rewrite decide_False by path_ne]
    | rewrite lookup_singleton; first [rewrite decide_True by reflexivity
                                      |rewrite decide_False by path_ne] ];
  try reflexivity.

(** ** Audio acquirer *)

(** C5. When the server answers with a status other than 200,
    [download_audio_file] raises the exception whose message carries that
    status, and the file system is as before: no file is created or
    changed, no directory made, no process launched. *)
Theorem download_audio_file_non_200 env url filename url_headers w :
  status (http_get env url (default [] url_headers)) <> 200%Z ->
  exists w',
    download_audio_file env url filename url_headers w
    = (Raise (Exception ("Failed to download file. Status: "
                         +:+ str_of_int (status (http_get env url (default [] url_headers))))),
       w')
    /\ files w' = files w /\ dirs w' = dirs w /\ spawned w' = spawned w.
Proof.
  intros Hstatus. unfold download_audio_file.
  step.
  destruct (Z.eqb_spec (status (http_get env url (default [] url_headers))) 200);
    [contradiction|].
  unfold raise. eexists. split; [reflexivity|]. repeat split.
Qed.

Lemma download_audio_file_non_200_witness :
  exists w',
    download_audio_file env0 "https://example.org/a.mp3" "/tmp/b" None w0
    = (Raise (Exception "Failed to download file. Status: 404"), w')
    /\ files w' = files w0 /\ dirs w' = dirs w0 /\ spawned w' = spawned w0.
Proof.
  apply (download_audio_file_non_200 env0 "https://example.org/a.mp3" "/tmp/b" None w0).
  cbn. discriminate.
Defined.

(** ** Audio normalizer *)

(** C6. [convert_file_to_wav] on a path that does not exist raises
    [FileNotFoundError] and leaves the world as it is: no process has been
    launched.  On a path that exists and has a name, one process is launched,
    the transcoder on that path and on the path with its suffix replaced by
    [.wav] (same directory, same stem); when it exits with code 0 that
    path is returned, and when it exits with another code the exception
    raised carries the captured standard error.  (A path that exists and has
    no name, the root or the current directory, is refused by [with_suffix]
    before any process is launched.) *)
Theorem convert_file_to_wav_outcomes env filepath w :
  let p := parse_path filepath in
  (is_dir p w || is_file p w = false ->
   convert_file_to_wav env filepath w
   = (Raise (FileNotFoundError ("File " +:+ path_str p +:+ " does not exist.")), w))
  /\ (is_dir p w || is_file p w = true -> path_name p <> "" ->
      exists p',
        with_suffix p ".wav" = Return p'
        /\ path_parent p' = path_parent p
        /\ path_stem p' = path_stem p
        /\ path_suffix p' = ".wav"
        /\ forall code out err wfs,
             exec env (ffmpeg_cmd p p') w = (Return (code, out, err), wfs) ->
             let w' := {| dirs := dirs wfs; files := files wfs;
                          spawned := spawned w ++ [ffmpeg_cmd p p'];
                          logged := logged w |} in
             (code = 0%Z ->
              convert_file_to_wav env filepath w = (Return (path_str p'), w'))
             /\ (code <> 0%Z ->
                 convert_file_to_wav env filepath w
                 = (Raise (Exception ("Error converting file " +:+ path_str p
                                      +:+ " to wav format: " +:+ bytes_repr err)),
                    w')))
  /\ (is_dir p w || is_file p w = true -> path_name p = "" ->
      convert_file_to_wav env filepath w
      = (Raise (ValueError ("PosixPath('" +:+ path_str p +:+ "') has an empty name")), w)).
Proof.
  intros p. split; [|split].
  - intros Hmiss. unfold convert_file_to_wav. fold p.
    step. now rewrite Hmiss.
  - intros Hex Hname.
    destruct (with_suffix_wav p Hname) as (p' & Hws & _ & Hpar & _ & Hstem & Hsuf).
    exists p'. repeat (split; [assumption|]).
    intros code out err wfs Hexec w'.
    assert (Hrun : run_subprocess env (ffmpeg_cmd p p') w = (Return (code, out, err), w'))
      by (unfold run_subprocess; now rewrite Hexec).
    unfold convert_file_to_wav. fold p.
    step. rewrite Hex. cbn [negb].
    step_with ltac:(unfold lift; rewrite Hws; reflexivity).
    step_with ltac:(exact Hrun). cbn [fst snd].
    split.
    + intros ->. reflexivity.
    + intros Hcode. destruct (Z.eqb_spec code 0); [contradiction|reflexivity].
  - intros Hex Hname. unfold convert_file_to_wav. fold p.
    step. rewrite Hex. cbn [negb].
    erewrite bind_of_Raise; [reflexivity|].
    unfold lift, with_suffix. cbn [str_contains Ascii.eqb orb].
    change (negb (".wav" =? "")%string && negb (String.prefix "." ".wav")
            || (".wav" =? ".")%string) with false. cbv iota.
    now rewrite Hname.
Qed.

Lemma convert_file_to_wav_outcomes_witness :
  convert_file_to_wav env0 "/tmp/none.mp3" w0
  = (Raise (FileNotFoundError "File /tmp/none.mp3 does not exist."), w0)
  /\ (exists w', convert_file_to_wav env1 "/tmp/a.mp3" w0 = (Return "/tmp/a.wav", w')
                 /\ length (spawned w') = 1%nat)
  /\ (exists w', convert_file_to_wav env0 "/tmp/a.mp3" w0
                 = (Raise (Exception "Error converting file /tmp/a.mp3 to wav format: b'boom'"), w')
                 /\ length (spawned w') = 1%nat).
Proof.
  assert (Hup : is_dir (parse_path "/tmp/a.mp3") w0 || is_file (parse_path "/tmp/a.mp3") w0
          = true).
  { apply exists_true. right. eexists. lookup_file. }
  split; [|split].
  - apply (convert_file_to_wav_outcomes env0 "/tmp/none.mp3" w0).
    apply exists_false. split; [not_in_dirs|lookup_file].
  - destruct (convert_file_to_wav_outcomes env1 "/tmp/a.mp3" w0) as (_ & H & _).
    destruct H as (p' & Hws & _ & _ & _ & H); [exact Hup|compute; discriminate|].
    assert (Hp' : p' = parse_path "/tmp/a.wav") by (compute in Hws |- *; congruence).
    subst p'. destruct (H 0%Z "" "" _ eq_refl) as [Hok _].
    eexists. split; [exact (Hok eq_refl)|reflexivity].
  - destruct (convert_file_to_wav_outcomes env0 "/tmp/a.mp3" w0) as (_ & H & _).
    destruct H as (p' & Hws & _ & _ & _ & H); [exact Hup|compute; discriminate|].
    assert (Hp' : p' = parse_path "/tmp/a.wav") by (compute in Hws |- *; congruence).
    subst p'. destruct (H 1%Z "" "boom" w0 eq_refl) as [_ Hbad].
    eexists. split; [apply Hbad; discriminate|reflexivity].
Defined.

(** ** Diarization config builder *)

Lemma ensure_dir_frame p w w' :
  ensure_dir p w = (Return tt, w') ->
  only_mkdirs w w' /\ (p ∈ dirs w' \/ is_Some (files w' !! p)).
Proof.
  unfold ensure_dir, mbind, M_bind, bind, path_exists.
  destruct (is_dir p w || is_file p w) eqn:Ex; cbn [negb].
  - intros [= <-]. split; [apply only_mkdirs_refl|].
    apply orb_true_iff in Ex as [Hd|Hf].
    + left. now apply is_dir_true.
    + right. unfold is_file in Hf. now apply bool_decide_eq_true in Hf.
  - intros [Hfr Hin]%path_mkdir_parents_frame. auto.
Qed.

Lemma ensure_dir_present p w :
  p ∈ dirs w \/ is_Some (files w !! p) -> ensure_dir p w = (Return tt, w).
Proof.
  intros H. unfold ensure_dir, mbind, M_bind, bind, path_exists.
  assert (is_dir p w || is_file p w = true) as ->; [|reflexivity].
  apply orb_true_iff. destruct H as [H|H].
  - left. now apply is_dir_true.
  - right. unfold is_file. now apply bool_decide_eq_true.
Qed.

Lemma ensure_dir_steps p w found w1 u wa :
  path_exists p w = (Return found, w1) ->
  (if negb found then path_mkdir_parents p else ret tt) w1 = (Return u, wa) ->
  ensure_dir p w = (Return tt, wa).
Proof.
  intros Hex Hmk. unfold ensure_dir. rewrite (bind_of_Return _ _ _ _ _ Hex), Hmk. now destruct u.
Qed.

Lemma open_w_inv p w fp w' :
  open_w p w = (Return fp, w') ->
  fp = p /\ (p ∉ dirs w) /\ (path_parent p ∈ dirs w) /\ w' = with_file p "" w.
Proof.
  unfold open_w. destruct (is_dir p w) eqn:Hd; [discriminate|].
  destruct (is_dir (path_parent p) w) eqn:Hp.
  - intros [= <- <-]. split; [reflexivity|].
    split; [intros Hin%is_dir_true; congruence|].
    split; [now apply is_dir_true|reflexivity].
  - destruct (is_file (path_parent p) w); discriminate.
Qed.

Lemma open_w_ok p w :
  p ∉ dirs w -> path_parent p ∈ dirs w -> open_w p w = (Return p, with_file p "" w).
Proof.
  intros Hd Hp. unfold open_w.
  assert (is_dir p w = false) as ->.
  { destruct (is_dir p w) eqn:E; [|reflexivity]. now apply is_dir_true in E. }
  apply is_dir_true in Hp. now rewrite Hp.
Qed.

Lemma write_with_file p content data w :
  write p data (with_file p content w) = (Return tt, with_file p (content +:+ data) w).
Proof.
  unfold write, with_file. cbn [files dirs spawned logged].
  now rewrite lookup_insert_eq, insert_insert_eq.
Qed.

Lemma manifest_content_steps : ("" +:+ json_dumps manifest_meta) +:+ String "010" "" = manifest_content.
Proof. reflexivity. Qed.

Lemma read_text_inv p w text w' :
  read_text p w = (Return text, w') -> files w !! p = Some text /\ w' = w.
Proof.
  unfold read_text. destruct (files w !! p) as [t|].
  - now intros [= -> <-].
  - destruct (is_dir p w); [|destruct (under_a_file p w)]; discriminate.
Qed.

Lemma cfg_set_diarizer_inv cfg key value cfg' :
  cfg_set_diarizer cfg key value = Return cfg' ->
  cfg !! "diarizer" = Some CfgMap /\ cfg' = <[key := value]> cfg.
Proof.
  unfold cfg_set_diarizer. destruct (cfg !! "diarizer") as [[| | |]|]; try discriminate.
  now intros [= <-].
Qed.

Lemma cfg_set_diarizer_ok cfg key value :
  cfg !! "diarizer" = Some CfgMap ->
  cfg_set_diarizer cfg key value = Return (<[key := value]> cfg).
Proof. unfold cfg_set_diarizer. now intros ->. Qed.

Lemma cfg_set_diarizer_missing cfg key value :
  cfg !! "diarizer" <> Some CfgMap ->
  cfg_set_diarizer cfg key value = Raise (AttributeError "diarizer").
Proof.
  unfold cfg_set_diarizer. destruct (cfg !! "diarizer") as [[| | |]|]; congruence.
Qed.

Lemma lookup_diarizer_num_workers (cfg : gmap string cfg_value) v :
  <["num_workers" := v]> cfg !! "diarizer" = cfg !! "diarizer".
Proof. apply lookup_insert_ne. discriminate. Qed.

Lemma lookup_diarizer_manifest (cfg : gmap string cfg_value) v :
  <["diarizer.manifest_filepath" := v]> cfg !! "diarizer" = cfg !! "diarizer".
Proof. apply lookup_insert_ne. discriminate. Qed.

(** What a call of [load_nemo_config] that returns has done. *)
Lemma load_nemo_config_inv env domain_type storage_path output_path w cfg w' :
  load_nemo_config env domain_type storage_path output_path w = (Return cfg, w') ->
  exists text cfg0 wa,
    files w !! cfg_path_of env domain_type = Some text
    /\ OmegaConf_load env text = Return cfg0
    /\ cfg0 !! "diarizer" = Some CfgMap
    /\ only_mkdirs w wa
    /\ (storage_dir_of env storage_path ∈ dirs wa)
    /\ (manifest_path_of env storage_path ∉ dirs wa)
    /\ only_mkdirs (with_file (manifest_path_of env storage_path) manifest_content wa) w'
    /\ (output_dir_of env output_path ∈ dirs w'
        \/ is_Some (files w' !! output_dir_of env output_path))
    /\ cfg = <["diarizer.out_dir" := CfgStr (path_str (output_dir_of env output_path))]>
             (<["diarizer.manifest_filepath" :=
                  CfgStr (path_str (manifest_path_of env storage_path))]>
              (<["num_workers" := CfgInt 0]> cfg0)).
Proof.
  unfold load_nemo_config.
  fold (cfg_path_of env domain_type) (storage_dir_of env storage_path).
  fold (manifest_path_of env storage_path) (output_dir_of env output_path).
  intros (text & w1 & Hread & H)%bind_Return.
  apply read_text_inv in Hread as [Hfile ->].
  apply bind_Return in H as (cfg0 & w2 & Hload & H).
  unfold lift in Hload. injection Hload as Hload <-.
  apply bind_Return in H as (found & w2 & Hex & H).
  apply bind_Return in H as (u & wa & Hmk & H).
  pose proof (ensure_dir_steps _ _ _ _ _ _ Hex Hmk) as [Hfr1 _]%ensure_dir_frame.
  apply bind_Return in H as (fp & w3 & Hopen & H).
  apply open_w_inv in Hopen as (-> & Hnd & Hpar & ->).
  apply bind_Return in H as (u1 & w4 & Hw1 & H).
  rewrite write_with_file in Hw1. injection Hw1 as _ <-.
  apply bind_Return in H as (u2 & w5 & Hw2 & H).
  rewrite write_with_file in Hw2. injection Hw2 as _ <-.
  rewrite manifest_content_steps in H.
  apply bind_Return in H as (found' & w6 & Hex' & H).
  apply bind_Return in H as (u3 & w7 & Hmk' & H).
  pose proof (ensure_dir_steps _ _ _ _ _ _ Hex' Hmk') as [Hfr2 Hout]%ensure_dir_frame.
  apply bind_Return in H as (cfga & w8 & Hset1 & H).
  unfold lift in Hset1. injection Hset1 as Hset1 <-.
  apply cfg_set_diarizer_inv in Hset1 as [Hdia ->].
  rewrite lookup_diarizer_num_workers in Hdia.
  apply bind_Return in H as (cfgb & w9 & Hset2 & H).
  unfold lift in Hset2. injection Hset2 as Hset2 <-.
  apply cfg_set_diarizer_inv in Hset2 as [_ ->].
  unfold ret in H. injection H as <- <-.
  exists text, cfg0, wa.
  split; [exact Hfile|]. split; [exact Hload|]. split; [exact Hdia|]. split; [exact Hfr1|].
  split.
  { unfold manifest_path_of in Hpar. rewrite parse_manifest_name in Hpar.
    now rewrite path_parent_joinpath_file in Hpar. }
  split; [exact Hnd|]. split; [exact Hfr2|]. split; [exact Hout|reflexivity].
Qed.

Lemma ensure_dir_makes p w :
  p ∉ dirs w -> files w !! p = None -> path_parent p ∈ dirs w ->
  ensure_dir p w = (Return tt, with_dir p w).
Proof.
  intros Hd Hf Hp. unfold ensure_dir. step.
  rewrite (proj2 (exists_false p w)) by auto. cbn [negb].
  now apply path_mkdir_parents_ok.
Qed.

(** The test and the [mkdir] of the source, followed by [k]. *)
Lemma ensure_dir_then {B} p (k : unit -> M B) w wa :
  ensure_dir p w = (Return tt, wa) ->
  (found ← path_exists p;
   (if negb found then path_mkdir_parents p else ret tt) ≫= k) w
  = k tt wa.
Proof.
  unfold ensure_dir, mbind, M_bind, bind, path_exists.
  destruct (negb _).
  - destruct (path_mkdir_parents p w) as [[[]|e] w2]; [now intros [= <-]|discriminate].
  - unfold ret. now intros [= <-].
Qed.

(** A call returns when the profile loads, the two directories are there or
    can be made, and the manifest path is no directory. *)
Lemma load_nemo_config_steps env domain_type storage_path output_path w text cfg0 wa w' :
  files w !! cfg_path_of env domain_type = Some text ->
  OmegaConf_load env text = Return cfg0 ->
  cfg0 !! "diarizer" = Some CfgMap ->
  ensure_dir (storage_dir_of env storage_path) w = (Return tt, wa) ->
  storage_dir_of env storage_path ∈ dirs wa ->
  manifest_path_of env storage_path ∉ dirs wa ->
  ensure_dir (output_dir_of env output_path)
    (with_file (manifest_path_of env storage_path) manifest_content wa)
  = (Return tt, w') ->
  load_nemo_config env domain_type storage_path output_path w
  = (Return (<["diarizer.out_dir" := CfgStr (path_str (output_dir_of env output_path))]>
             (<["diarizer.manifest_filepath" :=
                  CfgStr (path_str (manifest_path_of env storage_path))]>
              (<["num_workers" := CfgInt 0]> cfg0))),
     w').
Proof.
  intros Hfile Hload Hdia Hmk Hst Hnd Hmk'.
  unfold load_nemo_config.
  fold (cfg_path_of env domain_type) (storage_dir_of env storage_path).
  fold (manifest_path_of env storage_path) (output_dir_of env output_path).
  step_with ltac:(unfold read_text; rewrite Hfile; reflexivity).
  step_with ltac:(unfold lift; rewrite Hload; reflexivity).
  rewrite (ensure_dir_then _ _ _ _ Hmk).
  step_with ltac:(apply open_w_ok; [exact Hnd|]).
  2:{ unfold manifest_path_of. rewrite parse_manifest_name.
      now rewrite path_parent_joinpath_file. }
  step_with ltac:(apply write_with_file).
  step_with ltac:(apply write_with_file).
  rewrite manifest_content_steps.
  rewrite (ensure_dir_then _ _ _ _ Hmk').
  unfold lift. rewrite cfg_set_diarizer_ok by now rewrite lookup_diarizer_num_workers.
  step. rewrite cfg_set_diarizer_ok; [reflexivity|].
  now rewrite lookup_diarizer_manifest, lookup_diarizer_num_workers.
Qed.

(** A call in a world where the profile loads, both directories exist and
    the manifest can be written returns, having written the manifest only. *)
Lemma load_nemo_config_run env domain_type storage_path output_path w text cfg0 :
  files w !! cfg_path_of env domain_type = Some text ->
  OmegaConf_load env text = Return cfg0 ->
  cfg0 !! "diarizer" = Some CfgMap ->
  storage_dir_of env storage_path ∈ dirs w ->
  manifest_path_of env storage_path ∉ dirs w ->
  (output_dir_of env output_path ∈ dirs w
   \/ is_Some (files (with_file (manifest_path_of env storage_path) manifest_content w)
                !! output_dir_of env output_path)) ->
  load_nemo_config env domain_type storage_path output_path w
  = (Return (<["diarizer.out_dir" := CfgStr (path_str (output_dir_of env output_path))]>
             (<["diarizer.manifest_filepath" :=
                  CfgStr (path_str (manifest_path_of env storage_path))]>
              (<["num_workers" := CfgInt 0]> cfg0))),
     with_file (manifest_path_of env storage_path) manifest_content w).
Proof.
  intros Hfile Hload Hdia Hst Hnd Hout.
  eapply load_nemo_config_steps; eauto using ensure_dir_present.
Qed.

(** *** The call in the example world *)

(** In [w0] the call for the general profile makes the storage and the
    output directories and returns. *)
Lemma load_nemo_config_w0 :
  load_nemo_config env0 "general" "store" "out" w0 = (Return cfg1, w1).
Proof.
  apply (load_nemo_config_steps env0 "general" "store" "out" w0 "diarizer: {}"
           {[ "diarizer" := CfgMap ]}
           (with_dir (parse_path "/srv/app/store") w0)).
  - lookup_file.
  - reflexivity.
  - reflexivity.
  - apply (ensure_dir_makes (parse_path "/srv/app/store")); [not_in_dirs|lookup_file|in_dirs].
  - in_dirs.
  - not_in_dirs.
  - apply (ensure_dir_makes (parse_path "/srv/app/out")); [not_in_dirs|lookup_file|in_dirs].
Qed.

Lemma manifest_path_not_storage env storage_path :
  manifest_path_of env storage_path <> storage_dir_of env storage_path.
Proof.
  unfold manifest_path_of. rewrite parse_manifest_name.
  intros E. apply (f_equal (fun p => length (parts p))) in E.
  unfold joinpath in E at 1. cbn [root parts] in E. rewrite length_app in E. cbn in E. lia.
Qed.

(** What a call that returns has written. *)
Lemma load_nemo_config_return_manifest env domain_type storage_path output_path w cfg w' :
  load_nemo_config env domain_type storage_path output_path w = (Return cfg, w') ->
  files w' = <[manifest_path_of env storage_path := manifest_content]> (files w)
  /\ cfg !! "diarizer.manifest_filepath"
     = Some (CfgStr (path_str (manifest_path_of env storage_path)))
  /\ cfg !! "num_workers" = Some (CfgInt 0).
Proof.
  intros H.
  apply load_nemo_config_inv in H
    as (text & cfg0 & wa & Hfile & Hload & Hdia & Hfr1 & Hst & Hnd & Hfr2 & Hout & ->).
  split.
  { destruct Hfr2 as (-> & _). cbn [with_file files]. destruct Hfr1 as (-> & _). reflexivity. }
  split; [now rewrite lookup_insert_ne, lookup_insert_eq by done|].
  now rewrite !lookup_insert_ne, lookup_insert_eq by done.
Qed.

(** A directory that is there, or that one [mkdir] makes, is there after
    the test and the [mkdir] of the source. *)
Lemma ensure_dir_made p w :
  p ∈ dirs w \/ (files w !! p = None /\ path_parent p ∈ dirs w) ->
  exists wa, ensure_dir p w = (Return tt, wa) /\ p ∈ dirs wa /\ dirs w ⊆ dirs wa
             /\ (wa = w \/ wa = with_dir p w).
Proof.
  intros H. destruct (decide (p ∈ dirs w)) as [Hin|Hout].
  - exists w. split; [apply ensure_dir_present; now left|]. split; [exact Hin|].
    split; [reflexivity|now left].
  - destruct H as [H|[Hf Hp]]; [contradiction|].
    exists (with_dir p w). split; [now apply ensure_dir_makes|].
    cbn [with_dir dirs]. split; [apply elem_of_union_l, elem_of_singleton; reflexivity|].
    split; [apply union_subseteq_r|now right].
Qed.

(** The test and the [mkdir] of the source return when the path is there,
    as a directory or as a file, or when its parent is a directory. *)
Lemma ensure_dir_returns p w :
  p ∈ dirs w \/ path_parent p ∈ dirs w ->
  exists wa, ensure_dir p w = (Return tt, wa).
Proof.
  intros H. destruct (decide (p ∈ dirs w)) as [Hin|Hout].
  - exists w. apply ensure_dir_present. now left.
  - destruct H as [H|Hp]; [contradiction|].
    destruct (files w !! p) as [c|] eqn:Hf.
    + exists w. apply ensure_dir_present. right. rewrite Hf. now eexists.
    + exists (with_dir p w). now apply ensure_dir_makes.
Qed.

(** A call returns when the profile is there and parses to a configuration
    with a [diarizer] mapping, the storage directory is there or can be made
    with one [mkdir], the manifest path is no directory, and the output
    directory is there or its parent is. *)
Lemma load_nemo_config_returns env domain_type storage_path output_path w text cfg0 :
  files w !! cfg_path_of env domain_type = Some text ->
  OmegaConf_load env text = Return cfg0 ->
  cfg0 !! "diarizer" = Some CfgMap ->
  storage_dir_of env storage_path ∈ dirs w
  \/ (files w !! storage_dir_of env storage_path = None
      /\ path_parent (storage_dir_of env storage_path) ∈ dirs w) ->
  manifest_path_of env storage_path ∉ dirs w ->
  output_dir_of env output_path ∈ dirs w
  \/ path_parent (output_dir_of env output_path) ∈ dirs w ->
  exists w',
    load_nemo_config env domain_type storage_path output_path w
    = (Return (<["diarizer.out_dir" := CfgStr (path_str (output_dir_of env output_path))]>
               (<["diarizer.manifest_filepath" :=
                    CfgStr (path_str (manifest_path_of env storage_path))]>
                (<["num_workers" := CfgInt 0]> cfg0))),
       w').
Proof.
  intros Hfile Hload Hdia Hst Hnd Hout.
  destruct (ensure_dir_made _ _ Hst) as (wa & Emk & Hin & Hsub & Hwa).
  assert (Hnd' : manifest_path_of env storage_path ∉ dirs wa).
  { destruct Hwa as [->| ->]; [exact Hnd|]. cbn [with_dir dirs].
    apply not_elem_of_union. split; [|exact Hnd].
    rewrite elem_of_singleton. apply manifest_path_not_storage. }
  destruct (ensure_dir_returns (output_dir_of env output_path)
              (with_file (manifest_path_of env storage_path) manifest_content wa))
    as (w' & Emk').
  { cbn [with_file dirs]. destruct Hout as [H|H]; [left|right]; now apply Hsub. }
  exists w'. now apply (load_nemo_config_steps _ _ _ _ w text cfg0 wa w').
Qed.

(** C2, amended.  Where the profile is there and parses to a configuration
    with a [diarizer] mapping, the storage directory is there or can be made
    with one [mkdir], the manifest path is no directory and the output
    directory or its parent is there, [load_nemo_config] returns and has
    written one file: the manifest [infer_manifest.json] in the storage
    directory, the storage path taken from the package's parent directory.
    Whatever that file held before, it now holds one line, ended by a
    newline: the JSON object of the fixed scalar fields and of the fixed
    audio path [/app/temp_outputs/mono_file.wav] (the function takes no
    audio path).  No other file is changed, and the returned configuration
    names the manifest. *)
Theorem load_nemo_config_writes_manifest env domain_type storage_path output_path w text cfg0 :
  files w !! cfg_path_of env domain_type = Some text ->
  OmegaConf_load env text = Return cfg0 ->
  cfg0 !! "diarizer" = Some CfgMap ->
  storage_dir_of env storage_path ∈ dirs w
  \/ (files w !! storage_dir_of env storage_path = None
      /\ path_parent (storage_dir_of env storage_path) ∈ dirs w) ->
  manifest_path_of env storage_path ∉ dirs w ->
  output_dir_of env output_path ∈ dirs w
  \/ path_parent (output_dir_of env output_path) ∈ dirs w ->
  let manifest_path :=
    joinpath (joinpath (package_root env) (parse_path storage_path))
             (parse_path "infer_manifest.json") in
  exists cfg w',
    load_nemo_config env domain_type storage_path output_path w = (Return cfg, w')
    /\ files w' = <[manifest_path := json_dumps manifest_meta +:+ String "010" ""]> (files w)
    /\ json_dumps manifest_meta
       = manifest_record_spec "/app/temp_outputs/mono_file.wav"
    /\ str_contains "010" (json_dumps manifest_meta) = false
    /\ cfg !! "diarizer.manifest_filepath" = Some (CfgStr (path_str manifest_path))
    /\ cfg !! "num_workers" = Some (CfgInt 0).
Proof.
  intros Hfile Hload Hdia Hst Hnd Hout manifest_path.
  destruct (load_nemo_config_returns env domain_type storage_path output_path w text cfg0
              Hfile Hload Hdia Hst Hnd Hout) as (w' & Hrun).
  destruct (load_nemo_config_return_manifest _ _ _ _ _ _ _ Hrun) as (Hfiles & Hm & Hn).
  eexists _, w'. split; [exact Hrun|]. split; [exact Hfiles|].
  split; [reflexivity|]. split; [reflexivity|]. split; [exact Hm|exact Hn].
Qed.

Lemma load_nemo_config_writes_manifest_witness :
  exists cfg w',
    load_nemo_config env0 "general" "store" "out" w0 = (Return cfg, w')
    /\ files w'
       = <[joinpath (joinpath (package_root env0) (parse_path "store"))
                    (parse_path "infer_manifest.json")
           := json_dumps manifest_meta +:+ String "010" ""]> (files w0)
    /\ json_dumps manifest_meta = manifest_record_spec "/app/temp_outputs/mono_file.wav"
    /\ str_contains "010" (json_dumps manifest_meta) = false
    /\ cfg !! "diarizer.manifest_filepath"
       = Some (CfgStr (path_str (joinpath (joinpath (package_root env0) (parse_path "store"))
                                          (parse_path "infer_manifest.json"))))
    /\ cfg !! "num_workers" = Some (CfgInt 0).
Proof.
  apply (load_nemo_config_writes_manifest env0 "general" "store" "out" w0 "diarizer: {}"
           {[ "diarizer" := CfgMap ]}).
  - lookup_file.
  - reflexivity.
  - reflexivity.
  - right. split; [lookup_file|in_dirs].
  - not_in_dirs.
  - right. in_dirs.
Defined.

(** In [w0] the normalizer of [env1] turns the uploaded file into
    [/tmp/a.wav]. *)
Lemma convert_file_to_wav_w0 :
  convert_file_to_wav env1 "/tmp/a.mp3" w0 = (Return "/tmp/a.wav", w0_wav).
Proof.
  unfold convert_file_to_wav. step.
  rewrite (proj2 (exists_true (parse_path "/tmp/a.mp3") w0))
    by (right; eexists; lookup_file).
  cbn [negb]. step. step. reflexivity.
Qed.

(** The manifest does not hold the audio path of the request.  In [w0] the
    normalizer turns the uploaded [/tmp/a.mp3] into the canonical
    [/tmp/a.wav]; the manifest then written for that request names
    [/app/temp_outputs/mono_file.wav], not [/tmp/a.wav]. *)
Lemma load_nemo_config_manifest_not_request_audio :
  exists wa cfg wb,
    convert_file_to_wav env1 "/tmp/a.mp3" w0 = (Return "/tmp/a.wav", wa)
    /\ load_nemo_config env1 "general" "store" "out" wa = (Return cfg, wb)
    /\ files wb !! parse_path "/srv/app/store/infer_manifest.json"
       = Some (manifest_record_spec "/app/temp_outputs/mono_file.wav" +:+ String "010" "")
    /\ files wb !! parse_path "/srv/app/store/infer_manifest.json"
       <> Some (manifest_record_spec "/tmp/a.wav" +:+ String "010" "").
Proof.
  exists w0_wav, cfg1,
    (with_dir (parse_path "/srv/app/out")
       (with_file (parse_path "/srv/app/store/infer_manifest.json") manifest_content
          (with_dir (parse_path "/srv/app/store") w0_wav))).
  split; [exact convert_file_to_wav_w0|]. split.
  { apply (load_nemo_config_steps env1 "general" "store" "out" w0_wav "diarizer: {}"
             {[ "diarizer" := CfgMap ]}
             (with_dir (parse_path "/srv/app/store") w0_wav)).
    - lookup_file.
    - reflexivity.
    - reflexivity.
    - apply (ensure_dir_makes (parse_path "/srv/app/store"));
        [not_in_dirs|lookup_file|in_dirs].
    - in_dirs.
    - not_in_dirs.
    - apply (ensure_dir_makes (parse_path "/srv/app/out"));
        [not_in_dirs|lookup_file|in_dirs]. }
  cbn [files with_dir with_file]. rewrite lookup_insert_eq.
  split; [reflexivity|]. intros H. compute in H. discriminate H.
Qed.

(** After a call that returned, the same call returns again, with the same
    configuration, and leaves the world as the first call left it. *)
Lemma load_nemo_config_again env domain_type storage_path output_path w cfg w' :
  load_nemo_config env domain_type storage_path output_path w = (Return cfg, w') ->
  let storage_dir := joinpath (package_root env) (parse_path storage_path) in
  let output_dir := joinpath (package_root env) (parse_path output_path) in
  let manifest_path := joinpath storage_dir (parse_path "infer_manifest.json") in
  load_nemo_config env domain_type storage_path output_path w' = (Return cfg, w')
  /\ is_dir storage_dir w' = true
  /\ is_dir output_dir w' || is_file output_dir w' = true
  /\ files w' !! manifest_path = Some (json_dumps manifest_meta +:+ String "010" "").
Proof.
  intros H storage_dir output_dir manifest_path.
  apply load_nemo_config_inv in H
    as (text & cfg0 & wa & Hfile & Hload & Hdia & Hfr1 & Hst & Hnd & Hfr2 & Hout & ->).
  fold storage_dir in Hst. fold output_dir in Hout.
  change (manifest_path_of env storage_path) with manifest_path in *.
  destruct Hfr1 as (Hf1 & Hs1 & Hl1 & Hd1 & Hn1).
  destruct Hfr2 as (Hf2 & Hs2 & Hl2 & Hd2 & Hn2).
  cbn [with_file files dirs spawned logged] in Hf2, Hs2, Hl2, Hd2, Hn2.
  assert (Hm : files w' !! manifest_path = Some manifest_content)
    by (rewrite Hf2; apply lookup_insert_eq).
  assert (Hst' : storage_dir ∈ dirs w') by apply Hd2, Hst.
  split; [|split; [now apply is_dir_true|split; [|exact Hm]]].
  - rewrite (load_nemo_config_run env domain_type storage_path output_path w' text cfg0).
    + f_equal. apply World_eq; cbn [with_file files dirs spawned logged]; try reflexivity.
      now apply insert_id.
    + rewrite Hf2, lookup_insert_ne, Hf1; [exact Hfile|].
      intros Heq. symmetry in Heq. revert Heq. apply cfg_path_not_manifest.
    + exact Hload.
    + exact Hdia.
    + exact Hst'.
    + intros Hin. destruct (Hn2 _ Hin) as [Hin'|Hnone]; [contradiction|].
      rewrite lookup_insert_eq in Hnone. discriminate.
    + destruct Hout as [Hout|Hout]; [now left|right].
      cbn [with_file files]. rewrite insert_id; assumption.
  - apply orb_true_iff. destruct Hout as [Hout|Hout].
    + left. now apply is_dir_true.
    + right. unfold is_file. now apply bool_decide_eq_true.
Qed.

(** C8. [load_nemo_config] is idempotent.  Where the profile is there and
    parses to a configuration with a [diarizer] mapping, the storage
    directory is there or can be made with one [mkdir], the manifest path is
    no directory and the output directory or its parent is there, the call
    returns, and the same call after it returns again, with the same
    configuration, and leaves the world as the first call left it: the
    second call finds the storage directory and the output path present and
    makes no directory, and the manifest, one file, holds the line it
    held. *)
Theorem load_nemo_config_idempotent env domain_type storage_path output_path w text cfg0 :
  files w !! cfg_path_of env domain_type = Some text ->
  OmegaConf_load env text = Return cfg0 ->
  cfg0 !! "diarizer" = Some CfgMap ->
  storage_dir_of env storage_path ∈ dirs w
  \/ (files w !! storage_dir_of env storage_path = None
      /\ path_parent (storage_dir_of env storage_path) ∈ dirs w) ->
  manifest_path_of env storage_path ∉ dirs w ->
  output_dir_of env output_path ∈ dirs w
  \/ path_parent (output_dir_of env output_path) ∈ dirs w ->
  let storage_dir := joinpath (package_root env) (parse_path storage_path) in
  let output_dir := joinpath (package_root env) (parse_path output_path) in
  let manifest_path := joinpath storage_dir (parse_path "infer_manifest.json") in
  exists cfg w',
    load_nemo_config env domain_type storage_path output_path w = (Return cfg, w')
    /\ load_nemo_config env domain_type storage_path output_path w' = (Return cfg, w')
    /\ is_dir storage_dir w' = true
    /\ is_dir output_dir w' || is_file output_dir w' = true
    /\ files w' !! manifest_path = Some (json_dumps manifest_meta +:+ String "010" "").
Proof.
  intros Hfile Hload Hdia Hst Hnd Hout storage_dir output_dir manifest_path.
  destruct (load_nemo_config_returns env domain_type storage_path output_path w text cfg0
              Hfile Hload Hdia Hst Hnd Hout) as (w' & Hrun).
  eexists _, w'. split; [exact Hrun|].
  exact (load_nemo_config_again _ _ _ _ _ _ _ Hrun).
Qed.

Lemma load_nemo_config_idempotent_witness :
  exists cfg w',
    load_nemo_config env0 "general" "store" "out" w0 = (Return cfg, w')
    /\ load_nemo_config env0 "general" "store" "out" w' = (Return cfg, w')
    /\ is_dir (joinpath (package_root env0) (parse_path "store")) w' = true
    /\ is_dir (joinpath (package_root env0) (parse_path "out")) w'
       || is_file (joinpath (package_root env0) (parse_path "out")) w' = true
    /\ files w' !! joinpath (joinpath (package_root env0) (parse_path "store"))
                            (parse_path "infer_manifest.json")
       = Some (json_dumps manifest_meta +:+ String "010" "").
Proof.
  apply (load_nemo_config_idempotent env0 "general" "store" "out" w0 "diarizer: {}"
           {[ "diarizer" := CfgMap ]}).
  - lookup_file.
  - reflexivity.
  - reflexivity.
  - right. split; [lookup_file|in_dirs].
  - not_in_dirs.
  - right. in_dirs.
Defined.

(** ** Text formatter, further properties *)

(** X1. [is_empty_string] answers [True] exactly on the texts made of
    periods and white space only (the empty text among them). *)
Theorem is_empty_string_periods_and_spaces text :
  is_empty_string text = true
  <-> all_chars (fun c => Ascii.eqb c "." || is_space c) text = true.
Proof. apply is_empty_string_chars. Qed.

Lemma is_empty_string_bool text :
  is_empty_string text = all_chars (fun c => Ascii.eqb c "." || is_space c) text.
Proof.
  apply eq_true_iff_eq. apply is_empty_string_chars.
Qed.

(** X2. A text put together from two parts is empty in the sense of
    [is_empty_string] exactly when both parts are. *)
Theorem is_empty_string_append a b :
  is_empty_string (a +:+ b) = is_empty_string a && is_empty_string b.
Proof. rewrite !is_empty_string_bool. apply all_chars_append. Qed.

Lemma str_rstrip_idem s : str_rstrip (str_rstrip s) = str_rstrip s.
Proof.
  induction s as [|c s IH]; [reflexivity|].
  cbn [str_rstrip]. destruct (str_rstrip s) as [|d r] eqn:E.
  - destruct (is_space c) eqn:Ec; [reflexivity|]. cbn [str_rstrip]. now rewrite Ec.
  - cbn [str_rstrip]. cbn [str_rstrip] in IH.
    destruct (match str_rstrip r with "" => if is_space d then "" else String d "" | String a s0 => String d (String a s0) end) eqn:E2.
    + discriminate IH.
    + now rewrite IH.
Qed.

Lemma str_lstrip_length s : (String.length (str_lstrip s) <= String.length s)%nat.
Proof.
  induction s as [|c s IH]; [reflexivity|]. cbn [str_lstrip].
  destruct (is_space c); simpl; lia.
Qed.

Lemma str_lstrip_idem s : str_lstrip (str_lstrip s) = str_lstrip s.
Proof.
  induction s as [|c s IH]; [reflexivity|]. cbn [str_lstrip].
  destruct (is_space c) eqn:Ec; [exact IH|]. cbn [str_lstrip]. now rewrite Ec.
Qed.

Lemma str_lstrip_rstrip s : str_lstrip s = s -> str_lstrip (str_rstrip s) = str_rstrip s.
Proof.
  destruct s as [|c s]; [reflexivity|]. cbn [str_lstrip].
  destruct (is_space c) eqn:Ec.
  - intros H. pose proof (str_lstrip_length s) as Hl. rewrite H in Hl. simpl in Hl. lia.
  - intros _. cbn [str_rstrip]. destruct (str_rstrip s); rewrite ?Ec; cbn [str_lstrip]; now rewrite Ec.
Qed.

Lemma str_strip_ends s :
  str_lstrip (str_strip s) = str_strip s /\ str_rstrip (str_strip s) = str_strip s.
Proof.
  unfold str_strip. split.
  - apply str_lstrip_rstrip, str_lstrip_idem.
  - apply str_rstrip_idem.
Qed.

(** X3. What [format_punct] returns has no white space at either end:
    stripping it again, on the left or on the right, changes nothing. *)
Theorem format_punct_stripped text :
  str_lstrip (format_punct text) = format_punct text
  /\ str_rstrip (format_punct text) = format_punct text
  /\ str_strip (format_punct text) = format_punct text.
Proof.
  unfold format_punct.
  match goal with |- context [str_strip ?u] => generalize u end.
  intros u. destruct (str_strip_ends u) as [Hl Hr].
  repeat split; try assumption.
  unfold str_strip at 1. now rewrite Hl, Hr.
Qed.

Lemma prefix_contains c old s :
  String.prefix old s = true -> str_contains c old = true -> str_contains c s = true.
Proof.
  revert s. induction old as [|a old IH]; intros s Hp Hc; [discriminate Hc|].
  destruct s as [|b s]; [discriminate Hp|].
  rewrite prefix_cons in Hp. destruct (Ascii.eqb a b) eqn:Eab; [|discriminate Hp].
  apply Ascii.eqb_eq in Eab. subst b.
  cbn [str_contains] in *. apply orb_true_iff in Hc. apply orb_true_iff.
  destruct Hc as [Hc|Hc]; [now left|right; now apply IH].
Qed.

Lemma str_replace_absent c old new s :
  str_contains c old = true -> str_contains c s = false -> str_replace old new s = s.
Proof.
  intros Hold Hs. destruct old as [|a old]; [discriminate Hold|].
  unfold str_replace. induction s as [|x s IH]; [reflexivity|].
  cbn [replace_from].
  destruct (String.prefix (String a old) (String x s)) eqn:Ep.
  - pose proof (prefix_contains c _ _ Ep Hold) as H. congruence.
  - cbn [str_contains] in Hs. apply orb_false_iff in Hs. now rewrite IH.
Qed.

Lemma re_sub_slash_s_absent repl s :
  str_contains "/" s = false -> re_sub_slash_s repl false s = s.
Proof.
  induction s as [|c s IH]; [reflexivity|]. cbn [str_contains re_sub_slash_s].
  intros H. apply orb_false_iff in H. destruct H as [Hc Hs].
  rewrite Hc. cbn [andb]. now rewrite IH.
Qed.

Lemma str_contains_append c a b :
  str_contains c (a +:+ b) = str_contains c a || str_contains c b.
Proof.
  induction a as [|x a IH]; [reflexivity|].
  rewrite append_cons. cbn [str_contains]. now rewrite IH, orb_assoc.
Qed.

(** The seven replacements of [format_punct] leave a text without the
    punctuation marks as it is. *)
Lemma format_punct_no_marks text :
  forallb (fun c => negb (str_contains c text)) ["."; "?"; "!"; ","; ":"; ";"]%char = true ->
  format_punct text = str_strip (re_sub_slash_s " " false text).
Proof.
  cbn [forallb]. rewrite !andb_true_iff, !negb_true_iff.
  intros (H1 & H2 & H3 & H4 & H5 & H6 & _).
  unfold format_punct.
  rewrite (str_replace_absent "." "..." "" text) by (reflexivity || assumption).
  rewrite (str_replace_absent "?" " ?" "?" text) by (reflexivity || assumption).
  rewrite (str_replace_absent "!" " !" "!" text) by (reflexivity || assumption).
  rewrite (str_replace_absent "." " ." "." text) by (reflexivity || assumption).
  rewrite (str_replace_absent "," " ," "," text) by (reflexivity || assumption).
  rewrite (str_replace_absent ":" " :" ":" text) by (reflexivity || assumption).
  rewrite (str_replace_absent ";" " ;" ";" text) by (reflexivity || assumption).
  reflexivity.
Qed.

(** X4. On a text that holds none of the characters [. ? ! , : ; /],
    [format_punct] only strips the ends: every run of white space inside the
    text stays as it is. *)
Theorem format_punct_plain_text text :
  forallb (fun c => negb (str_contains c text)) ["."; "?"; "!"; ","; ":"; ";"; "/"]%char = true ->
  format_punct text = str_strip text.
Proof.
  intros H. rewrite format_punct_no_marks.
  - rewrite re_sub_slash_s_absent; [reflexivity|].
    cbn [forallb] in H. rewrite !andb_true_iff, !negb_true_iff in H. tauto.
  - cbn [forallb] in H |- *. rewrite !andb_true_iff in H |- *. tauto.
Qed.

Lemma format_punct_plain_text_witness :
  format_punct "  so   it goes " = str_strip "  so   it goes "
  /\ format_punct "  so   it goes " = "so   it goes".
Proof.
  split; [apply format_punct_plain_text|]; reflexivity.
Defined.

Lemma re_sub_slash_s_app repl a t :
  str_contains "/" a = false ->
  re_sub_slash_s repl false (a +:+ t) = a +:+ re_sub_slash_s repl false t.
Proof.
  induction a as [|c a IH]; [reflexivity|]. cbn [str_contains].
  intros H. apply orb_false_iff in H. destruct H as [Hc Ha].
  rewrite !append_cons. cbn [re_sub_slash_s]. rewrite Hc. cbn [andb].
  now rewrite IH.
Qed.

Lemma re_sub_slash_s_run repl ss b :
  all_chars (fun c => Ascii.eqb c "s") ss = true ->
  re_sub_slash_s repl true (ss +:+ b) = re_sub_slash_s repl true b.
Proof.
  induction ss as [|c ss IH]; [reflexivity|]. cbn [all_chars].
  intros H. apply andb_true_iff in H. destruct H as [Hc Hss].
  rewrite append_cons. cbn [re_sub_slash_s]. rewrite Hc. cbn [andb]. now apply IH.
Qed.

Lemma re_sub_slash_s_after repl b :
  str_contains "/" b = false -> String.prefix "s" b = false ->
  re_sub_slash_s repl true b = b.
Proof.
  destruct b as [|c b]; [reflexivity|]. cbn [str_contains].
  intros H Hp. apply orb_false_iff in H. destruct H as [Hc Hb].
  rewrite prefix_cons in Hp.
  cbn [re_sub_slash_s andb]. rewrite Ascii.eqb_sym.
  destruct (Ascii.eqb "s" c) eqn:Es.
  - destruct b; discriminate Hp.
  - rewrite Hc. cbn [andb]. now rewrite re_sub_slash_s_absent.
Qed.

(** X5. The last substitution of [format_punct] looks for a slash followed
    by letters s: in a text without punctuation marks, a slash with one or
    more letters s after it becomes one space, the letters lost. *)
Theorem format_punct_slash_s a ss b :
  forallb (fun c => negb (str_contains c (a +:+ b))) ["."; "?"; "!"; ","; ":"; ";"; "/"]%char = true ->
  ss <> "" -> all_chars (fun c => Ascii.eqb c "s") ss = true ->
  String.prefix "s" b = false ->
  format_punct (a +:+ "/" +:+ ss +:+ b) = str_strip (a +:+ " " +:+ b).
Proof.
  intros H Hne Hss Hb.
  cbn [forallb] in H. rewrite !andb_true_iff, !negb_true_iff in H.
  rewrite !str_contains_append, !orb_false_iff in H.
  destruct H as ([H1a H1b] & [H2a H2b] & [H3a H3b] & [H4a H4b] & [H5a H5b] & [H6a H6b] & [H7a H7b] & _).
  assert (Hno : forall c, str_contains c "/" = false -> str_contains c "s" = false ->
                  str_contains c a = false -> str_contains c b = false ->
                  str_contains c (a +:+ "/" +:+ ss +:+ b) = false).
  { intros c Hc1 Hc2 Hca Hcb. rewrite !str_contains_append, Hca, Hcb, Hc1. cbn [orb].
    rewrite orb_false_r.
    clear -Hss Hc2. induction ss as [|x ss IH]; [reflexivity|].
    cbn [all_chars] in Hss. apply andb_true_iff in Hss. destruct Hss as [Hx Hss].
    apply Ascii.eqb_eq in Hx. subst x. cbn [str_contains] in *.
    rewrite orb_false_r in Hc2. rewrite Hc2. now apply IH. }
  rewrite format_punct_no_marks.
  2:{ cbn [forallb]. rewrite !andb_true_iff, !negb_true_iff.
      repeat split; apply Hno; (reflexivity || assumption). }
  f_equal.
  rewrite re_sub_slash_s_app by assumption.
  destruct ss as [|x ss]; [congruence|].
  cbn [all_chars] in Hss. apply andb_true_iff in Hss. destruct Hss as [Hx Hss].
  apply Ascii.eqb_eq in Hx. subst x.
  change ("/" +:+ String "s" ss +:+ b) with (String "/" (String "s" (ss +:+ b))).
  cbn [re_sub_slash_s andb]. rewrite prefix_cons.
  change (Ascii.eqb "/" "/") with true. change (Ascii.eqb "s" "s") with true.
  cbn [andb]. replace (String.prefix "" (ss +:+ b)) with true by (now destruct (ss +:+ b)).
  change (Ascii.eqb "s" "/") with false. cbn [andb].
  change (Ascii.eqb "s" "s") with true. cbn [andb].
  rewrite re_sub_slash_s_run by assumption.
  now rewrite re_sub_slash_s_after.
Qed.

Lemma format_punct_slash_s_witness :
  format_punct ("his and" +:+ "/" +:+ "s" +:+ "ometimes hers") = str_strip ("his and" +:+ " " +:+ "ometimes hers").
Proof.
  apply format_punct_slash_s; [reflexivity|discriminate|reflexivity|reflexivity].
Defined.

(** ** Timestamp converter, further properties *)

(** X9. The validators of the request models and [convert_timestamp] agree
    on the units: a value of [timestamps] is refused by the validator of
    [DataRequest], and by that of [CortexPayload], exactly when
    [convert_timestamp] raises its error for an invalid target on it,
    whatever the timestamp. *)
Theorem timestamps_validators_match_converter (t : pyfloat) (value : string) :
  (raises (DataRequest.validate_timestamps_values value)
   <-> convert_timestamp t value = Raise (invalid_target value))
  /\ (raises (CortexPayload.validate_timestamps_values value)
      <-> convert_timestamp t value = Raise (invalid_target value)).
Proof.
  rewrite convert_timestamp_invalid_target.
  unfold DataRequest.validate_timestamps_values, CortexPayload.validate_timestamps_values.
  pose proof (str_in_timestamps value) as Hin.
  destruct (str_in value _); cbn [negb raises].
  - destruct Hin as [Hin _]. specialize (Hin eq_refl). intuition congruence.
  - destruct Hin as [_ Hin].
    assert (value <> "ms" /\ value <> "s" /\ value <> "hms")
      by (repeat split; intros ->; discriminate Hin; tauto).
    tauto.
Qed.

(** ** Segment formatter *)

Lemma format_segments_loop_acc acc segments :
  format_segments_loop acc segments
  = match format_segments_loop [] segments with
    | inl e => inl e
    | inr out => inr (acc ++ out)
    end.
Proof.
  revert acc. induction segments as [|seg rest IH]; intros acc.
  - cbn. now rewrite app_nil_r.
  - cbn [format_segments_loop]. destruct (format_segment seg) as [e|d]; [reflexivity|].
    rewrite (IH (acc ++ [d])), (IH ([] ++ [d])).
    destruct (format_segments_loop [] rest); [reflexivity|].
    now rewrite <- app_assoc.
Qed.

Lemma format_segments_cons seg rest :
  format_segments (seg :: rest)
  = match format_segment seg with
    | inl e => inl e
    | inr d => match format_segments rest with
               | inl e => inl e
               | inr out => inr (d :: out)
               end
    end.
Proof.
  unfold format_segments. cbn [format_segments_loop].
  destruct (format_segment seg) as [e|d]; [reflexivity|].
  now rewrite format_segments_loop_acc.
Qed.

Lemma format_segment_inr seg d :
  format_segment seg = inr d ->
  exists start end_ text,
    seg !! "start" = Some start /\ seg !! "end" = Some end_
    /\ seg !! "text" = Some (SegStr text)
    /\ d = <["word" := SegStr (str_strip text)]> (<["end" := end_]> (<["start" := start]> ∅)).
Proof.
  unfold format_segment, seg_getitem, seg_strip.
  destruct (seg !! "start") as [start|]; [|discriminate].
  destruct (seg !! "end") as [end_|]; [|discriminate].
  destruct (seg !! "text") as [[x|text|]|]; try discriminate.
  intros [= <-]. now exists start, end_, text.
Qed.

Lemma formatted_lookup (start end_ word : seg_value) :
  let d : segment := <["word" := word]> (<["end" := end_]> (<["start" := start]> ∅)) in
  d !! "start" = Some start /\ d !! "end" = Some end_ /\ d !! "word" = Some word
  /\ forall key, key <> "start" -> key <> "end" -> key <> "word" -> d !! key = None.
Proof.
  cbn zeta. split; [|split; [|split]].
  - rewrite !lookup_insert_ne by discriminate. apply lookup_insert_eq.
  - rewrite lookup_insert_ne by discriminate. apply lookup_insert_eq.
  - apply lookup_insert_eq.
  - intros key H1 H2 H3. rewrite !lookup_insert_ne by congruence. apply lookup_empty.
Qed.

(** X10. When [format_segments] returns, it returns one dict for each
    segment, in the order of the segments; the dict of a segment holds its
    [start] and its [end] as they are and, under [word], its [text] without
    the white space at its ends, and it holds no other key. *)
Theorem format_segments_shape segments out :
  format_segments segments = inr out ->
  length out = length segments
  /\ forall i seg, segments !! i = Some seg ->
       exists start end_ text d,
         seg !! "start" = Some start /\ seg !! "end" = Some end_
         /\ seg !! "text" = Some (SegStr text)
         /\ out !! i = Some d
         /\ d !! "start" = Some start /\ d !! "end" = Some end_
         /\ d !! "word" = Some (SegStr (str_strip text))
         /\ str_strip (str_strip text) = str_strip text
         /\ forall key, key <> "start" -> key <> "end" -> key <> "word" -> d !! key = None.
Proof.
  revert out. induction segments as [|seg0 rest IH]; intros out.
  - intros [= <-]. split; [reflexivity|]. intros i seg H. discriminate H.
  - rewrite format_segments_cons.
    destruct (format_segment seg0) as [e|d0] eqn:E0; [discriminate|].
    destruct (format_segments rest) as [e|out'] eqn:Er; [discriminate|].
    intros [= <-]. destruct (IH out' eq_refl) as [Hlen Hi].
    split; [cbn; now rewrite Hlen|].
    intros [|i] seg Hseg.
    + cbn in Hseg. injection Hseg as <-.
      destruct (format_segment_inr _ _ E0) as (start & end_ & text & Hs & He & Ht & ->).
      destruct (formatted_lookup start end_ (SegStr (str_strip text))) as (L1 & L2 & L3 & L4).
      exists start, end_, text. eexists. repeat (split; [eassumption || reflexivity|]).
      split; [|exact L4].
      destruct (str_strip_ends text) as [Hl Hr]. unfold str_strip at 1. now rewrite Hl, Hr.
    + cbn in Hseg. destruct (Hi i seg Hseg) as (start & end_ & text & d & H).
      exists start, end_, text, d. exact H.
Qed.

Lemma format_segment_hello :
  format_segment seg_hello
  = inr seg_hello_formatted.
Proof.
  unfold format_segment, seg_getitem, seg_hello, seg_hello_formatted.
  rewrite !lookup_insert_ne by discriminate. rewrite lookup_insert_eq.
  rewrite lookup_insert_ne by discriminate. rewrite lookup_insert_eq.
  rewrite lookup_insert_eq. reflexivity.
Qed.

Lemma format_segments_hello :
  format_segments [seg_hello]
  = inr [seg_hello_formatted].
Proof. rewrite format_segments_cons, format_segment_hello. reflexivity. Qed.

Lemma format_segments_shape_witness :
  length [seg_hello_formatted]
  = length [seg_hello]
  /\ forall i seg, [seg_hello] !! i = Some seg ->
       exists start end_ text d,
         seg !! "start" = Some start /\ seg !! "end" = Some end_
         /\ seg !! "text" = Some (SegStr text)
         /\ [seg_hello_formatted]
            !! i = Some d
         /\ d !! "start" = Some start /\ d !! "end" = Some end_
         /\ d !! "word" = Some (SegStr (str_strip text))
         /\ str_strip (str_strip text) = str_strip text
         /\ forall key, key <> "start" -> key <> "end" -> key <> "word" -> d !! key = None.
Proof. apply (format_segments_shape [seg_hello]). exact format_segments_hello. Defined.

(** X11. [format_segments] raises exactly when some segment cannot be
    formatted, and the error is that of the first such segment.  A segment
    cannot be formatted when it lacks [start], [end] or [text], looked up in
    this order ([KeyError] with the key), or when its text is no [str]
    ([AttributeError] for [strip]). *)
Theorem format_segments_first_error :
  (forall segments e,
     format_segments segments = inl e
     <-> exists i seg,
           segments !! i = Some seg /\ format_segment seg = inl e
           /\ forall j seg', (j < i)%nat -> segments !! j = Some seg' ->
                exists d, format_segment seg' = inr d)
  /\ (forall seg e,
        format_segment seg = inl e
        <-> match seg !! "start", seg !! "end", seg !! "text" with
            | None, _, _ => e = KeyError "start"
            | Some _, None, _ => e = KeyError "end"
            | Some _, Some _, None => e = KeyError "text"
            | Some _, Some _, Some (SegStr _) => False
            | Some _, Some _, Some text => e = StripAttributeError text
            end).
Proof.
  split.
  - induction segments as [|seg0 rest IH]; intros e.
    + split; [discriminate|]. intros (i & seg & H & _). discriminate H.
    + rewrite format_segments_cons. split.
      * destruct (format_segment seg0) as [e0|d0] eqn:E0.
        -- intros [= ->]. exists 0%nat, seg0. repeat split; [exact E0|]. intros j seg' Hj. lia.
        -- destruct (format_segments rest) as [e1|out] eqn:Er; [|discriminate].
           intros [= ->]. destruct (proj1 (IH e) eq_refl) as (i & seg & Hi & He & Hbefore).
           exists (S i), seg. repeat split; [exact Hi|exact He|].
           intros [|j] seg' Hj Hseg'.
           ++ cbn in Hseg'. injection Hseg' as <-. now exists d0.
           ++ apply (Hbefore j); [lia|exact Hseg'].
      * intros (i & seg & Hi & He & Hbefore). destruct i as [|i].
        -- cbn in Hi. injection Hi as <-. now rewrite He.
        -- destruct (Hbefore 0%nat seg0) as [d0 Hd0]; [lia|reflexivity|].
           rewrite Hd0.
           assert (Hr : format_segments rest = inl e).
           { apply IH. exists i, seg. repeat split; [exact Hi|exact He|].
             intros j seg' Hj Hseg'. apply (Hbefore (S j)); [lia|exact Hseg']. }
           now rewrite Hr.
  - intros seg e. unfold format_segment, seg_getitem, seg_strip.
    destruct (seg !! "start") as [start|]; [|split; congruence].
    destruct (seg !! "end") as [end_|]; [|split; congruence].
    destruct (seg !! "text") as [[x|text|]|]; split; congruence || tauto.
Qed.

(** X12. What [format_segments] returns is no input for it: the formatted
    segments hold their text under [word], so formatting them again raises
    [KeyError] for [text] as soon as there is one. *)
Theorem format_segments_not_twice segments d out :
  format_segments segments = inr (d :: out) ->
  format_segments (d :: out) = inl (KeyError "text").
Proof.
  destruct segments as [|seg0 rest]; [discriminate|].
  rewrite format_segments_cons.
  destruct (format_segment seg0) as [e|d0] eqn:E0; [discriminate|].
  destruct (format_segments rest) as [e|out']; [discriminate|].
  intros [= <- <-].
  destruct (format_segment_inr _ _ E0) as (start & end_ & text & _ & _ & _ & ->).
  destruct (formatted_lookup start end_ (SegStr (str_strip text))) as (L1 & L2 & _ & L4).
  rewrite format_segments_cons. unfold format_segment at 1, seg_getitem.
  rewrite L1, L2, L4 by discriminate. reflexivity.
Qed.

Lemma format_segments_not_twice_witness :
  format_segments
    [seg_hello_formatted]
  = inl (KeyError "text").
Proof. apply (format_segments_not_twice [seg_hello]). exact format_segments_hello. Defined.

(** X13. Formatting two lists of segments one after the other is
    formatting each and putting the results together; it raises the error of
    the first list when there is one, else that of the second. *)
Theorem format_segments_app a b :
  format_segments (a ++ b)
  = match format_segments a with
    | inl e => inl e
    | inr out_a =>
        match format_segments b with
        | inl e => inl e
        | inr out_b => inr (out_a ++ out_b)
        end
    end.
Proof.
  induction a as [|seg a IH].
  - cbn [app]. change (format_segments []) with (@inr seg_exn (list (gmap string seg_value)) []).
    destruct (format_segments b); reflexivity.
  - cbn [app]. rewrite !format_segments_cons, IH.
    destruct (format_segment seg); [reflexivity|].
    destruct (format_segments a); [reflexivity|].
    destruct (format_segments b); reflexivity.
Qed.

(** ** File remover *)

Lemma delete_file_cases filepath w :
  let p := parse_path filepath in
  match files w !! p with
  | Some _ =>
      delete_file filepath w
      = (Return tt, {| dirs := dirs w; files := delete p (files w);
                       spawned := spawned w; logged := logged w |})
  | None =>
      if is_dir p w then delete_file filepath w = (Raise (IsADirectoryError (path_str p)), w)
      else delete_file filepath w = (Return tt, w)
  end.
Proof.
  intros p. unfold delete_file. fold p.
  destruct (files w !! p) as [content|] eqn:Ef.
  - step. assert (Hf : is_file p w = true) by (apply is_file_true; rewrite Ef; eauto).
    rewrite Hf, orb_true_r. unfold path_unlink. now rewrite Ef.
  - step. assert (Hf : is_file p w = false) by now apply is_file_false.
    rewrite Hf, orb_false_r. destruct (is_dir p w) eqn:Ed; [|reflexivity].
    unfold path_unlink. now rewrite Ef, Ed.
Qed.

(** X14. [delete_file] raises exactly when the path is a directory, with
    [IsADirectoryError] and nothing changed.  When it returns, no file is left
    at the path, every other file is as before, and so are the directories,
    the processes and the log; on a path where nothing exists it returns
    with the world as it is. *)
Theorem delete_file_outcomes filepath w :
  let p := parse_path filepath in
  (forall e w', delete_file filepath w = (Raise e, w') ->
     e = IsADirectoryError (path_str p) /\ w' = w /\ p ∈ dirs w /\ files w !! p = None)
  /\ (p ∈ dirs w -> files w !! p = None -> raises (delete_file filepath w).1)
  /\ (forall w', delete_file filepath w = (Return tt, w') ->
        files w' = delete p (files w)
        /\ files w' !! p = None
        /\ (forall q, q <> p -> files w' !! q = files w !! q)
        /\ dirs w' = dirs w /\ spawned w' = spawned w /\ logged w' = logged w)
  /\ ((p ∉ dirs w) -> files w !! p = None -> delete_file filepath w = (Return tt, w)).
Proof.
  intros p. pose proof (delete_file_cases filepath w) as H. fold p in H. cbv zeta in H.
  destruct (files w !! p) as [content|] eqn:Ef; [|destruct (is_dir p w) eqn:Ed].
  - rewrite H. split; [intros e w' [=]|]. split; [intros _ [=]|]. split.
    + intros w' [= <-]. cbn [files dirs spawned logged].
      split; [reflexivity|]. split; [apply lookup_delete_eq|].
      split; [|repeat split]. intros q Hq. now apply lookup_delete_ne.
    + intros _ [=].
  - rewrite H. apply is_dir_true in Ed. split.
    + intros e w' [= <- <-]. repeat split; assumption.
    + split; [intros _ _; exact I|]. split; [intros w' [=]|]. intros Hn. contradiction.
  - rewrite H. apply is_dir_false in Ed. split; [intros e w' [=]|].
    split; [intros Hd; contradiction|]. split; [|reflexivity].
    intros w' [= <-]. rewrite delete_id by assumption.
    repeat split; try assumption.
Qed.

(** X15. In a world where no path is both a directory and a file,
    [delete_file] can be repeated: once it has returned, a second call
    returns too and changes nothing. *)
Theorem delete_file_idempotent filepath w w' :
  (parse_path filepath ∈ dirs w -> files w !! parse_path filepath = None) ->
  delete_file filepath w = (Return tt, w') ->
  delete_file filepath w' = (Return tt, w').
Proof.
  intros Hwf Hrun.
  pose proof (delete_file_cases filepath w) as H. cbv zeta in H.
  pose proof (delete_file_cases filepath w') as H'. cbv zeta in H'.
  set (p := parse_path filepath) in *.
  destruct (files w !! p) as [content|] eqn:Ef; [|destruct (is_dir p w) eqn:Ed].
  - rewrite H in Hrun. injection Hrun as <-. cbn [files] in H'.
    rewrite lookup_delete_eq in H'.
    assert (Hd : is_dir p w = false).
    { apply is_dir_false. intros Hin. specialize (Hwf Hin). congruence. }
    unfold is_dir in H' |- *. cbn [dirs] in H'. unfold is_dir in Hd. now rewrite Hd in H'.
  - rewrite H in Hrun. discriminate Hrun.
  - rewrite H in Hrun. injection Hrun as <-. now rewrite Ef, Ed in H'.
Qed.

Lemma delete_file_idempotent_witness :
  let gone := {| dirs := dirs w0; files := delete (parse_path "/tmp/a.mp3") (files w0);
                 spawned := spawned w0; logged := logged w0 |} in
  delete_file "/tmp/a.mp3" gone = (Return tt, gone).
Proof.
  intros gone. apply (delete_file_idempotent "/tmp/a.mp3" w0).
  - intros Hin. exfalso. revert Hin.
    change (parse_path "/tmp/a.mp3" ∉ dirs w0). not_in_dirs.
  - pose proof (delete_file_cases "/tmp/a.mp3" w0) as H. cbv zeta in H.
    assert (E : files w0 !! parse_path "/tmp/a.mp3" = Some "ID3") by lookup_file.
    rewrite E in H. exact H.
Defined.

(** ** Audio acquirer, further properties *)

Lemma write_chunks_run p chunks content w :
  write_chunks p chunks (with_file p content w)
  = (Return tt, with_file p (content +:+ body_before_eof chunks) w).
Proof.
  revert content. induction chunks as [|chunk rest IH]; intros content.
  - cbn [write_chunks body_before_eof]. now rewrite append_nil_r.
  - destruct chunk as [|c chunk].
    + cbn [write_chunks body_before_eof]. now rewrite append_nil_r.
    + cbn [write_chunks body_before_eof].
      step_with ltac:(apply write_with_file).
      rewrite IH. now rewrite append_assoc.
Qed.

Lemma open_w_raise p w e w' : open_w p w = (Raise e, w') -> w' = w.
Proof.
  unfold open_w. destruct (is_dir p w); [now intros [= _ <-]|].
  destruct (is_dir (path_parent p) w); [discriminate|].
  destruct (is_file (path_parent p) w); now intros [= _ <-].
Qed.

(** The world after the two log lines of a download. *)
Lemma download_audio_file_200 env url filename url_headers w type :
  let response := http_get env url (default [] url_headers) in
  let name := filename +:+ default "None" (guess_extension env type) in
  let logs := ["Downloading audio file from " +:+ url +:+ " to " +:+ filename +:+ "...";
               "New file name: " +:+ name] in
  status response = 200%Z -> content_type response = Some type ->
  forall w1,
    w1 = {| dirs := dirs w; files := files w; spawned := spawned w;
            logged := logged w ++ logs |} ->
    download_audio_file env url filename url_headers w
    = match open_w (parse_path name) w1 with
      | (Return p, _) =>
          (Return name, with_file (parse_path name) (body_before_eof (reads response)) w1)
      | (Raise e, _) => (Raise e, w1)
      end.
Proof.
  intros response name logs Hstatus Htype w1 Hw1.
  unfold download_audio_file. fold response.
  step. rewrite Hstatus. change (200 =? 200)%Z with true. cbv iota.
  rewrite Htype. step. fold name.
  step.
  match goal with |- (open_w _ ≫= _) ?w2 = _ =>
    replace w2 with w1
      by (subst w1; apply World_eq; cbn [dirs files spawned logged]; try reflexivity;
          now rewrite <- app_assoc)
  end.
  destruct (open_w (parse_path name) w1) as [[fp|e] w2] eqn:Eo.
  - destruct (open_w_inv _ _ _ _ Eo) as (-> & _ & _ & ->).
    step_with ltac:(exact Eo).
    step_with ltac:(apply write_chunks_run).
    reflexivity.
  - pose proof (open_w_raise _ _ _ _ Eo) as ->.
    erewrite bind_of_Raise; [reflexivity|exact Eo].
Qed.

Lemma download_audio_file_other_status env url filename url_headers w r w' :
  status (http_get env url (default [] url_headers)) <> 200%Z ->
  download_audio_file env url filename url_headers w = (r, w') ->
  raises r /\ files w' = files w /\ dirs w' = dirs w /\ spawned w' = spawned w.
Proof.
  intros Hs. unfold download_audio_file. step.
  destruct (Z.eqb_spec (status (http_get env url (default [] url_headers))) 200);
    [contradiction|].
  unfold raise. intros [= <- <-]. repeat split.
Qed.

(** X16. When the server answers 200 with a content type, the destination
    is no directory and its parent directory exists, [download_audio_file]
    returns the file name with the guessed extension ([None] printed when
    none is guessed) and the file at that name holds exactly the chunks read
    before the first empty one, end to end, whatever it held before; no
    directory is made, no process launched, two lines are logged. *)
Theorem download_audio_file_success env url filename url_headers w type :
  let response := http_get env url (default [] url_headers) in
  let name := filename +:+ default "None" (guess_extension env type) in
  status response = 200%Z -> content_type response = Some type ->
  (parse_path name ∉ dirs w) -> path_parent (parse_path name) ∈ dirs w ->
  exists w',
    download_audio_file env url filename url_headers w = (Return name, w')
    /\ files w' = <[parse_path name := body_before_eof (reads response)]> (files w)
    /\ dirs w' = dirs w /\ spawned w' = spawned w
    /\ logged w'
       = logged w ++ ["Downloading audio file from " +:+ url +:+ " to " +:+ filename +:+ "...";
                      "New file name: " +:+ name].
Proof.
  intros response name Hstatus Htype Hnd Hpar.
  rewrite (download_audio_file_200 env url filename url_headers w type Hstatus Htype _ eq_refl).
  fold response name.
  rewrite open_w_ok by assumption.
  eexists. split; [reflexivity|]. cbn [files dirs spawned logged with_file].
  repeat split.
Qed.

Lemma open_w_fails p w :
  p ∈ dirs w \/ path_parent p ∉ dirs w -> exists e, open_w p w = (Raise e, w).
Proof.
  intros H. unfold open_w. destruct (is_dir p w) eqn:Hd; [now eexists|].
  destruct H as [H|H]; [apply is_dir_true in H; congruence|].
  destruct (is_dir (path_parent p) w) eqn:Hp; [now apply is_dir_true in Hp|].
  destruct (is_file (path_parent p) w); now eexists.
Qed.

(** X17. A download that fails before the body is copied leaves the file
    system as it was.  On a status other than 200, on an answer without a
    content type, and on a destination that cannot be opened (a directory
    stands there, or its parent directory is missing), [download_audio_file]
    raises, with no file created or changed, no directory made and no
    process launched. *)
Theorem download_audio_file_failure_frame env url filename url_headers w :
  let response := http_get env url (default [] url_headers) in
  status response <> 200%Z
  \/ (status response = 200%Z /\ content_type response = None)
  \/ (exists type,
        status response = 200%Z /\ content_type response = Some type
        /\ (parse_path (filename +:+ default "None" (guess_extension env type)) ∈ dirs w
            \/ path_parent (parse_path (filename +:+ default "None" (guess_extension env type)))
               ∉ dirs w)) ->
  exists e w',
    download_audio_file env url filename url_headers w = (Raise e, w')
    /\ files w' = files w /\ dirs w' = dirs w /\ spawned w' = spawned w.
Proof.
  intros response [Hs|[[Hs Et]|(type & Hs & Et & Hopen)]].
  - destruct (download_audio_file env url filename url_headers w) as [r w'] eqn:Hrun.
    destruct (download_audio_file_other_status _ _ _ _ _ _ _ Hs Hrun) as [Hr H].
    destruct r as [v|e]; [contradiction|]. now exists e, w'.
  - unfold download_audio_file. fold response.
    eexists _, _. split.
    + step. rewrite Hs. change (200 =? 200)%Z with true. cbv iota. rewrite Et.
      erewrite bind_of_Raise; reflexivity.
    + repeat split.
  - rewrite (download_audio_file_200 env url filename url_headers w type Hs Et _ eq_refl).
    match goal with |- context [open_w ?p ?w1] =>
      destruct (open_w_fails p w1 Hopen) as [e ->] end.
    eexists _, _. split; [reflexivity|]. repeat split.
Qed.

Lemma download_audio_file_w0 :
  download_audio_file env2 "https://example.org/a" "/tmp/b" None w0
  = (Return "/tmp/b.mp3", w0_mp3).
Proof.
  rewrite (download_audio_file_200 env2 "https://example.org/a" "/tmp/b" None w0 "audio/mpeg"
             eq_refl eq_refl _ eq_refl).
  change ("/tmp/b" +:+ default "None" (guess_extension env2 "audio/mpeg")) with "/tmp/b.mp3".
  rewrite open_w_ok.
  - reflexivity.
  - cbn [dirs]. not_in_dirs.
  - cbn [dirs]. in_dirs.
Qed.

Lemma download_audio_file_success_witness :
  exists w',
    download_audio_file env2 "https://example.org/a" "/tmp/b" None w0 = (Return "/tmp/b.mp3", w')
    /\ files w' = <[parse_path "/tmp/b.mp3" := "ID3data"]> (files w0)
    /\ dirs w' = dirs w0 /\ spawned w' = spawned w0
    /\ logged w'
       = logged w0 ++ ["Downloading audio file from https://example.org/a to /tmp/b...";
                       "New file name: /tmp/b.mp3"].
Proof.
  apply (download_audio_file_success env2 "https://example.org/a" "/tmp/b" None w0 "audio/mpeg").
  - reflexivity.
  - reflexivity.
  - change ("/tmp/b" +:+ default "None" (guess_extension env2 "audio/mpeg")) with "/tmp/b.mp3".
    not_in_dirs.
  - change ("/tmp/b" +:+ default "None" (guess_extension env2 "audio/mpeg")) with "/tmp/b.mp3".
    in_dirs.
Defined.

Lemma download_audio_file_failure_frame_witness :
  exists e w',
    download_audio_file env2 "https://example.org/a" "/nowhere/b" None w0 = (Raise e, w')
    /\ files w' = files w0 /\ dirs w' = dirs w0 /\ spawned w' = spawned w0.
Proof.
  apply (download_audio_file_failure_frame env2 "https://example.org/a" "/nowhere/b" None w0).
  right. right. exists "audio/mpeg". split; [reflexivity|]. split; [reflexivity|].
  right. change ("/nowhere/b" +:+ default "None" (guess_extension env2 "audio/mpeg"))
    with "/nowhere/b.mp3".
  change (path_parent (parse_path "/nowhere/b.mp3")) with (parse_path "/nowhere").
  not_in_dirs.
Defined.

(** X18. Cleaning up after a download: when [download_audio_file] has
    returned a name at which no file stood before, [delete_file] on that
    name returns and the files and directories are again those from before
    the download. *)
Theorem delete_file_undoes_download env url filename url_headers w name w1 :
  download_audio_file env url filename url_headers w = (Return name, w1) ->
  files w !! parse_path name = None ->
  exists w2,
    delete_file name w1 = (Return tt, w2)
    /\ files w2 = files w /\ dirs w2 = dirs w /\ spawned w2 = spawned w.
Proof.
  intros Hrun Hnone.
  destruct (Z.eq_dec (status (http_get env url (default [] url_headers))) 200%Z) as [Hs|Hs].
  2:{ now destruct (download_audio_file_other_status _ _ _ _ _ _ _ Hs Hrun) as [[] _]. }
  destruct (content_type (http_get env url (default [] url_headers))) as [type|] eqn:Et.
  2:{ revert Hrun. unfold download_audio_file.
      step. rewrite Hs. change (200 =? 200)%Z with true. cbv iota. rewrite Et.
      erewrite bind_of_Raise; [|reflexivity]. discriminate. }
  rewrite (download_audio_file_200 env url filename url_headers w type Hs Et _ eq_refl) in Hrun.
  match type of Hrun with context [open_w ?p ?w1] =>
    destruct (open_w p w1) as [[fp|e1] w2] end; [|discriminate Hrun].
  injection Hrun as <- <-.
  pose proof (delete_file_cases
                (filename +:+ default "None" (guess_extension env type))
                (with_file (parse_path (filename +:+ default "None" (guess_extension env type)))
                   (body_before_eof (reads (http_get env url (default [] url_headers))))
                   {| dirs := dirs w; files := files w; spawned := spawned w;
                      logged := logged w
                        ++ ["Downloading audio file from " +:+ url +:+ " to " +:+ filename +:+ "...";
                            "New file name: " +:+ (filename +:+ default "None" (guess_extension env type))] |}))
    as H.
  cbv zeta in H. cbn [files with_file dirs spawned logged] in H.
  rewrite lookup_insert_eq in H.
  eexists. split; [exact H|]. cbn [files dirs spawned].
  split; [|split; reflexivity]. now apply delete_insert_id.
Qed.

Lemma delete_file_undoes_download_witness :
  exists w2,
    delete_file "/tmp/b.mp3" w0_mp3 = (Return tt, w2)
    /\ files w2 = files w0 /\ dirs w2 = dirs w0 /\ spawned w2 = spawned w0.
Proof.
  apply (delete_file_undoes_download env2 "https://example.org/a" "/tmp/b" None w0).
  - exact download_audio_file_w0.
  - lookup_file.
Defined.

(** ** Audio normalizer, further properties *)

Lemma with_suffix_wav_same p : path_suffix p = ".wav" -> with_suffix p ".wav" = Return p.
Proof.
  intros Hsuf. destruct (stem_suffix p) as [Hsplit _].
  assert (Hname : path_name p <> "").
  { intros E. unfold path_suffix in Hsuf. rewrite E in Hsuf. discriminate Hsuf. }
  unfold with_suffix. cbn [str_contains Ascii.eqb orb].
  change (negb (".wav" =? "")%string && negb (String.prefix "." ".wav")
          || (".wav" =? ".")%string) with false. cbv iota.
  destruct (String.eqb_spec (path_name p) ""); [contradiction|].
  rewrite Hsuf. change (".wav" =? "")%string with false. cbv iota.
  assert (Hstem : substring 0 (String.length (path_name p) - String.length ".wav") (path_name p)
                  = path_stem p).
  { rewrite <- Hsplit at 1 2. rewrite Hsuf, length_append.
    replace (String.length (path_stem p) + String.length ".wav" - String.length ".wav")%nat
      with (String.length (path_stem p)) by lia.
    apply substring_append_l. }
  rewrite Hstem.
  replace (path_stem p +:+ ".wav") with (path_name p)
    by (rewrite <- Hsuf; exact (eq_sym Hsplit)).
  f_equal. destruct p as [r ps]. unfold path_name in *. cbn [root parts] in *. f_equal.
  symmetry. apply app_removelast_last. intros ->. now apply Hname.
Qed.

(** X19. A file whose suffix is [.wav] already is converted in place: the
    path that [convert_file_to_wav] hands to the transcoder as its output is
    the input path itself, in the one command it launches. *)
Theorem convert_file_to_wav_in_place env filepath w :
  let p := parse_path filepath in
  is_dir p w || is_file p w = true -> path_suffix p = ".wav" ->
  with_suffix p ".wav" = Return p
  /\ exists r w',
       convert_file_to_wav env filepath w = (r, w')
       /\ spawned w' = spawned w ++ [ffmpeg_cmd p p]
       /\ (forall name, r = Return name -> name = path_str p).
Proof.
  intros p Hex Hsuf. pose proof (with_suffix_wav_same p Hsuf) as Hws.
  split; [exact Hws|].
  unfold convert_file_to_wav. fold p.
  step. rewrite Hex. cbn [negb].
  step_with ltac:(unfold lift; rewrite Hws; reflexivity).
  destruct (exec env (ffmpeg_cmd p p) w) as [[[[code out] err]|e] wfs] eqn:Eexec.
  - step_with ltac:(unfold run_subprocess; rewrite Eexec; reflexivity).
    cbn [fst snd]. destruct (negb (code =? 0)%Z).
    + eexists _, _. split; [reflexivity|]. split; [reflexivity|]. intros name [=].
    + eexists _, _. split; [reflexivity|]. split; [reflexivity|]. now intros name [= <-].
  - erewrite bind_of_Raise; [|unfold run_subprocess; rewrite Eexec; reflexivity].
    eexists _, _. split; [reflexivity|]. split; [reflexivity|]. intros name [=].
Qed.

Lemma convert_file_to_wav_in_place_witness :
  with_suffix (parse_path "/tmp/a.wav") ".wav" = Return (parse_path "/tmp/a.wav")
  /\ exists r w',
       convert_file_to_wav env1 "/tmp/a.wav" w0_wav = (r, w')
       /\ spawned w'
          = spawned w0_wav ++ [ffmpeg_cmd (parse_path "/tmp/a.wav") (parse_path "/tmp/a.wav")]
       /\ (forall name, r = Return name -> name = path_str (parse_path "/tmp/a.wav")).
Proof.
  apply (convert_file_to_wav_in_place env1 "/tmp/a.wav" w0_wav).
  - apply exists_true. right. lookup_file. eauto.
  - reflexivity.
Defined.

(** ** Diarization config builder, further properties *)

(** X20. [load_nemo_config] reads and parses the profile before it touches
    anything: when there is no profile file for the domain type (an unknown
    domain type among the reasons) it raises [IsADirectoryError] when a
    directory stands there, [NotADirectoryError] when the path runs through
    a regular file, and [FileNotFoundError] otherwise, and when the profile
    does not parse it raises the parser's error; in each case the world is as
    before, no directory made and no manifest written. *)
Theorem load_nemo_config_profile_errors env domain_type storage_path output_path w :
  let cfg_path := cfg_path_of env domain_type in
  (files w !! cfg_path = None ->
   load_nemo_config env domain_type storage_path output_path w
   = (Raise (if is_dir cfg_path w then IsADirectoryError (path_str cfg_path)
             else if under_a_file cfg_path w then NotADirectoryError (path_str cfg_path)
             else FileNotFoundError (path_str cfg_path)), w))
  /\ (forall text e,
        files w !! cfg_path = Some text -> OmegaConf_load env text = Raise e ->
        load_nemo_config env domain_type storage_path output_path w = (Raise e, w)).
Proof.
  intros cfg_path. split.
  - intros Hnone. unfold load_nemo_config. fold (cfg_path_of env domain_type). fold cfg_path.
    erewrite bind_of_Raise; [reflexivity|].
    unfold read_text. rewrite Hnone.
    now destruct (is_dir cfg_path w), (under_a_file cfg_path w).
  - intros text e Hfile Hload.
    unfold load_nemo_config. fold (cfg_path_of env domain_type). fold cfg_path.
    step_with ltac:(unfold read_text; rewrite Hfile; reflexivity).
    erewrite bind_of_Raise; [reflexivity|]. unfold lift. now rewrite Hload.
Qed.

(** A domain type that leads through the general profile, a regular file. *)
Example load_nemo_config_under_a_file :
  load_nemo_config env0 "general.yaml/x" "store" "out" w0
  = (Raise (NotADirectoryError "/srv/app/config/nemo/diar_infer_general.yaml/x.yaml"), w0).
Proof.
  assert (Hp : cfg_path_of env0 "general.yaml/x"
               = parse_path "/srv/app/config/nemo/diar_infer_general.yaml/x.yaml")
    by (vm_compute; reflexivity).
  assert (Hf : files w0 !! parse_path "/srv/app/config/nemo/diar_infer_general.yaml/x.yaml"
               = None) by lookup_file.
  assert (Hd : is_dir (parse_path "/srv/app/config/nemo/diar_infer_general.yaml/x.yaml") w0
               = false) by (apply is_dir_false; not_in_dirs).
  assert (Hu : under_a_file
                 (parse_path "/srv/app/config/nemo/diar_infer_general.yaml/x.yaml") w0 = true).
  { unfold under_a_file. apply existsb_exists.
    exists 5%nat. split; [cbn; tauto|].
    apply is_file_true.
    change {| root := _; parts := _ |}
      with (parse_path "/srv/app/config/nemo/diar_infer_general.yaml").
    eexists. lookup_file. }
  unfold load_nemo_config. fold (cfg_path_of env0 "general.yaml/x").
  erewrite bind_of_Raise; [reflexivity|].
  rewrite Hp. unfold read_text. rewrite Hf, Hd, Hu. reflexivity.
Qed.

Lemma bind_inv {A B} (c : M A) (k : A -> M B) w r w' :
  (c ≫= k) w = (r, w') ->
  (exists e, c w = (Raise e, w') /\ r = Raise e)
  \/ (exists x w1, c w = (Return x, w1) /\ k x w1 = (r, w')).
Proof.
  unfold mbind, M_bind, bind. destruct (c w) as [[x|e] w1].
  - intros H. right. now exists x, w1.
  - intros [= <- <-]. left. now exists e.
Qed.

Lemma path_mkdir_exist_ok_frame_any p w r w' :
  path_mkdir_exist_ok p w = (r, w') -> only_mkdirs w w'.
Proof.
  unfold path_mkdir_exist_ok.
  destruct (os_mkdir p w) as [[[]|e] w1] eqn:E; apply os_mkdir_frame in E as [Hfr _].
  - now intros [= _ <-].
  - destruct e; try destruct (is_dir p w1); now intros [= _ <-].
Qed.

Lemma mkdir_parents_frame_any r ps n w res w' :
  mkdir_parents r ps n w = (res, w') -> only_mkdirs w w'.
Proof.
  revert w res w'. induction n as [|k IH]; intros w res w'; cbn [mkdir_parents].
  - destruct (os_mkdir _ w) as [[[]|e] w1] eqn:E; apply os_mkdir_frame in E as [Hfr _].
    + now intros [= _ <-].
    + destruct e; try destruct (is_dir _ w1); now intros [= _ <-].
  - destruct (os_mkdir _ w) as [[[]|e] w1] eqn:E; apply os_mkdir_frame in E as [Hfr _].
    + now intros [= _ <-].
    + destruct e; try (destruct (is_dir _ w1); now intros [= _ <-]).
      intros [(e & H1 & _)|(x & w2 & H1 & H2)]%bind_inv.
      * apply IH in H1. eapply only_mkdirs_trans; eassumption.
      * apply IH in H1. apply path_mkdir_exist_ok_frame_any in H2.
        eapply only_mkdirs_trans; [exact Hfr|]. eapply only_mkdirs_trans; eassumption.
Qed.

Lemma changes_only_refl p w : changes_only p w w.
Proof. repeat split; auto. Qed.

Lemma changes_only_trans p w1 w2 w3 :
  changes_only p w1 w2 -> changes_only p w2 w3 -> changes_only p w1 w3.
Proof.
  intros (A1 & A2 & A3 & A4) (B1 & B2 & B3 & B4).
  repeat split; [congruence|congruence|set_solver|].
  intros q Hq. rewrite B4, A4 by assumption. reflexivity.
Qed.

Lemma only_mkdirs_changes_only p w w' : only_mkdirs w w' -> changes_only p w w'.
Proof.
  intros (Hf & Hs & Hl & Hd & _). repeat split; try assumption. intros q _. now rewrite Hf.
Qed.

Lemma with_file_changes_only p content w : changes_only p w (with_file p content w).
Proof.
  repeat split; cbn [with_file files dirs spawned logged]; auto.
  intros q Hq. now apply lookup_insert_ne.
Qed.

Lemma maybe_mkdir_frame_any p (found : bool) w r w' :
  (if negb found then path_mkdir_parents p else ret tt) w = (r, w') -> only_mkdirs w w'.
Proof.
  destruct found; cbn [negb].
  - unfold ret. intros [= _ <-]. apply only_mkdirs_refl.
  - apply mkdir_parents_frame_any.
Qed.

(** X21. Whether it returns or raises, [load_nemo_config] launches no
    process, logs nothing, removes no directory and changes no file but the
    manifest. *)
Theorem load_nemo_config_frame env domain_type storage_path output_path w r w' :
  load_nemo_config env domain_type storage_path output_path w = (r, w') ->
  spawned w' = spawned w /\ logged w' = logged w /\ dirs w ⊆ dirs w'
  /\ forall q, q <> manifest_path_of env storage_path -> files w' !! q = files w !! q.
Proof.
  intros Hrun. change (changes_only (manifest_path_of env storage_path) w w').
  revert Hrun. unfold load_nemo_config.
  fold (cfg_path_of env domain_type) (storage_dir_of env storage_path).
  fold (manifest_path_of env storage_path) (output_dir_of env output_path).
  set (mp := manifest_path_of env storage_path).
  intros [(e & H & _)|(text & w1 & Hread & H)]%bind_inv.
  { unfold read_text in H. destruct (files w !! _); [discriminate|].
    destruct (is_dir _ w); [|destruct (under_a_file _ w)]; injection H as _ <-;
      apply changes_only_refl. }
  apply read_text_inv in Hread as [_ ->].
  apply bind_inv in H as [(e & H & _)|(cfg0 & w2 & Hload & H)].
  { unfold lift in H. injection H as _ <-. apply changes_only_refl. }
  unfold lift in Hload. injection Hload as _ <-.
  apply bind_inv in H as [(e & H & _)|(found & w2 & Hex & H)]; [discriminate H|].
  unfold path_exists in Hex. injection Hex as _ <-.
  apply bind_inv in H as [(e & H & _)|(u & wa & Hmk & H)].
  { apply maybe_mkdir_frame_any in H. now apply only_mkdirs_changes_only. }
  apply maybe_mkdir_frame_any in Hmk. apply (only_mkdirs_changes_only mp) in Hmk.
  eapply changes_only_trans; [exact Hmk|]. clear Hmk.
  apply bind_inv in H as [(e & H & _)|(fp & w3 & Hopen & H)].
  { apply open_w_raise in H as ->. apply changes_only_refl. }
  apply open_w_inv in Hopen as (-> & _ & _ & ->).
  apply bind_inv in H as [(e & H & _)|(u1 & w4 & Hw1 & H)]; [discriminate H|].
  rewrite write_with_file in Hw1. injection Hw1 as _ <-.
  apply bind_inv in H as [(e & H & _)|(u2 & w5 & Hw2 & H)]; [discriminate H|].
  rewrite write_with_file in Hw2. injection Hw2 as _ <-.
  eapply changes_only_trans; [apply with_file_changes_only|].
  apply bind_inv in H as [(e & H & _)|(found' & w6 & Hex' & H)]; [discriminate H|].
  unfold path_exists in Hex'. injection Hex' as _ <-.
  apply bind_inv in H as [(e & H & _)|(u3 & w7 & Hmk' & H)].
  { apply maybe_mkdir_frame_any in H. apply only_mkdirs_changes_only. exact H. }
  apply maybe_mkdir_frame_any in Hmk'.
  eapply changes_only_trans; [apply only_mkdirs_changes_only; exact Hmk'|].
  apply bind_inv in H as [(e & H & _)|(cfga & w8 & Hset1 & H)].
  { unfold lift in H. injection H as _ <-. apply changes_only_refl. }
  unfold lift in Hset1. injection Hset1 as _ <-.
  apply bind_inv in H as [(e & H & _)|(cfgb & w9 & Hset2 & H)].
  { unfold lift in H. injection H as _ <-. apply changes_only_refl. }
  unfold lift in Hset2. injection Hset2 as _ <-.
  unfold ret in H. injection H as _ <-. apply changes_only_refl.
Qed.

Lemma load_nemo_config_frame_witness :
  spawned w1 = spawned w0 /\ logged w1 = logged w0 /\ dirs w0 ⊆ dirs w1
  /\ forall q, q <> manifest_path_of env0 "store" -> files w1 !! q = files w0 !! q.
Proof.
  exact (load_nemo_config_frame env0 "general" "store" "out" w0 _ _ load_nemo_config_w0).
Defined.

(** X22. The first call of a deployment: when the profile is there and
    parses to a configuration with a [diarizer] mapping, the storage and the
    output directory do not exist yet, each under a directory that exists,
    and nothing stands at the manifest path, [load_nemo_config] returns, and
    the world after is the world before with the storage directory, the
    manifest in it and the output directory. *)
Theorem load_nemo_config_first_call env domain_type storage_path output_path w text cfg0 :
  let storage := storage_dir_of env storage_path in
  let manifest := manifest_path_of env storage_path in
  let output := output_dir_of env output_path in
  files w !! cfg_path_of env domain_type = Some text ->
  OmegaConf_load env text = Return cfg0 ->
  cfg0 !! "diarizer" = Some CfgMap ->
  (storage ∉ dirs w) -> files w !! storage = None -> path_parent storage ∈ dirs w ->
  (manifest ∉ dirs w) ->
  (output ∉ dirs w) -> files w !! output = None -> path_parent output ∈ dirs w ->
  output <> storage -> output <> manifest ->
  load_nemo_config env domain_type storage_path output_path w
  = (Return (<["diarizer.out_dir" := CfgStr (path_str output)]>
             (<["diarizer.manifest_filepath" := CfgStr (path_str manifest)]>
              (<["num_workers" := CfgInt 0]> cfg0))),
     with_dir output (with_file manifest manifest_content (with_dir storage w))).
Proof.
  intros storage manifest output Hfile Hload Hdia Hsd Hsf Hsp Hmd Hod Hof Hop Hos Hom.
  apply (load_nemo_config_steps env domain_type storage_path output_path w text cfg0
           (with_dir storage w)); try assumption.
  - now apply ensure_dir_makes.
  - cbn [with_dir dirs]. apply elem_of_union. left. now apply elem_of_singleton.
  - cbn [with_dir dirs]. fold manifest.
    pose proof (manifest_path_not_storage env storage_path) as Hne.
    fold manifest storage in Hne.
    rewrite not_elem_of_union, not_elem_of_singleton. now split.
  - apply ensure_dir_makes; fold output manifest storage; cbn [with_dir with_file dirs files].
    + rewrite not_elem_of_union, not_elem_of_singleton. now split.
    + rewrite lookup_insert_ne by congruence. exact Hof.
    + apply elem_of_union. now right.
Qed.

Lemma load_nemo_config_first_call_witness :
  load_nemo_config env0 "general" "store" "out" w0
  = (Return (<["diarizer.out_dir" := CfgStr (path_str (output_dir_of env0 "out"))]>
             (<["diarizer.manifest_filepath" := CfgStr (path_str (manifest_path_of env0 "store"))]>
              (<["num_workers" := CfgInt 0]> {[ "diarizer" := CfgMap ]}))),
     with_dir (output_dir_of env0 "out")
       (with_file (manifest_path_of env0 "store") manifest_content
          (with_dir (storage_dir_of env0 "store") w0))).
Proof.
  apply (load_nemo_config_first_call env0 "general" "store" "out" w0 "diarizer: {}").
  - lookup_file.
  - reflexivity.
  - reflexivity.
  - not_in_dirs.
  - lookup_file.
  - in_dirs.
  - not_in_dirs.
  - not_in_dirs.
  - lookup_file.
  - in_dirs.
  - path_ne.
  - path_ne.
Defined.



(** X28. A profile without a [diarizer] mapping is found out last: where
    the profile is there and parses to a configuration that has no mapping
    under [diarizer], the storage directory is there or can be made with one
    [mkdir], the manifest path is no directory and the output directory or
    its parent is there, [load_nemo_config] raises an [AttributeError], and
    by then the storage directory is there and the manifest is written. *)
Theorem load_nemo_config_missing_diarizer env domain_type storage_path output_path w text cfg0 :
  files w !! cfg_path_of env domain_type = Some text ->
  OmegaConf_load env text = Return cfg0 ->
  cfg0 !! "diarizer" <> Some CfgMap ->
  storage_dir_of env storage_path ∈ dirs w
  \/ (files w !! storage_dir_of env storage_path = None
      /\ path_parent (storage_dir_of env storage_path) ∈ dirs w) ->
  manifest_path_of env storage_path ∉ dirs w ->
  output_dir_of env output_path ∈ dirs w
  \/ path_parent (output_dir_of env output_path) ∈ dirs w ->
  exists msg w',
    load_nemo_config env domain_type storage_path output_path w
    = (Raise (AttributeError msg), w')
    /\ storage_dir_of env storage_path ∈ dirs w'
    /\ files w' = <[manifest_path_of env storage_path := manifest_content]> (files w).
Proof.
  intros Hfile Hload Hdia Hst Hnd Hout.
  destruct (ensure_dir_made _ _ Hst) as (wa & Emk & Hin & Hsub & Hwa).
  assert (Hnd' : manifest_path_of env storage_path ∉ dirs wa).
  { destruct Hwa as [->| ->]; [exact Hnd|]. cbn [with_dir dirs].
    apply not_elem_of_union. split; [|exact Hnd].
    rewrite elem_of_singleton. apply manifest_path_not_storage. }
  destruct (ensure_dir_returns (output_dir_of env output_path)
              (with_file (manifest_path_of env storage_path) manifest_content wa))
    as (w' & Emk').
  { cbn [with_file dirs]. destruct Hout as [H|H]; [left|right]; now apply Hsub. }
  exists "diarizer", w'. split; [|split].
  - unfold load_nemo_config.
    fold (cfg_path_of env domain_type) (storage_dir_of env storage_path).
    fold (manifest_path_of env storage_path) (output_dir_of env output_path).
    step_with ltac:(unfold read_text; rewrite Hfile; reflexivity).
    step_with ltac:(unfold lift; rewrite Hload; reflexivity).
    rewrite (ensure_dir_then _ _ _ _ Emk).
    step_with ltac:(apply open_w_ok; [exact Hnd'|]).
    2:{ unfold manifest_path_of. rewrite parse_manifest_name.
        now rewrite path_parent_joinpath_file. }
    step_with ltac:(apply write_with_file).
    step_with ltac:(apply write_with_file).
    rewrite manifest_content_steps.
    rewrite (ensure_dir_then _ _ _ _ Emk').
    erewrite bind_of_Raise; [reflexivity|].
    unfold lift. rewrite cfg_set_diarizer_missing; [reflexivity|].
    now rewrite lookup_diarizer_num_workers.
  - apply ensure_dir_frame in Emk' as [(_ & _ & _ & Hd & _) _]. apply Hd.
    cbn [with_file dirs]. exact Hin.
  - apply ensure_dir_frame in Emk' as [(Hf & _) _]. rewrite Hf. cbn [with_file files].
    destruct Hwa as [->| ->]; reflexivity.
Qed.

Lemma load_nemo_config_missing_diarizer_witness :
  exists msg w',
    load_nemo_config env0 "plain" "store" "out" w0_plain = (Raise (AttributeError msg), w')
    /\ storage_dir_of env0 "store" ∈ dirs w'
    /\ files w' = <[manifest_path_of env0 "store" := manifest_content]> (files w0_plain).
Proof.
  apply (load_nemo_config_missing_diarizer env0 "plain" "store" "out" w0_plain "name: plain"
           {[ "profile" := CfgRaw "name: plain" ]}).
  - lookup_file.
  - reflexivity.
  - intros H. rewrite lookup_singleton_ne in H by discriminate. discriminate H.
  - right. split; [lookup_file|in_dirs].
  - not_in_dirs.
  - right. in_dirs.
Defined.

Lemma lstrip_slashes_length s : (String.length (lstrip_slashes s) <= String.length s)%nat.
Proof.
  induction s as [|c s IH]; [reflexivity|].
  cbn [lstrip_slashes].
  destruct c as [[] [] [] [] [] [] [] []]; cbn [String.length]; lia.
Qed.

Lemma parse_path_absolute s : String.prefix "/" s = true -> root (parse_path s) <> "".
Proof.
  destruct s as [|c s]; [discriminate|]. rewrite prefix_cons.
  destruct (Ascii.eqb_spec "/" c) as [<-|]; [|discriminate]. intros _.
  unfold parse_path. cbn [root lstrip_slashes String.length].
  pose proof (lstrip_slashes_length s) as Hl.
  destruct (Nat.eqb_spec (S (String.length s) - String.length (lstrip_slashes s)) 0); [lia|].
  destruct (_ =? 2)%nat; discriminate.
Qed.

(** X24. An absolute storage path is not put under the package root: when
    [storage_path] starts with a slash, the storage directory is that path
    itself, and a call that returns has written the manifest to
    [storage_path/infer_manifest.json], the package root playing no part. *)
Theorem load_nemo_config_absolute_storage env domain_type storage_path output_path w cfg w' :
  String.prefix "/" storage_path = true ->
  load_nemo_config env domain_type storage_path output_path w = (Return cfg, w') ->
  joinpath (package_root env) (parse_path storage_path) = parse_path storage_path
  /\ is_dir (parse_path storage_path) w' = true
  /\ files w' !! joinpath (parse_path storage_path) (parse_path "infer_manifest.json")
     = Some (json_dumps manifest_meta +:+ String "010" "").
Proof.
  intros Habs Hrun.
  assert (Hjoin : joinpath (package_root env) (parse_path storage_path)
                  = parse_path storage_path).
  { pose proof (parse_path_absolute _ Habs) as Hroot. unfold joinpath.
    destruct (root (parse_path storage_path)); [contradiction|reflexivity]. }
  split; [exact Hjoin|].
  apply load_nemo_config_inv in Hrun
    as (text & cfg0 & wa & _ & _ & _ & _ & Hst & _ & (Hf & _ & _ & Hd & _) & _ & _).
  unfold storage_dir_of in Hst. unfold manifest_path_of, storage_dir_of in Hf.
  rewrite Hjoin in Hst, Hf. split.
  - apply is_dir_true. apply Hd. cbn [with_file dirs]. exact Hst.
  - rewrite Hf. cbn [with_file files]. apply lookup_insert_eq.
Qed.

Lemma load_nemo_config_absolute_storage_witness :
  joinpath (package_root env0) (parse_path "/tmp/store") = parse_path "/tmp/store"
  /\ is_dir (parse_path "/tmp/store")
       (with_dir (output_dir_of env0 "out")
          (with_file (manifest_path_of env0 "/tmp/store") manifest_content
             (with_dir (storage_dir_of env0 "/tmp/store") w0))) = true
  /\ files (with_dir (output_dir_of env0 "out")
              (with_file (manifest_path_of env0 "/tmp/store") manifest_content
                 (with_dir (storage_dir_of env0 "/tmp/store") w0)))
       !! joinpath (parse_path "/tmp/store") (parse_path "infer_manifest.json")
     = Some (json_dumps manifest_meta +:+ String "010" "").
Proof.
  eapply (load_nemo_config_absolute_storage env0 "general" "/tmp/store" "out" w0).
  - reflexivity.
  - eapply (load_nemo_config_steps env0 "general" "/tmp/store" "out" w0 "diarizer: {}"
              {[ "diarizer" := CfgMap ]}
              (with_dir (storage_dir_of env0 "/tmp/store") w0)).
    + lookup_file.
    + reflexivity.
    + reflexivity.
    + apply ensure_dir_makes; [not_in_dirs|lookup_file|in_dirs].
    + in_dirs.
    + not_in_dirs.
    + apply ensure_dir_makes; [not_in_dirs|lookup_file|in_dirs].
Defined.

(** ** Gap filler *)

Lemma ffill_from_length last x : length (ffill_from last x) = length x.
Proof.
  revert last. induction x as [|[v|] x IH]; intros last; cbn; [reflexivity| |];
    now rewrite IH.
Qed.

Lemma bfill_length x : length (bfill x) = length x.
Proof. induction x as [|[v|] x IH]; cbn; [reflexivity| |]; now rewrite IH. Qed.

Lemma ffill_from_keeps last x i v :
  x !! i = Some (Some v) -> ffill_from last x !! i = Some (Some v).
Proof.
  revert last i. induction x as [|[u|] x IH]; intros last [|i] H; cbn in *;
    try discriminate; try assumption; now apply IH.
Qed.

Lemma bfill_keeps x i v : x !! i = Some (Some v) -> bfill x !! i = Some (Some v).
Proof.
  revert i. induction x as [|[u|] x IH]; intros [|i] H; cbn in *;
    try discriminate; try assumption; now apply IH.
Qed.

(** Where [ffill] leaves a gap, nothing stands at or before it. *)
Lemma ffill_from_gap last x i :
  ffill_from last x !! i = Some None ->
  last = None /\ forall j, (j <= i)%nat -> x !! j = Some None.
Proof.
  revert last i. induction x as [|[u|] x IH]; intros last [|i] H; cbn in H; try discriminate.
  - apply IH in H as [Hl _]. discriminate Hl.
  - injection H as ->. split; [reflexivity|]. intros j Hj. now replace j with 0%nat by lia.
  - apply IH in H as [Hl Hx]. split; [exact Hl|].
    intros [|j] Hj; [reflexivity|]. cbn. apply Hx. lia.
Qed.

(** Where [bfill] leaves a gap, nothing stands at or after it. *)
Lemma bfill_gap x i :
  bfill x !! i = Some None -> forall j, (i <= j < length x)%nat -> x !! j = Some None.
Proof.
  revert i. induction x as [|[u|] x IH]; intros [|i] H j Hj; cbn in H, Hj; try discriminate;
    try lia.
  - destruct j as [|j]; [lia|]. cbn. apply (IH i H). lia.
  - destruct j as [|j]; [reflexivity|]. cbn.
    destruct (bfill x) as [|b y] eqn:Eb.
    + pose proof (bfill_length x) as Hl. rewrite Eb in Hl. cbn in Hl. lia.
    + cbn in H. injection H as ->. apply (IH 0%nat); [reflexivity|lia].
  - destruct j as [|j]; [lia|]. cbn. apply (IH i H). lia.
Qed.

(** After both fills a gap is left only in a series without any value. *)
Lemma fills_gap x i :
  bfill (ffill x) !! i = Some None -> forall k, (k < length x)%nat -> x !! k = Some None.
Proof.
  intros H k Hk.
  assert (Hj : ffill x !! Nat.max i k = Some None).
  { apply (bfill_gap _ i H). unfold ffill. rewrite ffill_from_length.
    apply lookup_lt_Some in H. rewrite bfill_length in H. unfold ffill in H.
    rewrite ffill_from_length in H. lia. }
  apply ffill_from_gap in Hj as [_ Hx]. apply Hx. lia.
Qed.

Lemma fills_length x : length (bfill (ffill x)) = length x.
Proof. unfold ffill. now rewrite bfill_length, ffill_from_length. Qed.

Lemma fills_keep x i v : x !! i = Some (Some v) -> bfill (ffill x) !! i = Some (Some v).
Proof. intros H. apply bfill_keeps. unfold ffill. now apply ffill_from_keeps. Qed.

(** A value after the fills is a value of the series. *)
Lemma ffill_from_source last x i v :
  ffill_from last x !! i = Some (Some v) ->
  last = Some v \/ exists k, x !! k = Some (Some v).
Proof.
  revert last i. induction x as [|[u|] x IH]; intros last [|i] H; cbn in H; try discriminate.
  - injection H as ->. right. now exists 0%nat.
  - apply IH in H as [[= ->]|(k & Hk)]; right; [now exists 0%nat|now exists (S k)].
  - injection H as ->. now left.
  - apply IH in H as [Hl|(k & Hk)]; [now left|right; now exists (S k)].
Qed.

Lemma bfill_source x i v :
  bfill x !! i = Some (Some v) -> exists k, x !! k = Some (Some v).
Proof.
  revert i. induction x as [|[u|] x IH]; intros [|i] H; cbn in H; try discriminate.
  - injection H as ->. now exists 0%nat.
  - apply IH in H as (k & Hk). now exists (S k).
  - destruct (bfill x) as [|b y] eqn:Eb; [discriminate H|]. cbn in H. injection H as ->.
    destruct (IH 0%nat) as (k & Hk); [reflexivity|]. now exists (S k).
  - apply IH in H as (k & Hk). now exists (S k).
Qed.

Lemma notnull_sum_cons v x :
  notnull_sum (v :: x) = (match v with Some _ => 1 | None => 0 end + notnull_sum x)%nat.
Proof. unfold notnull_sum. cbn. now destruct v. Qed.

Lemma notnull_sum_zero x i v : notnull_sum x = 0%nat -> x !! i = Some (Some v) -> False.
Proof.
  revert i. induction x as [|u x IH]; intros i H Hi; [discriminate Hi|].
  rewrite notnull_sum_cons in H. destruct i as [|i]; cbn in Hi.
  - injection Hi as ->. discriminate H.
  - apply (IH i); [destruct u; [discriminate H|exact H]|exact Hi].
Qed.

Lemma notnull_sum_one x i v k u :
  notnull_sum x = 1%nat -> x !! i = Some (Some v) -> x !! k = Some (Some u) -> u = v.
Proof.
  revert i k. induction x as [|a x IH]; intros i k H Hi Hk; [discriminate Hi|].
  rewrite notnull_sum_cons in H. destruct a as [a|].
  - assert (H0 : notnull_sum x = 0%nat) by lia.
    destruct i as [|i]; cbn in Hi; [|now destruct (notnull_sum_zero _ _ _ H0 Hi)].
    destruct k as [|k]; cbn in Hk; [|now destruct (notnull_sum_zero _ _ _ H0 Hk)].
    congruence.
  - destruct i as [|i]; [discriminate Hi|]. destruct k as [|k]; [discriminate Hk|].
    cbn in Hi, Hk. apply (IH i k); assumption.
Qed.

(** X25. A series with at most one value is filled without the library's
    interpolation: a series without any value comes back as it is, all
    missing, and a series with exactly one value comes back with that value
    at every position. *)
Theorem interpolate_nans_few_values interpolate (x : list (option Q)) method :
  (notnull_sum x = 0%nat -> interpolate_nans interpolate x method = x)
  /\ (forall i v,
        notnull_sum x = 1%nat -> x !! i = Some (Some v) ->
        length (interpolate_nans interpolate x method) = length x
        /\ forall j, (j < length x)%nat ->
             interpolate_nans interpolate x method !! j = Some (Some v)).
Proof.
  split.
  - intros H0. unfold interpolate_nans. rewrite H0. cbn [Nat.ltb Nat.leb].
    apply list_eq. intros j.
    destruct (x !! j) as [[v|]|] eqn:Ej.
    + destruct (notnull_sum_zero _ _ _ H0 Ej).
    + destruct (bfill (ffill x) !! j) as [[u|]|] eqn:Er; [|reflexivity|].
      * apply bfill_source in Er as (k & Hk). unfold ffill in Hk.
        apply ffill_from_source in Hk as [[=]|(k' & Hk')].
        destruct (notnull_sum_zero _ _ _ H0 Hk').
      * apply lookup_ge_None in Er. rewrite fills_length in Er.
        apply lookup_lt_Some in Ej. lia.
    + apply lookup_ge_None. rewrite fills_length. now apply lookup_ge_None.
  - intros i v H1 Hi. unfold interpolate_nans. rewrite H1. cbn [Nat.ltb Nat.leb].
    split; [apply fills_length|]. intros j Hj.
    destruct (bfill (ffill x) !! j) as [[u|]|] eqn:Er.
    + pose proof Er as Hsrc. apply bfill_source in Hsrc as (k & Hk). unfold ffill in Hk.
      apply ffill_from_source in Hk as [[=]|(k' & Hk')].
      now rewrite (notnull_sum_one _ _ _ _ _ H1 Hi Hk').
    + pose proof (fills_gap _ _ Er i (proj1 (lookup_lt_is_Some _ _) (ex_intro _ _ Hi))) as Hn.
      congruence.
    + apply lookup_ge_None in Er. rewrite fills_length in Er. lia.
Qed.

(** X26. Given that the library's interpolation keeps the length of a
    series and the values it finds in it, [interpolate_nans] keeps the length
    and every value of the series, and it leaves no gap as soon as the series
    holds one value. *)
Theorem interpolate_nans_fills interpolate (x : list (option Q)) method :
  (forall m y, length (interpolate m y) = length y) ->
  (forall m y i v, y !! i = Some (Some v) -> interpolate m y !! i = Some (Some v)) ->
  length (interpolate_nans interpolate x method) = length x
  /\ (forall i v, x !! i = Some (Some v) ->
        interpolate_nans interpolate x method !! i = Some (Some v))
  /\ ((1 <= notnull_sum x)%nat ->
      forall i, (i < length x)%nat ->
        exists v, interpolate_nans interpolate x method !! i = Some (Some v)).
Proof.
  intros Hlen Hkeep. unfold interpolate_nans.
  destruct (1 <? notnull_sum x)%nat eqn:E.
  - split; [now rewrite fills_length, Hlen|]. split.
    + intros i v Hi. now apply fills_keep, Hkeep.
    + intros Hsome i Hi.
      set (y := interpolate (default "nearest" method) x).
      destruct (bfill (ffill y) !! i) as [[u|]|] eqn:Er; [now exists u| |].
      * exfalso.
        assert (Hex : exists k v, x !! k = Some (Some v)).
        { clear -Hsome. induction x as [|a x IH]; [cbn in Hsome; lia|].
          rewrite notnull_sum_cons in Hsome. destruct a as [a|].
          - now exists 0%nat, a.
          - destruct IH as (k & v & Hk); [exact Hsome|]. now exists (S k), v. }
        destruct Hex as (k & v & Hk).
        pose proof (Hkeep (default "nearest" method) x k v Hk) as Hy. fold y in Hy.
        pose proof (fills_gap _ _ Er k (proj1 (lookup_lt_is_Some _ _) (ex_intro _ _ Hy))).
        congruence.
      * apply lookup_ge_None in Er. rewrite fills_length in Er. unfold y in Er.
        rewrite Hlen in Er. lia.
  - split; [apply fills_length|]. split.
    + intros i v Hi. now apply fills_keep.
    + intros Hsome i Hi.
      destruct (bfill (ffill x) !! i) as [[u|]|] eqn:Er; [now exists u| |].
      * exfalso.
        assert (Hex : exists k v, x !! k = Some (Some v)).
        { clear -Hsome. induction x as [|a x IH]; [cbn in Hsome; lia|].
          rewrite notnull_sum_cons in Hsome. destruct a as [a|].
          - now exists 0%nat, a.
          - destruct IH as (k & v & Hk); [exact Hsome|]. now exists (S k), v. }
        destruct Hex as (k & v & Hk).
        pose proof (fills_gap _ _ Er k (proj1 (lookup_lt_is_Some _ _) (ex_intro _ _ Hk))).
        congruence.
      * apply lookup_ge_None in Er. rewrite fills_length in Er. lia.
Qed.

Lemma interpolate_nans_fills_witness :
  let x : list (option Q) := [None; Some 1%Q; None; Some 3%Q; None] in
  length (interpolate_nans (fun _ y => y) x None) = length x
  /\ (forall i v, x !! i = Some (Some v) ->
        interpolate_nans (fun _ y => y) x None !! i = Some (Some v))
  /\ ((1 <= notnull_sum x)%nat ->
      forall i, (i < length x)%nat ->
        exists v, interpolate_nans (fun _ y => y) x None !! i = Some (Some v)).
Proof.
  intros x. apply (interpolate_nans_fills (fun _ y => y) x None).
  - reflexivity.
  - intros m y i v H. exact H.
Defined.

(** ** Router registration *)

(** X27. The module that registers the routers does not get to its loop:
    the tuple of routers lacks a comma, which makes its third element the
    call of a tuple, so that running the module raises [TypeError] with no
    router included, whatever the routers and the settings.  The loop, by
    itself, would not include a router either: it looks the router object up
    in the settings as an attribute name, and on an item whose first member
    is a router it raises [TypeError] with nothing added. *)
Theorem endpoints_register_nothing (settings : gmap string Endpoints.obj) :
  (forall audio_file_endpoint audio_url_endpoint live_endpoint youtube_endpoint,
     Endpoints.module_body settings audio_file_endpoint audio_url_endpoint live_endpoint
       youtube_endpoint
     = (inl Endpoints.TypeError, []))
  /\ (forall name prefix tags rest included,
        Endpoints.include_routers settings
          (Endpoints.Tuple [Endpoints.Router name; prefix; tags] :: rest) included
        = (inl Endpoints.TypeError, included)).
Proof. split; reflexivity. Qed.
